(** * OpenZeppelin language server: namespace analysis and quick fixes

    A shallow embedding of [server/src/namespace.ts], [server/src/diagnostics.ts],
    [server/src/quickfixes.ts], the code actions of [server/src/server.ts]
    and the syntax tree helpers of [server/src/helpers/slang.ts], with the
    parts of their libraries they call: Keccak-256, Node buffers, BigInt and
    string primitives, and the syntax tree and cursor of the slang parser.

    Conventions.
    - A JavaScript string is a Rocq [string] of one-byte characters: the
      text is taken to be ASCII, where the UTF-8 bytes [Buffer.from(s)]
      reads, the UTF-16 units that offsets count and the characters that
      regular expressions see are the same.
    - A [Buffer] is a [list byte], a [BigInt] is a [Z].
    - A text offset is a [nat]; [TextDocument.positionAt] is monotone and
      injective on the offsets of a document, so a [Range] is kept as its
      pair of offsets.
    - An [await] is the call of a function; the values that come from the
      settings or the client are parameters of the definitions. *)

From Stdlib Require Import ZArith List String Ascii Bool Lia Arith.
From Stdlib.Strings Require Import Byte.
Import ListNotations.

Local Open Scope string_scope.

(* ================================================================== *)
(** ** Keccak-256, the [keccak256] of ethereumjs-util *)

Module Keccak.
Local Open Scope Z_scope.

Definition w64 : Z := 2 ^ 64.

Definition rol64 (x : Z) (n : Z) : Z :=
  (Z.lor (Z.shiftl x n) (Z.shiftr x (64 - n))) mod w64.

Definition not64 (x : Z) : Z := Z.lxor x (w64 - 1).

(** The state is the 5x5 array of 64-bit lanes, lane (x, y) at index x + 5y. *)
Definition State := list Z.

Definition lane (st : State) (x y : nat) : Z :=
  nth ((x mod 5) + 5 * (y mod 5))%nat st 0.

Definition build (f : nat -> nat -> Z) : State :=
  map (fun i => f (i mod 5)%nat (i / 5)%nat) (seq 0 25).

Definition RC : list Z :=
  [ 0x0000000000000001; 0x0000000000008082; 0x800000000000808A;
    0x8000000080008000; 0x000000000000808B; 0x0000000080000001;
    0x8000000080008081; 0x8000000000008009; 0x000000000000008A;
    0x0000000000000088; 0x0000000080008009; 0x000000008000000A;
    0x000000008000808B; 0x800000000000008B; 0x8000000000008089;
    0x8000000000008003; 0x8000000000008002; 0x8000000000000080;
    0x000000000000800A; 0x800000008000000A; 0x8000000080008081;
    0x8000000000008080; 0x0000000080000001; 0x8000000080008008 ].

(** Rotation offsets, indexed like the state. *)
Definition ROT : list Z :=
  [  0;  1; 62; 28; 27;
    36; 44;  6; 55; 20;
     3; 10; 43; 25; 39;
    41; 45; 15; 21;  8;
    18;  2; 61; 56; 14 ].

Definition theta (a : State) : State :=
  let c x := Z.lxor (lane a x 0) (Z.lxor (lane a x 1) (Z.lxor (lane a x 2)
               (Z.lxor (lane a x 3) (lane a x 4)))) in
  let d x := Z.lxor (c (x + 4)%nat) (rol64 (c (x + 1)%nat) 1) in
  build (fun x y => Z.lxor (lane a x y) (d x)).

Definition rho_pi (a : State) : State :=
  build (fun x y =>
           let sx := ((x + 3 * y) mod 5)%nat in
           rol64 (lane a sx x) (lane ROT sx x)).

Definition chi (b : State) : State :=
  build (fun x y =>
           Z.lxor (lane b x y)
                  (Z.land (not64 (lane b (x + 1) y)) (lane b (x + 2) y))).

Definition iota (rc : Z) (a : State) : State :=
  match a with
  | [] => []
  | a0 :: rest => Z.lxor a0 rc :: rest
  end.

Definition round (a : State) (rc : Z) : State :=
  iota rc (chi (rho_pi (theta a))).

Definition keccak_f (a : State) : State := fold_left round RC a.

(** Little-endian lane encoding. *)
Fixpoint le_bytes (n : nat) (x : Z) : list Z :=
  match n with
  | O => []
  | S n' => (x mod 256) :: le_bytes n' (x / 256)
  end.

Fixpoint le_value (bs : list Z) : Z :=
  match bs with
  | [] => 0
  | b :: bs' => b + 256 * le_value bs'
  end.

Definition rate : nat := 136.

(** pad10*1 with the Keccak domain bits: 0x01 ... 0x80 to a multiple of the rate. *)
Definition pad (msg : list Z) : list Z :=
  let q := (rate - (List.length msg mod rate))%nat in
  if Nat.eqb q 1 then msg ++ [0x81]
  else msg ++ [0x01] ++ repeat 0 (q - 2) ++ [0x80].

Fixpoint lanes_of (n : nat) (bs : list Z) : list Z :=
  match n with
  | O => []
  | S n' => le_value (firstn 8 bs) :: lanes_of n' (skipn 8 bs)
  end.

Definition xor_block (st : State) (block : list Z) : State :=
  let ls := lanes_of 17 block in
  map (fun i => Z.lxor (nth i st 0) (nth i ls 0)) (seq 0 25).

Fixpoint absorb (nblocks : nat) (st : State) (bs : list Z) : State :=
  match nblocks with
  | O => st
  | S n' => absorb n' (keccak_f (xor_block st (firstn rate bs))) (skipn rate bs)
  end.

Definition squeeze (st : State) : list Z :=
  flat_map (fun i => le_bytes 8 (nth i st 0)) (seq 0 4).

Definition byte_of_Z (z : Z) : byte :=
  match Byte.of_N (Z.to_N (z mod 256)) with
  | Some b => b
  | None => x00
  end.

Definition Z_of_byte (b : byte) : Z := Z.of_N (Byte.to_N b).

Definition keccak256 (msg : list byte) : list byte :=
  let p := pad (map Z_of_byte msg) in
  map byte_of_Z (squeeze (absorb (List.length p / rate) (repeat 0 25) p)).
End Keccak.

(* ================================================================== *)
(** ** The JavaScript and Node primitives the code calls *)

Module JS.
Local Open Scope Z_scope.

(** [Buffer.from(s)]: the UTF-8 bytes of the string. *)
Definition Buffer_from (s : string) : list byte := list_byte_of_string s.

Definition hexdigit (d : Z) : ascii :=
  if d <? 10 then ascii_of_N (Z.to_N (48 + d))
  else ascii_of_N (Z.to_N (87 + d)).

(** The value of a hexadecimal digit, upper or lower case. *)
Definition hexval (c : ascii) : option Z :=
  let n := Z.of_N (N_of_ascii c) in
  if (48 <=? n) && (n <=? 57) then Some (n - 48)
  else if (97 <=? n) && (n <=? 102) then Some (n - 87)
  else if (65 <=? n) && (n <=? 70) then Some (n - 55)
  else None.

(** [buf.toString('hex')]: two lowercase digits per byte. *)
Fixpoint Buffer_toString_hex (bs : list byte) : string :=
  match bs with
  | [] => ""
  | b :: bs' =>
      let v := Keccak.Z_of_byte b in
      String (hexdigit (v / 16)) (String (hexdigit (v mod 16))
             (Buffer_toString_hex bs'))
  end.

(** [BigInt('0x' + digits)] for a string of hexadecimal digits. *)
Fixpoint hex_value (acc : Z) (s : string) : Z :=
  match s with
  | EmptyString => acc
  | String c s' =>
      match hexval c with
      | Some d => hex_value (16 * acc + d) s'
      | None => acc
      end
  end.

Definition BigInt_of_hex (digits : string) : Z := hex_value 0 digits.

Fixpoint hex_digits (fuel : nat) (n : Z) (acc : string) : string :=
  match fuel with
  | O => acc
  | S fuel' =>
      if n =? 0 then acc
      else hex_digits fuel' (n / 16) (String (hexdigit (n mod 16)) acc)
  end.

(** [n.toString(16)] of a BigInt: minimal lowercase digits, a minus sign
    before the digits of a negative number. *)
Definition BigInt_toString16 (n : Z) : string :=
  if n =? 0 then "0"
  else if n <? 0 then String "-" (hex_digits (Z.to_nat (Z.log2 (- n) + 1)) (- n) "")
  else hex_digits (Z.to_nat (Z.log2 n + 1)) n "".

(** [Buffer.from(s, 'hex')]: decodes pairs of hexadecimal characters and
    stops at the first pair that is not one; a trailing single character is
    dropped (Node: "data truncation may occur when decoding strings that
    do not exclusively consist of an even number of hexadecimal
    characters"). *)
Fixpoint Buffer_from_hex (s : string) : list byte :=
  match s with
  | String c1 (String c2 s') =>
      match hexval c1, hexval c2 with
      | Some h, Some l => Keccak.byte_of_Z (16 * h + l) :: Buffer_from_hex s'
      | _, _ => []
      end
  | _ => []
  end.

Fixpoint repeat_char (c : ascii) (n : nat) : string :=
  match n with
  | O => ""
  | S n' => String c (repeat_char c n')
  end.

(** [s.padStart(n, c)] for a one-character filler. *)
Definition padStart (s : string) (n : nat) (c : ascii) : string :=
  repeat_char c (n - String.length s) ++ s.

(** [s.startsWith(p)] *)
Fixpoint startsWith (p s : string) : bool :=
  match p, s with
  | EmptyString, _ => true
  | String a p', String b s' => Ascii.eqb a b && startsWith p' s'
  | String _ _, EmptyString => false
  end.

(** [s.includes(p)] *)
Fixpoint includes (s p : string) : bool :=
  startsWith p s ||
  match s with
  | EmptyString => false
  | String _ s' => includes s' p
  end.

(** The white space of the regular expression class [\s], on one-byte
    characters: tab, line feed, vertical tab, form feed, carriage return
    and space. *)
Definition is_space (c : ascii) : bool :=
  let n := N_of_ascii c in
  (N.eqb n 9 || N.eqb n 10 || N.eqb n 11 || N.eqb n 12 || N.eqb n 13 || N.eqb n 32)%bool.

(** [s.split(/\s+/)]: the pieces between maximal runs of white space; a
    run at the start or the end leaves an empty first or last piece. *)
Fixpoint split_go (s : string) (cur : string) (in_ws : bool) : list string :=
  match s with
  | EmptyString => [cur]
  | String c s' =>
      if is_space c then
        if in_ws then split_go s' cur true
        else cur :: split_go s' "" true
      else split_go s' (cur ++ String c "") false
  end.

Definition split_ws (s : string) : list string := split_go s "" false.

(** [arr.includes(x)] on an array of strings. *)
Definition array_includes (l : list string) (x : string) : bool :=
  existsb (String.eqb x) l.

(** [s.endsWith(p)], the test of a regular expression [/p$/] with a
    literal [p]. *)
Definition endsWith (s p : string) : bool :=
  let n := String.length s in
  let m := String.length p in
  (m <=? n)%nat && String.eqb (String.substring (n - m) m s) p.
Fixpoint drop (n : nat) (s : string) : string :=
  match n, s with
  | O, _ => s
  | S n', String _ s' => drop n' s'
  | S _, EmptyString => ""
  end.

(** [s.trim()] *)
Fixpoint trimStart (s : string) : string :=
  match s with
  | String c s' => if is_space c then trimStart s' else s
  | EmptyString => ""
  end.

Fixpoint trimEnd (s : string) : string :=
  match s with
  | EmptyString => ""
  | String c s' =>
      match trimEnd s' with
      | EmptyString => if is_space c then "" else String c ""
      | t => String c t
      end
  end.

Definition trim (s : string) : string := trimEnd (trimStart s).

(** The double quote character. *)
Definition dquote : string := String (ascii_of_nat 34) "".

(** *** The regular expressions of diagnostics.ts *)

(** A greedy repetition of characters satisfying [okc], followed by
    something [follow] accepts: the longest such repetition. *)
Fixpoint greedy (okc : ascii -> bool) (follow : string -> bool) (s : string)
  : option string :=
  let here := if follow s then Some "" else None in
  match s with
  | String c s' =>
      if okc c then
        match greedy okc follow s' with
        | Some cap => Some (String c cap)
        | None => here
        end
      else here
  | EmptyString => here
  end.

(** The leftmost place where the literal [lit] occurs and [m] matches what
    follows it. *)
Fixpoint search (lit : string) (m : string -> option string) (s : string)
  : option string :=
  match (if startsWith lit s then m (drop (String.length lit) s) else None) with
  | Some cap => Some cap
  | None =>
      match s with
      | String _ s' => search lit m s'
      | EmptyString => None
      end
  end.

(** What [.] does not match, on one-byte characters. *)
Definition is_line_terminator (c : ascii) : bool :=
  let n := N_of_ascii c in (N.eqb n 10 || N.eqb n 13)%bool.

Fixpoint skip_blanks (s : string) : string :=
  match s with
  | String c s' => if Ascii.eqb c " " then skip_blanks s' else s
  | EmptyString => ""
  end.

Definition lit (p : string) (s : string) : option string :=
  if startsWith p s then Some (drop (String.length p) s) else None.

Definition andThen (o : option string) (f : string -> option string) : option string :=
  match o with Some x => f x | None => None end.

(** The end of the formula pattern: a double quote, two closing
    parentheses, [-], [1] and two closing parentheses, [&] and
    [~bytes32(uint256(0xff))], with any number of blanks around [-] and [&]. *)
Definition formula_tail (s : string) : bool :=
  match
    andThen (lit (dquote ++ "))") s) (fun s =>
    andThen (lit "-" (skip_blanks s)) (fun s =>
    andThen (lit "1))" (skip_blanks s)) (fun s =>
    andThen (lit "&" (skip_blanks s)) (fun s =>
    lit "~bytes32(uint256(0xff))" (skip_blanks s)))))
  with
  | Some _ => true
  | None => false
  end.

(** [text.match(regex)] for the pattern of the slot formula,
    [keccak256(abi.encode(uint256(keccak256(<quote>ID<quote>)) - 1)) & ~bytes32(uint256(0xff))]
    with any number of blanks around [-] and [&], where ID is a greedy
    group of characters other than line terminators; the result is the
    captured group. *)
Definition match_formula (text : string) : option string :=
  search ("keccak256(abi.encode(uint256(keccak256(" ++ dquote)
         (greedy (fun c => negb (is_line_terminator c)) formula_tail) text.

Definition nonempty (o : option string) : option string :=
  match o with
  | Some EmptyString => None
  | _ => o
  end.

(** The pattern [@custom:storage-location erc7201:(\S+)]. *)
Definition match_storage_location_single (text : string) : option string :=
  search "@custom:storage-location erc7201:"
         (fun s => nonempty (greedy (fun c => negb (is_space c)) (fun _ => true) s))
         text.

(** The pattern [@custom:storage-location erc7201:(\S+)] with the
    lookahead for white space or the end of a block comment. *)
Definition match_storage_location_multi (text : string) : option string :=
  search "@custom:storage-location erc7201:"
         (fun s => nonempty (greedy (fun c => negb (is_space c))
                               (fun r => match r with
                                         | String c _ => is_space c || startsWith "*/" r
                                         | EmptyString => false
                                         end) s))
         text.
End JS.

(* ================================================================== *)
(** ** namespace.ts *)

Module Namespace.
Local Open Scope Z_scope.

Record Range := { range_start : nat; range_end : nat }.

(** The type [Variable] of the source; the plain name is a keyword here. *)
Record Variable_ := {
  content : string;
  name : string;
  range : Range
}.

(** [getNamespaceId]: an undefined or empty prefix is falsy. *)
Definition getNamespaceId (namespacePrefix : option string) (contractName : string) : string :=
  match namespacePrefix with
  | Some p => if String.eqb p "" then contractName else p ++ "." ++ contractName
  | None => contractName
  end.

Definition firstHash (id : string) : list byte :=
  Keccak.keccak256 (JS.Buffer_from id).

Definition minusOne (id : string) : Z :=
  JS.BigInt_of_hex (JS.Buffer_toString_hex (firstHash id)) - 1.

Definition minusOneBuffer (id : string) : list byte :=
  JS.Buffer_from_hex (JS.BigInt_toString16 (minusOne id)).

Definition secondHash (id : string) : list byte :=
  Keccak.keccak256 (minusOneBuffer id).

Definition masked (id : string) : Z :=
  Z.land (JS.BigInt_of_hex (JS.Buffer_toString_hex (secondHash id)))
         (Z.lnot 255).

Definition padded (id : string) : string :=
  JS.padStart (JS.BigInt_toString16 (masked id)) 64 "0".

Definition calculateERC7201StorageLocation (id : string) : string :=
  "0x" ++ padded id.

Record Namespace := {
  contractName : string;
  prefix : option string;
  variables : option (list Variable_)
}.

Definition nl : string := String (ascii_of_nat 10) "".

(** [arr.join(sep)] *)
Fixpoint join (sep : string) (l : list string) : string :=
  match l with
  | [] => ""
  | [x] => x
  | x :: rest => x ++ sep ++ join sep rest
  end.

(** [printNamespaceTemplate]: the reference ERC7201 template of a namespace. *)
Definition printNamespaceTemplate (namespace : Namespace) (indent : string) : string :=
  let namespaceId := getNamespaceId (prefix namespace) (contractName namespace) in
  let structName := contractName namespace ++ "Storage" in
  let locationName := structName ++ "Location" in
  let rootLocation := calculateERC7201StorageLocation namespaceId in
  "/// @custom:storage-location erc7201:" ++ namespaceId ++ nl ++
  indent ++ "struct " ++ structName ++ " {" ++ nl ++
  match variables namespace with
  | Some vs => join nl (map (fun variable => indent ++ indent ++ content variable) vs)
  | None => "undefined"
  end ++ nl ++
  indent ++ "}" ++ nl ++
  nl ++
  indent ++ "// keccak256(abi.encode(uint256(keccak256(" ++ JS.dquote ++ namespaceId ++
    JS.dquote ++ ")) - 1)) & ~bytes32(uint256(0xff))" ++ nl ++
  indent ++ "bytes32 private constant " ++ locationName ++ " = " ++ rootLocation ++ ";" ++ nl ++
  nl ++
  indent ++ "function _get" ++ structName ++ "() private pure returns (" ++ structName ++
    " storage $) {" ++ nl ++
  indent ++ indent ++ "assembly {" ++ nl ++
  indent ++ indent ++ indent ++ "$.slot := " ++ locationName ++ nl ++
  indent ++ indent ++ "}" ++ nl ++
  indent ++ "}" ++ nl.
End Namespace.

(* ================================================================== *)
(** ** The syntax tree and cursor of the slang parser

    The concrete syntax tree keeps every character of the source: a terminal
    carries its text, a nonterminal its children, trivia (white space,
    comments) included.  A cursor walks a tree in pre-order.  *)

Module Slang.

Inductive TerminalKind :=
| Identifier | OpenBrace | CloseBrace | OpenParen | CloseParen
| Semicolon | Equal | Comma | Period
| Whitespace | EndOfLine
| SingleLineComment | MultiLineComment
| SingleLineNatSpecComment | MultiLineNatSpecComment
| ImmutableKeyword | ConstantKeyword
| PublicKeyword | PrivateKeyword | InternalKeyword
| ContractKeyword | FunctionKeyword | IsKeyword | StructKeyword
| OtherTerminal.

(** [Parameters_] and [Parameter_] are the kinds [Parameters] and
    [Parameter] of the library, keywords here. *)
Inductive NonterminalKind :=
| SourceUnit | ContractDefinition
| InheritanceSpecifier | InheritanceTypes | InheritanceType | IdentifierPath
| ContractMembers
| FunctionDefinition | FunctionName | ParametersDeclaration | Parameters_
| Parameter_ | TypeName | FunctionBody | Block | ConstructorDefinition
| StateVariableDefinition | StateVariableAttributes | StateVariableAttribute
| StateVariableDefinitionValue | Expression | StructDefinition
| OtherNonterminal.

Scheme Equality for TerminalKind.
Scheme Equality for NonterminalKind.

#[local] Set Warnings "-register-all".

Inductive Node :=
| TerminalNode (kind : TerminalKind) (text : string)
| NonterminalNode (kind : NonterminalKind) (children : list Node).

(** [node.unparse()] *)
Fixpoint unparse (n : Node) : string :=
  match n with
  | TerminalNode _ t => t
  | NonterminalNode _ cs => String.concat "" (map unparse cs)
  end.

Definition isTerminal (n : Node) : bool :=
  match n with TerminalNode _ _ => true | NonterminalNode _ _ => false end.

Definition hasTerminalKind (k : TerminalKind) (n : Node) : bool :=
  match n with
  | TerminalNode k' _ => TerminalKind_beq k' k
  | NonterminalNode _ _ => false
  end.

Definition hasNonterminalKind (k : NonterminalKind) (n : Node) : bool :=
  match n with
  | TerminalNode _ _ => false
  | NonterminalNode k' _ => NonterminalKind_beq k' k
  end.

Definition hasNonterminalKinds (ks : list NonterminalKind) (n : Node) : bool :=
  existsb (fun k => hasNonterminalKind k n) ks.

Definition children (n : Node) : list Node :=
  match n with
  | TerminalNode _ _ => []
  | NonterminalNode _ cs => cs
  end.

(** The text of a terminal. *)
Definition text (n : Node) : string :=
  match n with
  | TerminalNode _ t => t
  | NonterminalNode _ _ => ""
  end.

(** A node together with the offset of its first character. *)
Record Item := { item_node : Node; item_offset : nat }.

(** The nodes of a subtree in pre-order, each with its offset. *)
Fixpoint preorder (n : Node) (off : nat) : list Item :=
  {| item_node := n; item_offset := off |} ::
  match n with
  | TerminalNode _ _ => []
  | NonterminalNode _ cs =>
      (fix go (cs : list Node) (off : nat) : list Item :=
         match cs with
         | [] => []
         | c :: cs' => (preorder c off ++ go cs' (off + String.length (unparse c)))%list
         end) cs off
  end.

(** Number of nodes of a subtree. *)
Definition size (n : Node) : nat := List.length (preorder n 0).

Record TextRange := { text_start : nat; text_end : nat }.

Definition item_range (it : Item) : TextRange :=
  {| text_start := item_offset it;
     text_end := item_offset it + String.length (unparse (item_node it)) |}.

(** A cursor: the root it was spawned at, the nodes walked so far (nearest
    first), the current node and the nodes still ahead, all within the
    subtree of the root.  A completed cursor stands at its root and no
    longer moves. *)
Record Cursor := {
  root : Item;
  before : list Item;
  current : Item;
  after : list Item;
  is_completed : bool
}.

Definition cursorAt (n : Node) (off : nat) : Cursor :=
  {| root := {| item_node := n; item_offset := off |};
     before := [];
     current := {| item_node := n; item_offset := off |};
     after := tl (preorder n off);
     is_completed := false |}.

(** [parseOutput.createTreeCursor()] *)
Definition createTreeCursor (tree : Node) : Cursor := cursorAt tree 0.

(** [cursor.node()] *)
Definition node (c : Cursor) : Node := item_node (current c).

(** [cursor.textRange] *)
Definition textRange (c : Cursor) : TextRange := item_range (current c).

(** [cursor.spawn()]: a fresh cursor whose root is the current node. *)
Definition spawn (c : Cursor) : Cursor :=
  cursorAt (item_node (current c)) (item_offset (current c)).

(** [cursor.clone()] *)
Definition clone (c : Cursor) : Cursor := c.

Definition complete (c : Cursor) : Cursor :=
  {| root := root c; before := []; current := root c; after := [];
     is_completed := true |}.

Fixpoint seek (p : Node -> bool) (skipped rest : list Item)
  : option (list Item * Item * list Item) :=
  match rest with
  | [] => None
  | it :: rest' =>
      if p (item_node it) then Some (skipped, it, rest')
      else seek p (it :: skipped) rest'
  end.

(** [while (cursor.goToNext()) { if (p(cursor.node())) return true; } return false;]
    the shape of every [goToNext...WithKind] of the library. *)
Definition goToNextWith (p : Node -> bool) (c : Cursor) : bool * Cursor :=
  if is_completed c then (false, c)
  else match seek p (current c :: before c) (after c) with
       | Some (b, it, a) =>
           (true, {| root := root c; before := b; current := it; after := a;
                     is_completed := false |})
       | None => (false, complete c)
       end.

Definition goToNext : Cursor -> bool * Cursor := goToNextWith (fun _ => true).
Definition goToNextTerminal : Cursor -> bool * Cursor := goToNextWith isTerminal.
Definition goToNextTerminalWithKind (k : TerminalKind) :=
  goToNextWith (hasTerminalKind k).
Definition goToNextNonterminalWithKind (k : NonterminalKind) :=
  goToNextWith (hasNonterminalKind k).
Definition goToNextNonterminalWithKinds (ks : list NonterminalKind) :=
  goToNextWith (hasNonterminalKinds ks).

(** [cursor.goToPrevious()]: climbs until there is a previous sibling, then
    descends to its last leaf; that is the nearest node walked before the
    current one that is not one of its ancestors.  [i] is the pre-order
    index of the candidate's successor. *)
Fixpoint seekBack (here : nat) (i : nat) (skipped cands : list Item)
  : option (list Item * Item * list Item) :=
  match cands with
  | [] => None
  | it :: cands' =>
      (* [it] has index [i - 1]; it is an ancestor when its subtree reaches [here] *)
      if (here <? (i - 1) + size (item_node it))%nat
      then seekBack here (i - 1) (it :: skipped) cands'
      else Some (cands', it, skipped)
  end.

Definition goToPrevious (c : Cursor) : bool * Cursor :=
  if is_completed c then (false, c)
  else
    let here := List.length (before c) in
    match seekBack here here [] (before c) with
    | Some (b, it, skipped) =>
        (true, {| root := root c; before := b; current := it;
                  after := (skipped ++ current c :: after c)%list;
                  is_completed := false |})
    | None => (false, complete c)
    end.

(** A loop [while (cursor.goToNextWith(p)) { s = body(cursor, s); }] whose
    body leaves the cursor where it is. *)
Fixpoint whileNext {S : Type} (p : Node -> bool) (rt : Item)
         (bef : list Item) (aft : list Item)
         (body : Cursor -> S -> S) (s : S) : S :=
  match aft with
  | [] => s
  | it :: aft' =>
      if p (item_node it)
      then whileNext p rt (it :: bef) aft' body
             (body {| root := rt; before := bef; current := it; after := aft';
                      is_completed := false |} s)
      else whileNext p rt (it :: bef) aft' body s
  end.

Definition forEachNext {S : Type} (p : Node -> bool) (c : Cursor)
           (body : Cursor -> S -> S) (s : S) : S :=
  if is_completed c then s
  else whileNext p (root c) (current c :: before c) (after c) body s.

(** The cursors the body of such a loop sees, in order. *)
Fixpoint visited (p : Node -> bool) (rt : Item) (bef aft : list Item) : list Cursor :=
  match aft with
  | [] => []
  | it :: aft' =>
      if p (item_node it)
      then {| root := rt; before := bef; current := it; after := aft';
              is_completed := false |} :: visited p rt (it :: bef) aft'
      else visited p rt (it :: bef) aft'
  end.

Definition cursorsNext (p : Node -> bool) (c : Cursor) : list Cursor :=
  if is_completed c then []
  else visited p (root c) (current c :: before c) (after c).

(** The moves a cursor has left. *)
Definition movesLeft (c : Cursor) : nat :=
  if is_completed c then 0 else S (List.length (after c)).

(** The nodes below a node, in pre-order. *)
Fixpoint descendants (n : Node) : list Node :=
  match n with
  | TerminalNode _ _ => []
  | NonterminalNode _ cs => flat_map (fun c => c :: descendants c) cs
  end.

(** Induction on a tree, with the property for all the children of a
    nonterminal. *)
Section NodeInduction.
Variable P : Node -> Prop.
Hypothesis HT : forall k t, P (TerminalNode k t).
Hypothesis HN : forall k cs, Forall P cs -> P (NonterminalNode k cs).

Fixpoint Node_ind' (n : Node) : P n :=
  match n with
  | TerminalNode k t => HT k t
  | NonterminalNode k cs =>
      HN k cs ((fix go (cs : list Node) : Forall P cs :=
                  match cs with
                  | [] => Forall_nil P
                  | c :: cs' => Forall_cons c (Node_ind' c) (go cs')
                  end) cs)
  end.
End NodeInduction.

(** *** The typed views of [@nomicfoundation/slang/ast] *)

Definition isTriviaKind (k : TerminalKind) : bool :=
  match k with
  | EndOfLine | MultiLineComment | MultiLineNatSpecComment
  | SingleLineComment | SingleLineNatSpecComment | Whitespace => true
  | _ => false
  end.

Definition childN (k : NonterminalKind) (n : Node) : option Node :=
  find (hasNonterminalKind k) (children n).

Definition childT (k : TerminalKind) (n : Node) : option Node :=
  find (hasTerminalKind k) (children n).

Definition childrenN (k : NonterminalKind) (n : Node) : list Node :=
  filter (hasNonterminalKind k) (children n).

Definition childrenT (k : TerminalKind) (n : Node) : list Node :=
  filter (hasTerminalKind k) (children n).

(** The [variant] of a choice node: its one child that is not trivia. *)
Definition variant (n : Node) : option Node :=
  find (fun c => match c with
                 | TerminalNode k _ => negb (isTriviaKind k)
                 | NonterminalNode _ _ => true
                 end) (children n).

Definition optText (o : option Node) : string :=
  match o with Some n => text n | None => "" end.

Definition optUnparse (o : option Node) : string :=
  match o with Some n => unparse n | None => "" end.

Definition optChildren (f : Node -> list Node) (o : option Node) : list Node :=
  match o with Some n => f n | None => [] end.

Module ContractDefinition.
(** [contractDef.name.text] *)
Definition name_text (c : Node) : string := optText (childT Identifier c).
(** [contractDef.inheritance] *)
Definition inheritance (c : Node) : option Node := childN InheritanceSpecifier c.
(** [inheritance.types.items] *)
Definition types_items (inh : Node) : list Node :=
  optChildren (childrenN InheritanceType) (childN InheritanceTypes inh).
(** [type.typeName.items] *)
Definition typeName_items (ty : Node) : list Node :=
  optChildren (childrenT Identifier) (childN IdentifierPath ty).
End ContractDefinition.

Module FunctionDefinition.
(** [functionDef.name.variant.text] *)
Definition name_variant_text (f : Node) : string :=
  match childN FunctionName f with
  | Some fn => optText (variant fn)
  | None => ""
  end.
(** [functionDef.parameters.parameters.items] *)
Definition parameters_items (f : Node) : list Node :=
  match childN ParametersDeclaration f with
  | Some pd => optChildren (childrenN Parameter_) (childN Parameters_ pd)
  | None => []
  end.
(** [parameter.typeName.cst.unparse()] *)
Definition typeName_unparse (p : Node) : string := optUnparse (childN TypeName p).
End FunctionDefinition.

Module StateVariableDefinition.
(** [stateVar.typeName.cst.unparse()] *)
Definition typeName_unparse (v : Node) : string := optUnparse (childN TypeName v).
(** [stateVar.attributes.items] *)
Definition attributes_items (v : Node) : list Node :=
  optChildren (childrenN StateVariableAttribute) (childN StateVariableAttributes v).
(** [stateVar.name.text] *)
Definition name_text (v : Node) : string := optText (childT Identifier v).
(** [stateVar.value] *)
Definition value (v : Node) : option Node := childN StateVariableDefinitionValue v.
End StateVariableDefinition.

(** [language.parse(kind, text)] *)
Record ParseOutput := { tree : Node; isValid : bool }.

End Slang.

(* ================================================================== *)
(** ** helpers/slang.ts *)

Module Helpers.
Import Slang.

(** [isTrivia]: a white space, comment or NatSpec terminal. *)
Definition isTrivia (n : Node) : bool :=
  match n with
  | TerminalNode k _ => isTriviaKind k
  | NonterminalNode _ _ => false
  end.

(** [goToLastTerminal]: steps to the next terminal as long as there is one. *)
Fixpoint goToLastTerminalFrom (fuel : nat) (c : Cursor) : Cursor :=
  match fuel with
  | O => c
  | S fuel' =>
      if fst (goToNextTerminal (clone c))
      then goToLastTerminalFrom fuel' (snd (goToNextTerminal c))
      else c
  end.

Definition goToLastTerminal (c : Cursor) : Cursor :=
  goToLastTerminalFrom (List.length (after c)) c.

(** A terminal found by a helper, with what the callers read of it. *)
Record Trivia := {
  trivia_kind : TerminalKind;
  trivia_text : string;
  trivia_range : TextRange
}.

Definition isNatSpecKind (k : TerminalKind) : bool :=
  match k with
  | SingleLineNatSpecComment | MultiLineNatSpecComment => true
  | _ => false
  end.

(** The walk of [getNatSpec] over the terminals after the cursor stops at
    the first that is not trivia or that is a NatSpec comment. *)
Definition endsNatSpecWalk (n : Node) : bool :=
  match n with
  | TerminalNode k _ => negb (isTriviaKind k) || isNatSpecKind k
  | NonterminalNode _ _ => false
  end.

(** The NatSpec comment that walk stops at, as the terminal it is: the
    kind, the text and the range the rules of diagnostics.ts read of the
    comment. *)
Definition natSpecTerminal (c : Cursor) : option Trivia :=
  match goToNextWith endsNatSpecWalk (clone c) with
  | (true, tc) =>
      match node tc with
      | TerminalNode k t =>
          if isNatSpecKind k
          then Some {| trivia_kind := k; trivia_text := t; trivia_range := textRange tc |}
          else None
      | NonterminalNode _ _ => None
      end
  | (false, _) => None
  end.

(** [getNatSpec]: [natSpec] is the text of the NatSpec comment the walk
    stops at, [node.text], and stays undefined when the walk stops at a
    terminal that is not trivia or finds no terminal. *)
Definition getNatSpec (c : Cursor) : option string :=
  match goToNextWith endsNatSpecWalk (clone c) with
  | (true, triviaCursor) =>
      match node triviaCursor with
      | TerminalNode k t => if isNatSpecKind k then Some t else None
      | NonterminalNode _ _ => None
      end
  | (false, _) => None
  end.

(** The last loop of [getTrimmedRange]: walks back until a terminal that
    is not trivia and takes its end. *)
Fixpoint trimmedEnd (fuel : nat) (c : Cursor) (end_ : nat) : nat :=
  match fuel with
  | O => end_
  | S fuel' =>
      match goToPrevious c with
      | (true, c') =>
          if isTerminal (node c') && negb (isTrivia (node c'))
          then text_end (textRange c')
          else trimmedEnd fuel' c' end_
      | (false, _) => end_
      end
  end.

(** [getTrimmedRange]: the range of the cursor's node without the trivia
    around it.  Every caller passes a cursor on a nonterminal, as the
    assertion of the source asks. *)
Definition getTrimmedRange (c : Cursor) : TextRange :=
  let childCursor := spawn c in
  let end0 := text_end (textRange childCursor) in
  (* find the first non-trivia terminal *)
  let c1 := snd (goToNextWith (fun n => isTerminal n && negb (isTrivia n)) childCursor) in
  let start := text_start (textRange c1) in
  (* move to the last terminal *)
  let c2 := goToLastTerminal c1 in
  (* move back until we find a non-whitespace terminal *)
  {| text_start := start;
     text_end := trimmedEnd (S (List.length (before c2))) c2 end0 |}.

(** [slangToVSCodeRange]: [doc.positionAt] of both ends. *)
Definition slangToVSCodeRange (r : TextRange) : Namespace.Range :=
  {| Namespace.range_start := text_start r; Namespace.range_end := text_end r |}.
End Helpers.

(* ================================================================== *)
(** ** The diagnostics of server.ts *)

Module Server.
Import Namespace.

Inductive DiagnosticSeverity := Error | Warning | Information | Hint.

Record NamespaceableContract := {
  nc_name : string;
  nc_variables : list Variable_
}.

(** The [data] of a diagnostic, as the rules attach it and as a client may
    send it back. *)
Inductive Data :=
| DataUndefined
| DataReplacement (replacement : string)
| DataContract (contract : NamespaceableContract).

Record RelatedInformation := {
  location_range : Range;
  related_message : string
}.

Record Diagnostic := {
  severity : DiagnosticSeverity;
  range : Range;
  message : string;
  source : string;
  code : string;
  data : Data;
  relatedInformation : option RelatedInformation
}.

(** [addDiagnostic]: pushes one diagnostic. *)
Definition addDiagnostic (hasDiagnosticRelatedInformationCapability : bool)
           (diagnostics : list Diagnostic) (range : Range)
           (message details : string) (severity : DiagnosticSeverity)
           (code : string) (data : Data) : list Diagnostic :=
  (diagnostics ++
    [ {| severity := severity;
         range := range;
         message := message;
         source := "OpenZeppelin Language Server";
         code := code;
         data := data;
         relatedInformation :=
           if hasDiagnosticRelatedInformationCapability
           then Some {| location_range := range; related_message := details |}
           else None |} ])%list.
End Server.

(* ================================================================== *)
(** ** diagnostics.ts *)

Module Diagnostics.
Import Slang Helpers Namespace Server.

Definition VARIABLE_CAN_BE_NAMESPACED := "VariableCanBeNamespaced".
Definition CONTRACT_CAN_BE_NAMESPACED := "ContractCanBeNamespaced".
Definition NAMESPACE_ID_MISMATCH := "NamespaceIdMismatch".
Definition NAMESPACE_ID_MISMATCH_HASH_COMMENT := "NamespaceIdMismatchHashComment".
Definition NAMESPACE_HASH_MISMATCH := "NamespaceHashMismatch".
Definition NAMESPACE_STANDALONE_HASH_MISMATCH := "NamespaceStandaloneHashMismatch".
Definition VARIABLE_HAS_INITIAL_VALUE := "VariableHasInitialValue".

Definition Language := NonterminalKind -> string -> ParseOutput.

(** [x?.some(...)] used as a condition: undefined is falsy. *)
Definition truthy (o : option bool) : bool :=
  match o with Some b => b | None => false end.

(** [contractDef.inheritance?.types.items.some(type => type.typeName.items.some(item => item.text === name))] *)
Definition inheritsNamed (name : string) (contractDef : Node) : option bool :=
  option_map
    (fun inh =>
       existsb (fun ty =>
                  existsb (fun item => String.eqb (text item) name)
                          (ContractDefinition.typeName_items ty))
               (ContractDefinition.types_items inh))
    (ContractDefinition.inheritance contractDef).

(** The test on a function definition in the loop of [inferUpgradeable]. *)
Definition isAuthorizeUpgrade (functionDefNode : Node) : bool :=
  let functionName := FunctionDefinition.name_variant_text functionDefNode in
  let items := FunctionDefinition.parameters_items functionDefNode in
  String.eqb functionName "_authorizeUpgrade" &&
  Nat.eqb (List.length items) 1 &&
  match items with
  | p0 :: _ => String.eqb (FunctionDefinition.typeName_unparse p0) "address"
  | [] => false
  end.

(** The tests of [inferUpgradeable], with the documentation comment read
    off its terminal.  The loop over the function definitions returns at
    the first that passes the test; the state of the loop is whether one
    did.  With the helper of the source, that returns the text of the
    comment alone, the last test ends in an error when there is a comment:
    see [Failing.inferUpgradeable]. *)
Definition inferUpgradeable (cursor : Cursor) (contractDef : Node) : bool :=
  let hasInitializable := inheritsNamed "Initializable" contractDef in
  let hasUUPSUpgradeable := inheritsNamed "UUPSUpgradeable" contractDef in
  if truthy hasInitializable || truthy hasUUPSUpgradeable then true
  else
    let functionCursor := spawn cursor in
    if forEachNext (hasNonterminalKind FunctionDefinition) functionCursor
         (fun fc found => found || isAuthorizeUpgrade (node fc)) false
    then true
    else
      match option_map (fun n => JS.split_ws (trivia_text n)) (natSpecTerminal cursor) with
      | Some natSpecTokens =>
          if JS.array_includes natSpecTokens "@custom:oz-upgrades" ||
             JS.array_includes natSpecTokens "@custom:oz-upgrades-from"
          then true else false
      | None => false
      end.

Definition hasCode (c : string) (d : Diagnostic) : bool := String.eqb (code d) c.

(** One of the two diagnostics on the hash of a storage location. *)
Definition isHashMismatch (d : Diagnostic) : bool :=
  hasCode NAMESPACE_HASH_MISMATCH d || hasCode NAMESPACE_STANDALONE_HASH_MISMATCH d.

(** A diagnostic on one variable. *)
Definition isVariableDiagnostic (d : Diagnostic) : bool :=
  hasCode VARIABLE_CAN_BE_NAMESPACED d || hasCode VARIABLE_HAS_INITIAL_VALUE d.

Section Pass.
(** The language of the pass and the language the variables are parsed
    again with, [new Language(await getSolidityVersion(textDocument))]. *)
Variable language : Language.
Variable variableLanguage : Language.
(** [await getNamespacePrefix(textDocument)] *)
Variable namespacePrefix : string.
(** The flag of server.ts. *)
Variable hasDiagnosticRelatedInformationCapability : bool.
(** Helper of helpers/slang.ts: the last line or block comment in the
    trivia before the node of the cursor. *)
Variable getLastPrecedingTriviaWithKinds :
  Cursor -> list TerminalKind -> option Trivia.

Definition addDiagnostic := Server.addDiagnostic hasDiagnosticRelatedInformationCapability.

Definition getExpectedNamespaceId (namespacePrefix : string) (contractDef : Node) : string :=
  getNamespaceId (Some namespacePrefix) (ContractDefinition.name_text contractDef).

(** [validateNamespaceableContract] *)
Definition validateNamespaceableContract (cursor : Cursor)
           (diagnostics : list Diagnostic)
           (namespaceableContract : NamespaceableContract) : list Diagnostic :=
  if (0 <? List.length (nc_variables namespaceableContract))%nat then
    let contractChildCursor :=
      snd (goToNextTerminalWithKind Identifier (spawn cursor)) in
    let identifierStart := text_start (textRange contractChildCursor) in
    let contractDefEnd := text_end (textRange cursor) in
    addDiagnostic diagnostics
      (slangToVSCodeRange {| text_start := identifierStart; text_end := contractDefEnd |})
      "Contract can be namespaced."
      "If this contract is an upgradeable contract, consider moving its variables to namespaced storage."
      Hint
      CONTRACT_CAN_BE_NAMESPACED
      (DataContract namespaceableContract)
  else diagnostics.

(** The test of the loop over the attributes of a state variable. *)
Definition isImmutableOrConstant (attribute : Node) : bool :=
  match variant attribute with
  | Some (TerminalNode k _) =>
      TerminalKind_beq k ImmutableKeyword || TerminalKind_beq k ConstantKeyword
  | _ => false
  end.

(** The loop over the attributes: the state is [(ignoreVariable, replacement)]. *)
Definition scanAttributes (stateVar : Node) (variableText : string) : bool * string :=
  fold_left
    (fun (st : bool * string) attribute =>
       if isImmutableOrConstant attribute then (true, snd st)
       else (fst st,
             StateVariableDefinition.typeName_unparse stateVar ++ " " ++
             StateVariableDefinition.name_text stateVar ++ ";"))
    (StateVariableDefinition.attributes_items stateVar)
    (false, variableText).

(** The body of the loop of [validateNamespaceableVariables]; the state is
    the diagnostics and the namespaceable contract. *)
Definition validateVariable (skipDiagnostic : bool) (childCursor : Cursor)
           (st : list Diagnostic * NamespaceableContract)
  : list Diagnostic * NamespaceableContract :=
  let (diagnostics, namespaceableContract) := st in
  let cursorNode := node childCursor in
  let trimmedRange := getTrimmedRange childCursor in
  let variableText := JS.trim (unparse cursorNode) in
  let parseVar := variableLanguage StateVariableDefinition variableText in
  let stateVar := tree parseVar in
  let (ignoreVariable, replacement) := scanAttributes stateVar variableText in
  if ignoreVariable then (diagnostics, namespaceableContract)
  else
    match StateVariableDefinition.value stateVar with
    | Some _ =>
        (if negb skipDiagnostic then
           addDiagnostic diagnostics (slangToVSCodeRange trimmedRange)
             "Variable has initial value"
             "If this contract is an upgradeable contract, consider moving this variable to namespaced storage and setting it in an initializer."
             Warning
             VARIABLE_HAS_INITIAL_VALUE
             DataUndefined
         else diagnostics,
         namespaceableContract)
    | None =>
        (if negb skipDiagnostic then
           addDiagnostic diagnostics (slangToVSCodeRange trimmedRange)
             "Variable can be namespaced."
             "If this contract is an upgradeable contract, consider moving this variable to namespaced storage."
             Information
             VARIABLE_CAN_BE_NAMESPACED
             DataUndefined
         else diagnostics,
         {| nc_name := nc_name namespaceableContract;
            nc_variables :=
              (nc_variables namespaceableContract ++
               [ {| content := replacement;
                    name := StateVariableDefinition.name_text stateVar;
                    Namespace.range := slangToVSCodeRange trimmedRange |} ])%list |})
    end.

(** The tree of a state variable parsed again from its trimmed text. *)
Definition reparsed (childCursor : Cursor) : Node :=
  tree (variableLanguage StateVariableDefinition (JS.trim (unparse (node childCursor)))).

(** The variable carries the [immutable] or the [constant] attribute. *)
Definition declaredImmutableOrConstant (childCursor : Cursor) : bool :=
  existsb isImmutableOrConstant
          (StateVariableDefinition.attributes_items (reparsed childCursor)).

Definition emptyContract (name : string) : NamespaceableContract :=
  {| nc_name := name; nc_variables := [] |}.

(** What one state variable adds to the diagnostics and to the variables. *)
Definition variableDiagnostics (skipDiagnostic : bool) (childCursor : Cursor)
  : list Diagnostic :=
  fst (validateVariable skipDiagnostic childCursor ([], emptyContract "")).

Definition variableEntries (childCursor : Cursor) : list Variable_ :=
  nc_variables (snd (validateVariable true childCursor ([], emptyContract ""))).

(** The cursors of the loop of [validateNamespaceableVariables]. *)
Definition stateVariableCursors (cursor : Cursor) : list Cursor :=
  cursorsNext (hasNonterminalKind StateVariableDefinition) (spawn cursor).

(** [validateNamespaceableVariables] *)
Definition validateNamespaceableVariables (cursor : Cursor)
           (diagnostics : list Diagnostic)
           (namespaceableContract : NamespaceableContract) (skipDiagnostic : bool)
  : list Diagnostic * NamespaceableContract :=
  forEachNext (hasNonterminalKind StateVariableDefinition) (spawn cursor)
    (validateVariable skipDiagnostic) (diagnostics, namespaceableContract).

(** The comment before a state variable, as the first half of the loop
    body of [validateNamespaceCommentAndHash] reads it: the diagnostics,
    [expectedHashFromComment] and [commentHasUnexpectedNamespace]. *)
Definition checkComment (contractDef : Node) (comment : option Trivia)
           (diagnostics : list Diagnostic)
  : list Diagnostic * option string * bool :=
  match comment with
  | Some comment =>
      match JS.match_formula (trivia_text comment) with
      | Some match1 =>
          let expectedNamespaceId := getExpectedNamespaceId namespacePrefix contractDef in
          let (diagnostics', commentHasUnexpectedNamespace) :=
            if negb (String.eqb match1 expectedNamespaceId) then
              (addDiagnostic diagnostics (slangToVSCodeRange (trivia_range comment))
                 "Unexpected namespace id"
                 ("Namespace id expected to be " ++ namespacePrefix ++ "." ++
                  ContractDefinition.name_text contractDef)
                 Warning
                 NAMESPACE_ID_MISMATCH_HASH_COMMENT
                 (DataReplacement
                    ("// keccak256(abi.encode(uint256(keccak256(" ++ JS.dquote ++
                     expectedNamespaceId ++ JS.dquote ++
                     ")) - 1)) & ~bytes32(uint256(0xff))")),
               true)
            else (diagnostics, false) in
          (diagnostics', Some (calculateERC7201StorageLocation match1),
           commentHasUnexpectedNamespace)
      | None => (diagnostics, None, false)
      end
  | None => (diagnostics, None, false)
  end.

Definition optEqb (a : string) (b : option string) : bool :=
  match b with Some b' => String.eqb a b' | None => false end.

Definition nameLooksLikeLocation (name : string) : bool :=
  JS.endsWith name "_STORAGE_LOCATION" || JS.endsWith name "StorageLocation".

(** The body of the loop of [validateNamespaceCommentAndHash]: the
    diagnostics and the cursor it leaves. *)
Definition validateCommentAndHash (contractDef : Node) (spawnedCursor : Cursor)
           (diagnostics : list Diagnostic) : list Diagnostic * Cursor :=
  let comment :=
    getLastPrecedingTriviaWithKinds spawnedCursor [SingleLineComment; MultiLineComment] in
  let '(diagnostics, expectedHashFromComment, commentHasUnexpectedNamespace) :=
    checkComment contractDef comment diagnostics in
  let stateVarDefNode := node spawnedCursor in
  if nameLooksLikeLocation (StateVariableDefinition.name_text stateVarDefNode) then
    let spawnedCursor :=
      snd (goToNextNonterminalWithKind StateVariableDefinitionValue spawnedCursor) in
    let spawnedCursor :=
      snd (goToNextNonterminalWithKind Expression spawnedCursor) in
    let constantNode := node spawnedCursor in
    match constantNode with
    | NonterminalNode _ _ =>
        let text := unparse constantNode in
        let expectedNamespaceId := getExpectedNamespaceId namespacePrefix contractDef in
        let expectedHashFromNamespace := calculateERC7201StorageLocation expectedNamespaceId in
        let diagnostics :=
          match expectedHashFromComment with
          | Some fromComment =>
              if negb (JS.includes text fromComment) then
                addDiagnostic diagnostics
                  (slangToVSCodeRange (getTrimmedRange spawnedCursor))
                  "ERC7201 storage location hash does not match comment"
                  "Hash does not match formula in comment"
                  Warning
                  NAMESPACE_HASH_MISMATCH
                  (DataReplacement fromComment)
              else diagnostics
          | None => diagnostics
          end in
        let diagnostics :=
          if negb commentHasUnexpectedNamespace &&
             negb (optEqb expectedHashFromNamespace expectedHashFromComment) &&
             negb (JS.includes text expectedHashFromNamespace)
          then
            addDiagnostic diagnostics
              (slangToVSCodeRange (getTrimmedRange spawnedCursor))
              "ERC7201 storage location hash does not match expected namespace id"
              ("Expected hash to be based on " ++ expectedNamespaceId)
              Warning
              NAMESPACE_STANDALONE_HASH_MISMATCH
              (DataReplacement expectedHashFromNamespace)
          else diagnostics in
        (diagnostics, spawnedCursor)
    | TerminalNode _ _ => (diagnostics, spawnedCursor)
    end
  else (diagnostics, spawnedCursor).

(** The loop of [validateNamespaceCommentAndHash]; its body moves the
    cursor, so the loop runs on the moves left. *)
Fixpoint commentAndHashLoop (fuel : nat) (contractDef : Node)
         (spawnedCursor : Cursor) (diagnostics : list Diagnostic)
  : list Diagnostic :=
  match fuel with
  | O => diagnostics
  | S fuel' =>
      match goToNextNonterminalWithKind StateVariableDefinition spawnedCursor with
      | (true, c) =>
          let (diagnostics', c') := validateCommentAndHash contractDef c diagnostics in
          commentAndHashLoop fuel' contractDef c' diagnostics'
      | (false, _) => diagnostics
      end
  end.

(** [validateNamespaceCommentAndHash] *)
Definition validateNamespaceCommentAndHash (cursor : Cursor) (contractDef : Node)
           (diagnostics : list Diagnostic) : list Diagnostic :=
  let spawnedCursor := spawn cursor in
  commentAndHashLoop (S (List.length (after spawnedCursor))) contractDef
                     spawnedCursor diagnostics.

(** Where the body of that loop leaves the cursor of a variable named
    like a storage location: on the next initializer expression. *)
Definition initializerCursor (spawnedCursor : Cursor) : Cursor :=
  snd (goToNextNonterminalWithKind Expression
         (snd (goToNextNonterminalWithKind StateVariableDefinitionValue spawnedCursor))).

(** No line or block comment before the variable has the slot formula. *)
Definition noFormulaComment (spawnedCursor : Cursor) : Prop :=
  match getLastPrecedingTriviaWithKinds spawnedCursor
                                        [SingleLineComment; MultiLineComment] with
  | Some comment => JS.match_formula (trivia_text comment) = None
  | None => True
  end.

(** The body of the loop of [validateNamespaceStructAnnotation], with the
    NatSpec comment read off its terminal.  With the helper of the source
    the assertion on the kind fails whenever there is a comment: see
    [Failing.validateStruct]. *)
Definition validateStruct (contractDef : Node) (structCursor : Cursor)
           (diagnostics : list Diagnostic) : list Diagnostic :=
  match natSpecTerminal structCursor with
  | Some natSpec =>
      let m :=
        if TerminalKind_beq (trivia_kind natSpec) SingleLineNatSpecComment
        then JS.match_storage_location_single (trivia_text natSpec)
        else JS.match_storage_location_multi (trivia_text natSpec) in
      match m with
      | Some match1 =>
          let expectedNamespaceId := getExpectedNamespaceId namespacePrefix contractDef in
          if negb (String.eqb match1 expectedNamespaceId) then
            addDiagnostic diagnostics (slangToVSCodeRange (trivia_range natSpec))
              "Unexpected namespace id"
              ("Namespace id expected to be " ++ namespacePrefix ++ "." ++
               ContractDefinition.name_text contractDef)
              Warning
              NAMESPACE_ID_MISMATCH
              (DataReplacement ("/// @custom:storage-location erc7201:" ++ expectedNamespaceId))
          else diagnostics
      | None => diagnostics
      end
  | None => diagnostics
  end.

(** [validateNamespaceStructAnnotation] *)
Definition validateNamespaceStructAnnotation (cursor : Cursor) (contractDef : Node)
           (diagnostics : list Diagnostic) : list Diagnostic :=
  forEachNext (hasNonterminalKind StructDefinition) (spawn cursor)
    (validateStruct contractDef) diagnostics.

(** The body of the loop of [validateNamespaces], for the contract the
    cursor stands on. *)
Definition validateContract (cursor : Cursor) (diagnostics : list Diagnostic)
  : list Diagnostic :=
  let cursorNode := node cursor in
  let contractDef := cursorNode in
  let parseContract := language ContractDefinition (unparse cursorNode) in
  if negb (isValid parseContract) then diagnostics
  else
    let namespaceableContract :=
      {| nc_name := ContractDefinition.name_text contractDef; nc_variables := [] |} in
    let inferredUpgradeable := inferUpgradeable cursor contractDef in
    let diagnostics :=
      if inferredUpgradeable then
        validateNamespaceCommentAndHash cursor contractDef
          (validateNamespaceStructAnnotation cursor contractDef diagnostics)
      else diagnostics in
    let (diagnostics, namespaceableContract) :=
      validateNamespaceableVariables cursor diagnostics namespaceableContract
        (negb inferredUpgradeable) in
    validateNamespaceableContract cursor diagnostics namespaceableContract.

(** The variables the pass over a contract ends with. *)
Definition eligibleVariables (cursor : Cursor) : list Variable_ :=
  nc_variables
    (snd (validateNamespaceableVariables cursor []
            (emptyContract (ContractDefinition.name_text (node cursor)))
            (negb (inferUpgradeable cursor (node cursor))))).

(** [validateNamespaces], on the tree of the parse output. *)
Definition validateNamespaces (parseOutput : Node) (diagnostics : list Diagnostic)
  : list Diagnostic :=
  forEachNext (hasNonterminalKind ContractDefinition) (createTreeCursor parseOutput)
    validateContract diagnostics.
End Pass.

(** Any diagnostic but the one on a whole contract. *)
Definition notContractLevel (d : Diagnostic) : Prop :=
  hasCode CONTRACT_CAN_BE_NAMESPACED d = false.

End Diagnostics.

(* ================================================================== *)
(** ** quickfixes.ts *)

Module Quickfixes.
Import Slang Helpers Namespace Server.

Record TextEdit := { edit_range : Range; newText : string }.

Record CodeAction := {
  title : string;
  (** [edit.changes[textDocument.uri]] *)
  edit : list TextEdit;
  diagnostics : list Diagnostic
}.

(** A computation that may throw. *)
Inductive Result (A : Type) :=
| Ok (a : A)
| Throw (e : string).
Arguments Ok {A} a.
Arguments Throw {A} e.

Definition bind {A B : Type} (r : Result A) (f : A -> Result B) : Result B :=
  match r with
  | Ok a => f a
  | Throw e => Throw e
  end.

Definition indent : string := "    ".

(** The line [addStorageGetter] looks for and inserts. *)
Definition expectedLine (contractName : string) : string :=
  contractName ++ "Storage storage $ = _get" ++ contractName ++ "Storage();".

(** [addStorageGetter] *)
Definition addStorageGetter (contractName : string) (blockNode : Node)
           (functionBodyCursor : Cursor) (edits : list TextEdit)
  : Result (list TextEdit) :=
  if negb (JS.includes (unparse blockNode) (expectedLine contractName)) then
    match goToNextTerminalWithKind OpenBrace (spawn functionBodyCursor) with
    | (true, openBraceCursor) =>
        Ok (edits ++
            [ {| edit_range := slangToVSCodeRange (textRange openBraceCursor);
                 newText := "{" ++ nl ++ indent ++ indent ++
                            expectedLine contractName ++ nl |} ])%list
    | (false, _) => Throw "AssertionError"
    end
  else Ok edits.

(** [variables.some(variable => variable.name === identifierNode.text)] *)
Definition isNamespaced (variables : list Variable_) (identifierText : string) : bool :=
  existsb (fun variable => String.eqb (name variable) identifierText) variables.

(** [replaceVariables]: the state of the loop is [(needsReplacement, edits)]. *)
Definition replaceVariables (blockCursor : Cursor) (variables : list Variable_)
           (edits : list TextEdit) : bool * list TextEdit :=
  forEachNext (hasTerminalKind Identifier) (spawn blockCursor)
    (fun identifierCursor (st : bool * list TextEdit) =>
       let identifierNode := node identifierCursor in
       if isNamespaced variables (text identifierNode) then
         (true,
          (snd st ++
           [ {| edit_range := slangToVSCodeRange (textRange identifierCursor);
                newText := "$." ++ text identifierNode |} ])%list)
       else st)
    (false, edits).

(** The block of a constructor or function, as the loop of
    [editNamespaceVariablesInFunctions] looks for it. *)
Definition findBlock (cursor : Cursor) : Cursor :=
  let blockCursor := spawn cursor in
  let constructorOrFunctionNode := node blockCursor in
  if hasNonterminalKind ConstructorDefinition constructorOrFunctionNode then
    snd (goToNextNonterminalWithKind Block blockCursor)
  else
    snd (goToNextNonterminalWithKind Block
           (snd (goToNextNonterminalWithKind FunctionBody blockCursor))).

(** The body of the loop of [editNamespaceVariablesInFunctions]. *)
Definition editFunction (contractName : string) (variables : list Variable_)
           (cursor : Cursor) (edits : list TextEdit) : Result (list TextEdit) :=
  let blockCursor := findBlock cursor in
  let blockNode := node blockCursor in
  match blockNode with
  | NonterminalNode _ _ =>
      let (needsReplacement, edits) := replaceVariables blockCursor variables edits in
      if needsReplacement
      then addStorageGetter contractName blockNode blockCursor edits
      else Ok edits
  | TerminalNode _ _ => Throw "AssertionError"
  end.

(** [editNamespaceVariablesInFunctions] *)
Definition editNamespaceVariablesInFunctions (contractCursor : Cursor)
           (contractName : string) (variables : list Variable_)
           (edits : list TextEdit) : Result (list TextEdit) :=
  forEachNext (hasNonterminalKinds [ConstructorDefinition; FunctionDefinition])
    (spawn contractCursor)
    (fun cursor st => bind st (editFunction contractName variables cursor))
    (Ok edits).

(** [getNamespaceStructEndRange] *)
Definition getNamespaceStructEndRange (contractCursor : Cursor)
           (prefix contractName : string) : option TextRange :=
  let namespaceStructCursor :=
    snd (goToNextTerminalWithKind SingleLineNatSpecComment (spawn contractCursor)) in
  match node namespaceStructCursor with
  | TerminalNode _ natspecText =>
      if JS.includes natspecText
           ("@custom:storage-location erc7201:" ++ getNamespaceId (Some prefix) contractName)
      then
        let namespaceStructEndCursor :=
          snd (goToNextTerminalWithKind CloseBrace (spawn contractCursor)) in
        Some (textRange namespaceStructEndCursor)
      else None
  | NonterminalNode _ _ => None
  end.

(** [editNewNamespace]: the first variable is replaced by the namespace,
    the others are deleted. *)
Definition editNewNamespace (prefix contractName : string) (variables : list Variable_)
           (edits : list TextEdit) : list TextEdit :=
  let namespace :=
    {| Namespace.contractName := contractName;
       Namespace.prefix := Some prefix;
       Namespace.variables := Some variables |} in
  match variables with
  | [] => edits
  | v0 :: rest =>
      (edits ++
       [ {| edit_range := Namespace.range v0;
            newText := printNamespaceTemplate namespace indent |} ] ++
       map (fun variable => {| edit_range := Namespace.range variable; newText := "" |})
           rest)%list
  end.

(** [editExistingNamespace]: every variable is deleted and inserted before
    the closing brace of the struct. *)
Definition editExistingNamespace (variables : list Variable_) (edits : list TextEdit)
           (structEndRange : TextRange) : list TextEdit :=
  fold_left
    (fun edits variable =>
       (edits ++
        [ {| edit_range := Namespace.range variable; newText := "" |};
          {| edit_range := slangToVSCodeRange structEndRange;
             newText := indent ++ content variable ++ nl ++ indent ++ "}" |} ])%list)
    variables edits.

(** The state of the loop over the contracts of
    [getMoveAllVariablesToNamespaceQuickFix]: whether the contract was
    found (the loop then breaks), [namespaceStructEndRange] and the edits. *)
Record Search := {
  found : bool;
  namespaceStructEndRange : option TextRange;
  edits : Result (list TextEdit)
}.

Section QuickFix.
(** [new Language(await getSolidityVersion(textDocument))] *)
Variable language : NonterminalKind -> string -> ParseOutput.

Definition visitContract (prefix contractName : string) (variables : list Variable_)
           (cursor : Cursor) (st : Search) : Search :=
  if found st then st
  else
    let contractCursor := spawn cursor in
    let cursorNode := node contractCursor in
    let parseContract := language ContractDefinition (unparse cursorNode) in
    if negb (isValid parseContract) then st
    else if negb (String.eqb (ContractDefinition.name_text cursorNode) contractName) then st
    else
      {| found := true;
         namespaceStructEndRange :=
           getNamespaceStructEndRange contractCursor prefix contractName;
         edits :=
           bind (edits st)
                (editNamespaceVariablesInFunctions contractCursor contractName variables) |}.

(** [getMoveAllVariablesToNamespaceQuickFix]; [None] is [undefined]. *)
Definition getMoveAllVariablesToNamespaceQuickFix
           (fixesDiagnostics : list Diagnostic) (title prefix contractName : string)
           (variables : list Variable_) (documentText : string)
  : Result (option CodeAction) :=
  let parseOutput := language SourceUnit documentText in
  let cursor := createTreeCursor (tree parseOutput) in
  let st :=
    forEachNext (hasNonterminalKind ContractDefinition) cursor
      (visitContract prefix contractName variables)
      {| found := false; namespaceStructEndRange := None; edits := Ok [] |} in
  bind (edits st) (fun edits =>
    if Nat.eqb (List.length variables) 0 then Ok None
    else
      let edits :=
        match namespaceStructEndRange st with
        | None => editNewNamespace prefix contractName variables edits
        | Some structEndRange => editExistingNamespace variables edits structEndRange
        end in
      Ok (Some {| title := title; edit := edits; diagnostics := fixesDiagnostics |})).
End QuickFix.

(** Two ranges share a character. *)
Definition intersect (r1 r2 : Range) : bool :=
  (Namespace.range_start r1 <? Namespace.range_end r2)%nat &&
  (Namespace.range_start r2 <? Namespace.range_end r1)%nat.

(** No two edits of the list have intersecting ranges. *)
Fixpoint nonOverlapping (es : list TextEdit) : bool :=
  match es with
  | [] => true
  | e :: rest =>
      forallb (fun e' => negb (intersect (edit_range e) (edit_range e'))) rest &&
      nonOverlapping rest
  end.

(** A cursor that stands on a nonterminal and was spawned at one. *)
Definition onNonterminal (c : Cursor) : Prop :=
  isTerminal (node c) = false /\ isTerminal (item_node (root c)) = false.

(** An edit that rewrites an identifier to its field of the namespace. *)
Definition isRewrite (e : TextEdit) : Prop :=
  exists identifier, newText e = "$." ++ identifier.
End Quickfixes.

(* ================================================================== *)
(** ** The code actions of server.ts *)

Module CodeActions.
Import Namespace Server Diagnostics Quickfixes.

(** [getQuickFixReplacement] *)
Definition getQuickFixReplacement (fixesDiagnostics : list Diagnostic)
           (title : string) (range : Range) (replacement : string) : CodeAction :=
  {| title := title;
     edit := [ {| edit_range := range; newText := replacement |} ];
     diagnostics := fixesDiagnostics |}.

(** [String(diagnostic.data.replacement)]: reading a property of
    [undefined] throws; a missing property reads as [undefined]. *)
Definition dataReplacement (d : Data) : Result string :=
  match d with
  | DataUndefined => Throw "TypeError"
  | DataReplacement r => Ok r
  | DataContract _ => Ok "undefined"
  end.

Section Request.
Variable language : Slang.NonterminalKind -> string -> Slang.ParseOutput.
(** [await getNamespacePrefix(textDocument)] *)
Variable namespacePrefix : string.
(** [textDocument.getText()] *)
Variable documentText : string.

(** The body of the loop of [getCodeActions] for one diagnostic: the code
    actions with what it pushed, or the exception it threw. *)
Definition codeActionsFor (diagnostics : list Diagnostic) (diagnostic : Diagnostic)
           (codeActions : list CodeAction) : Result (list CodeAction) :=
  let simple title :=
    bind (dataReplacement (data diagnostic)) (fun replacement =>
      Ok (codeActions ++
          [getQuickFixReplacement [diagnostic] title (range diagnostic) replacement])%list) in
  if String.eqb (code diagnostic) NAMESPACE_ID_MISMATCH then
    simple "Replace namespace id"
  else if String.eqb (code diagnostic) NAMESPACE_ID_MISMATCH_HASH_COMMENT then
    simple "Replace namespace comment"
  else if String.eqb (code diagnostic) NAMESPACE_HASH_MISMATCH then
    simple "Recalculate hash using comment"
  else if String.eqb (code diagnostic) NAMESPACE_STANDALONE_HASH_MISMATCH then
    simple "Recalculate hash using expected id"
  else if String.eqb (code diagnostic) CONTRACT_CAN_BE_NAMESPACED then
    match data diagnostic with
    | DataContract c =>
        bind (getMoveAllVariablesToNamespaceQuickFix language diagnostics
                "Move all variables to namespace" namespacePrefix
                (nc_name c) (nc_variables c) documentText)
             (fun quickfix =>
                match quickfix with
                | Some q => Ok (codeActions ++ [q])%list
                | None => Ok codeActions
                end)
    | DataUndefined => Throw "TypeError"
    | DataReplacement _ => Throw "TypeError"
    end
  else Ok codeActions.

(** The [for] loop of [getCodeActions] inside its [try]: it runs until
    the end or until a body throws, and [codeActions] keeps what was
    pushed before. *)
Fixpoint tryLoop (diagnostics : list Diagnostic) (todo : list Diagnostic)
         (codeActions : list CodeAction) : list CodeAction * option string :=
  match todo with
  | [] => (codeActions, None)
  | diagnostic :: todo' =>
      match codeActionsFor diagnostics diagnostic codeActions with
      | Ok codeActions' => tryLoop diagnostics todo' codeActions'
      | Throw e => (codeActions, Some e)
      end
  end.

(** [getCodeActions]: the exception is logged and the code actions
    pushed so far are returned. *)
Definition getCodeActions (diagnostics : list Diagnostic) : list CodeAction :=
  fst (tryLoop diagnostics diagnostics []).
End Request.
End CodeActions.

(* ================================================================== *)
(** ** Notions the properties are stated with *)

Module Spec.
Import Slang Helpers Namespace Server Diagnostics.

(** A lowercase hexadecimal digit. *)
Definition isLowerHex (c : ascii) : bool :=
  let n := Z.of_N (N_of_ascii c) in
  ((48 <=? n) && (n <=? 57) || (97 <=? n) && (n <=? 102))%Z.

Fixpoint allChars (p : ascii -> bool) (s : string) : bool :=
  match s with
  | EmptyString => true
  | String c s' => p c && allChars p s'
  end.

Fixpoint be_bytes (fuel : nat) (n : Z) (acc : list byte) : list byte :=
  match fuel with
  | O => acc
  | S fuel' =>
      if (n =? 0)%Z then acc
      else be_bytes fuel' (n / 256)%Z (Keccak.byte_of_Z (n mod 256) :: acc)
  end.

(** The minimal unsigned big-endian encoding of a natural number: its
    bytes, most significant first, without leading zero bytes. *)
Definition minimalBigEndian (n : Z) : list byte :=
  be_bytes (Z.to_nat (Z.log2 n + 1)) n [].

(** The slot of the specification: the second hash is taken of the minimal
    big-endian encoding of the first hash minus one. *)
Definition storageLocationOfMinimalEncoding (id : string) : string :=
  "0x" ++
  JS.padStart
    (JS.BigInt_toString16
       (Z.land (JS.BigInt_of_hex
                  (JS.Buffer_toString_hex
                     (Keccak.keccak256 (minimalBigEndian (minusOne id)))))
               (Z.lnot 255)))
    64 "0".

(** Some type of the inheritance list of the contract has the identifier
    [name] among the identifiers of its path: [name] itself, or a
    qualified name such as [lib.name] or [name.Inner]. *)
Definition inheritsIdentifier (name : string) (contractDef : Node) : Prop :=
  exists inh ty item,
    ContractDefinition.inheritance contractDef = Some inh /\
    In ty (ContractDefinition.types_items inh) /\
    In item (ContractDefinition.typeName_items ty) /\
    text item = name.

(** The contract declares a function named [_authorizeUpgrade] with
    exactly one parameter, whose type unparses to [address]. *)
Definition declaresAuthorizeUpgrade (contractNode : Node) : Prop :=
  exists f p,
    In f (descendants contractNode) /\
    hasNonterminalKind FunctionDefinition f = true /\
    FunctionDefinition.name_variant_text f = "_authorizeUpgrade" /\
    FunctionDefinition.parameters_items f = [p] /\
    FunctionDefinition.typeName_unparse p = "address".
End Spec.

(* ================================================================== *)
(** ** Two documents to run the analysis and the quick fixes on *)

Module Examples.
Import Slang Helpers Namespace Server Diagnostics Quickfixes CodeActions.

Definition T := TerminalNode.
Definition N := NonterminalNode.
Definition sp : Node := T Whitespace " ".
Definition ind : Node := T Whitespace "    ".
Definition ind2 : Node := T Whitespace "        ".
Definition eol : Node := T EndOfLine nl.
Definition ident : string -> Node := T Identifier.
Definition tok : string -> Node := T OtherTerminal.

(** A language that knows the trees of a few texts and reports any other
    text as invalid. *)
Definition languageOf (known : list Node) : Language :=
  fun kind text =>
    match find (fun n => hasNonterminalKind kind n && String.eqb (unparse n) text) known with
    | Some n => {| tree := n; isValid := true |}
    | None => {| tree := N kind []; isValid := false |}
    end.

Definition noComment : Cursor -> list TerminalKind -> option Trivia := fun _ _ => None.

(** A state variable definition, with the trivia before and after it. *)
Definition stateVariable (lead : list Node) (ty : string) (attributes : list Node)
           (name : string) (value : list Node) (trail : list Node) : Node :=
  N StateVariableDefinition
    ([N TypeName (lead ++ [tok ty])] ++
     match attributes with
     | [] => []
     | _ => [N StateVariableAttributes
               (map (fun a => N StateVariableAttribute [sp; a]) attributes)]
     end ++
     [sp; ident name] ++ value ++ [T Semicolon ";"] ++ trail).

Definition contract (name : string) (inheritance : list Node) (members : list Node) : Node :=
  N ContractDefinition
    ([T ContractKeyword "contract"; sp; ident name] ++ inheritance ++
     [sp; T OpenBrace "{"; eol; N ContractMembers members; T CloseBrace "}"; eol]).

(** contract Foo { uint256 x; } *)
Definition contractFoo : Node :=
  contract "Foo" [] [stateVariable [ind] "uint256" [] "x" [] [eol]].
Definition documentFoo : Node := N SourceUnit [contractFoo].
Definition languageFoo : Language :=
  languageOf [documentFoo; contractFoo; stateVariable [] "uint256" [] "x" [] []].

(** contract Bar is Initializable, with a namespace struct, a storage
    location constant, two plain variables and a function. *)
Definition structBar : Node :=
  N StructDefinition
    [ ind; T SingleLineNatSpecComment "/// @custom:storage-location erc7201:myapp.Bar"; eol;
      ind; T StructKeyword "struct"; sp; ident "BarStorage"; sp; T OpenBrace "{"; eol;
      N OtherNonterminal
        [N OtherNonterminal [N TypeName [ind2; tok "uint256"]; sp; ident "a";
                             T Semicolon ";"; eol]];
      ind; T CloseBrace "}"; eol ].

Definition locationValue : list Node :=
  [N StateVariableDefinitionValue [sp; T Equal "="; N Expression [sp; tok "0x00"]]].

Definition locationAttributes : list Node :=
  [T PrivateKeyword "private"; T ConstantKeyword "constant"].

Definition functionGet : Node :=
  N FunctionDefinition
    [ ind; T FunctionKeyword "function";
      N FunctionName [sp; ident "get"];
      N ParametersDeclaration [T OpenParen "("; T CloseParen ")"];
      N OtherNonterminal [sp; tok "public"; sp; tok "view"];
      N OtherNonterminal [sp; tok "returns"; sp; T OpenParen "(";
                          N TypeName [tok "uint256"]; T CloseParen ")"];
      N FunctionBody
        [N Block
           [ sp; T OpenBrace "{"; eol;
             N OtherNonterminal
               [ N OtherNonterminal
                   [ ind2; ident "BarStorage"; sp; tok "storage"; sp; ident "$"; sp;
                     T Equal "="; sp;
                     N Expression [ident "_getBarStorage"; T OpenParen "("; T CloseParen ")"];
                     T Semicolon ";"; eol ];
                 N OtherNonterminal
                   [ ind2; tok "return"; sp;
                     N Expression
                       [ N Expression [ident "b"]; sp; tok "+"; sp;
                         N Expression [N Expression [ident "$"]; T Period "."; ident "a"] ];
                     T Semicolon ";"; eol ] ];
             ind; T CloseBrace "}"; eol ]] ].

Definition inheritsInitializable : list Node :=
  [N InheritanceSpecifier
     [sp; T IsKeyword "is";
      N InheritanceTypes
        [N InheritanceType [N IdentifierPath [sp; ident "Initializable"]]]]].

Definition contractBar : Node :=
  contract "Bar" inheritsInitializable
    [ structBar;
      stateVariable [ind] "bytes32" locationAttributes "BarStorageLocation" locationValue [eol];
      stateVariable [ind] "uint256" [] "b" [] [eol];
      stateVariable [ind] "uint256" [] "c" [] [eol];
      functionGet ].
Definition documentBar : Node := N SourceUnit [contractBar].
Definition languageBar : Language :=
  languageOf
    [ documentBar; contractBar;
      stateVariable [] "bytes32" locationAttributes "BarStorageLocation" locationValue [];
      stateVariable [] "uint256" [] "b" [] [];
      stateVariable [] "uint256" [] "c" [] [] ].
Definition cursorBar : Cursor :=
  snd (goToNextNonterminalWithKind ContractDefinition (createTreeCursor documentBar)).

(** The diagnostics of the analysis of the document of Bar, with the
    namespace prefix [myapp]. *)
Definition diagnosticsBar : list Diagnostic :=
  validateNamespaces languageBar languageBar "myapp" false noComment documentBar [].

Definition variablesBar : list Variable_ := eligibleVariables languageBar false cursorBar.

(** The cursor of the analysis on the storage location constant of Bar. *)
Definition locationCursorBar : Cursor :=
  snd (goToNextNonterminalWithKind StateVariableDefinition (spawn cursorBar)).

(** The cursor of the quick fix on the function of Bar. *)
Definition functionCursorBar : Cursor :=
  snd (goToNextNonterminalWithKinds [ConstructorDefinition; FunctionDefinition]
         (spawn cursorBar)).

(** A hash mismatch diagnostic as the analysis publishes it, and the same
    diagnostic as a client without support for [data] sends it back. *)
Definition mismatchDiagnostic : Diagnostic :=
  {| severity := Warning;
     range := {| range_start := 182; range_end := 186 |};
     message := "ERC7201 storage location hash does not match expected namespace id";
     source := "OpenZeppelin Language Server";
     code := NAMESPACE_STANDALONE_HASH_MISMATCH;
     data := DataReplacement (calculateERC7201StorageLocation "myapp.Bar");
     relatedInformation := None |}.

Definition strippedDiagnostic : Diagnostic :=
  {| severity := Warning;
     range := {| range_start := 182; range_end := 186 |};
     message := "ERC7201 storage location hash does not match expected namespace id";
     source := "OpenZeppelin Language Server";
     code := NAMESPACE_STANDALONE_HASH_MISMATCH;
     data := DataUndefined;
     relatedInformation := None |}.

(** [getCodeActions] on the document of Bar. *)
Definition codeActionsBar : list Diagnostic -> list CodeAction :=
  getCodeActions languageBar "myapp" (unparse documentBar).
End Examples.

(* ================================================================== *)
(** * settings.ts *)
Module Settings.
Import Slang Helpers Namespace Server Diagnostics Quickfixes CodeActions Spec.
Import JS.
Local Open Scope string_scope.
Local Open Scope list_scope.

Record OpenZeppelinLSSettings := {
  compilerVersion : option string;
  namespacePrefix : option string
}.

(** A string that is neither undefined nor empty. *)
Definition truthy (s : option string) : bool :=
  match s with
  | Some EmptyString => false
  | Some _ => true
  | None => false
  end.

(** [s.split(sep)] for a separator of one character; [cur] is the piece
    being read. *)
Fixpoint split_on (sep : ascii) (s cur : string) : list string :=
  match s with
  | EmptyString => [cur]
  | String c s' =>
      if Ascii.eqb c sep then cur :: split_on sep s' ""
      else split_on sep s' (cur ++ String c "")
  end.

Definition split (s : string) (sep : ascii) : list string := split_on sep s "".

(** [arr.pop()] on the array [split] returns, which is never empty. *)
Definition pop (l : list string) : string := last l "".

(** [s.replace(/\s+/g, '-')]: every maximal run of white space becomes one
    dash; [in_ws] tells that the character before was white space. *)
Fixpoint replace_ws (s : string) (in_ws : bool) : string :=
  match s with
  | EmptyString => ""
  | String c s' =>
      if is_space c then
        if in_ws then replace_ws s' true else String "-" (replace_ws s' true)
      else String c (replace_ws s' false)
  end.

(** [getNamespacePrefix], on the settings [getDocumentSettings] resolves to
    and the workspace folders of the server. *)
Definition getNamespacePrefix (settings : OpenZeppelinLSSettings)
           (workspaceFolders : list string) : string :=
  let namespacePrefix0 := namespacePrefix settings in
  let namespacePrefix1 :=
    if negb (truthy namespacePrefix0) then
      match workspaceFolders with
      | folder :: _ =>
          let folderName := pop (split folder "/") in
          Some (replace_ws folderName false)
      | [] => namespacePrefix0
      end
    else namespacePrefix0 in
  match namespacePrefix1 with
  | Some p => p
  | None => ""
  end.
End Settings.

(** * The settings of the documents (server.ts) *)
Module Configuration.
Import Slang Helpers Namespace Server Diagnostics Quickfixes CodeActions Spec.
Import Settings.
Local Open Scope string_scope.
Local Open Scope list_scope.

(** The [Map] of the cached settings, in the order of insertion. *)
Definition SettingsMap := list (string * OpenZeppelinLSSettings).

Definition Map_get (m : SettingsMap) (k : string) : option OpenZeppelinLSSettings :=
  match find (fun e => String.eqb (fst e) k) m with
  | Some e => Some (snd e)
  | None => None
  end.

Definition Map_has (m : SettingsMap) (k : string) : bool :=
  existsb (fun e => String.eqb (fst e) k) m.

Definition Map_set (m : SettingsMap) (k : string) (v : OpenZeppelinLSSettings)
  : SettingsMap :=
  if Map_has m k
  then map (fun e => if String.eqb (fst e) k then (k, v) else e) m
  else m ++ [(k, v)].

Definition Map_delete (m : SettingsMap) (k : string) : SettingsMap :=
  filter (fun e => negb (String.eqb (fst e) k)) m.

(** The variables of the server the settings depend on. *)
Record State := {
  hasConfigurationCapability : bool;
  globalSettings : OpenZeppelinLSSettings;
  documentSettings : SettingsMap
}.

(** The object has a property [solidityVersion], which nothing reads, and
    no [compilerVersion]. *)
Definition defaultSettings : OpenZeppelinLSSettings :=
  {| compilerVersion := None; namespacePrefix := Some "" |}.

(** [connection.onDidChangeConfiguration]; [openzeppelinLS] is
    [change.settings.openzeppelinLS], if it is there. *)
Definition onDidChangeConfiguration (openzeppelinLS : option OpenZeppelinLSSettings)
           (st : State) : State :=
  if hasConfigurationCapability st then
    {| hasConfigurationCapability := hasConfigurationCapability st;
       globalSettings := globalSettings st;
       documentSettings := [] |}
  else
    {| hasConfigurationCapability := hasConfigurationCapability st;
       globalSettings := match openzeppelinLS with
                         | Some s => s
                         | None => defaultSettings
                         end;
       documentSettings := documentSettings st |}.

(** [getDocumentSettings]; [answer] is what the client answers to
    [connection.workspace.getConfiguration] at this moment. *)
Definition getDocumentSettings (resource : string) (answer : OpenZeppelinLSSettings)
           (st : State) : OpenZeppelinLSSettings * State :=
  if negb (hasConfigurationCapability st) then (globalSettings st, st)
  else
    match Map_get (documentSettings st) resource with
    | Some result => (result, st)
    | None =>
        (answer,
         {| hasConfigurationCapability := hasConfigurationCapability st;
            globalSettings := globalSettings st;
            documentSettings := Map_set (documentSettings st) resource answer |})
    end.

(** [documents.onDidClose] *)
Definition onDidClose (uri : string) (st : State) : State :=
  {| hasConfigurationCapability := hasConfigurationCapability st;
     globalSettings := globalSettings st;
     documentSettings := Map_delete (documentSettings st) uri |}.

(** What happens to the settings while the server runs. *)
Inductive Event :=
| DidChangeConfiguration (openzeppelinLS : option OpenZeppelinLSSettings)
| DidClose (uri : string)
| Request (resource : string) (answer : OpenZeppelinLSSettings).

Definition step (st : State) (ev : Event) : State :=
  match ev with
  | DidChangeConfiguration s => onDidChangeConfiguration s st
  | DidClose uri => onDidClose uri st
  | Request resource answer => snd (getDocumentSettings resource answer st)
  end.

Definition run (evs : list Event) (st : State) : State := fold_left step evs st.

(** The events that drop the cached settings of a resource. *)
Definition resets (resource : string) (ev : Event) : bool :=
  match ev with
  | DidChangeConfiguration _ => true
  | DidClose uri => String.eqb uri resource
  | Request _ _ => false
  end.
End Configuration.

(** * solidityVersion.ts *)
Module SolidityVersion.
Import Slang Helpers Namespace Server Diagnostics Quickfixes CodeActions Spec.
Import JS Settings.
Local Open Scope string_scope.
Local Open Scope list_scope.

Definition is_quote (c : ascii) : bool :=
  let n := N_of_ascii c in (N.eqb n 34 || N.eqb n 39)%bool.

(** The end of both patterns: a quote, a greedy group of one or more
    characters other than quotes, and a quote; the result is the group. *)
Definition quoted (s : string) : option string :=
  match s with
  | String c s' =>
      if is_quote c then
        nonempty (greedy (fun c => negb (is_quote c))
                    (fun r => match r with
                              | String c _ => is_quote c
                              | EmptyString => false
                              end) s')
      else None
  | EmptyString => None
  end.

(** [configFile.match(regex)[1]] for the pattern of foundry.toml: [solc],
    [=] with any white space around it, and the quoted version. *)
Definition match_foundry (configFile : string) : option string :=
  search "solc"
    (fun s => andThen (lit "=" (trimStart s)) (fun s => quoted (trimStart s)))
    configFile.

(** The pattern of the Hardhat configuration: [solidity:], an opening
    brace, [version:] and the quoted version, with any white space between
    them. *)
Definition match_hardhat (configFile : string) : option string :=
  search "solidity:"
    (fun s => andThen (lit "{" (trimStart s)) (fun s =>
              andThen (lit "version:" (trimStart s)) (fun s =>
              quoted (trimStart s))))
    configFile.

Section Inference.
(** [path.join] *)
Variable path_join : string -> string -> string.
(** Whether [fs.access] resolves. *)
Variable fs_access : string -> bool.
(** [fs.readFile(path, 'utf8')] *)
Variable fs_readFile : string -> Result string.
(** [getHighestSupportedPragmaVersion] of the document. *)
Variable versionFromPragma : option string.
(** [Language.supportedVersions()] *)
Variable supportedVersions : list string.

(** [exists] *)
Definition exists_ (file : string) : bool := fs_access file.

(** [inferVersionFromConfig] *)
Definition inferVersionFromConfig (filePath : string)
           (regex : string -> option string) : Result (option string) :=
  if exists_ filePath then
    bind (fs_readFile filePath) (fun configFile =>
      let solidityVersion := regex configFile in
      if truthy solidityVersion then Ok solidityVersion else Ok None)
  else Ok None.

(** [inferSolidityVersionFromFoundry] *)
Fixpoint inferSolidityVersionFromFoundry (workspaceFolders : list string)
  : Result (option string) :=
  match workspaceFolders with
  | [] => Ok None
  | workspaceFolder :: rest =>
      let foundryConfigPath := path_join workspaceFolder "foundry.toml" in
      bind (inferVersionFromConfig foundryConfigPath match_foundry) (fun version =>
        if truthy version then Ok version
        else inferSolidityVersionFromFoundry rest)
  end.

(** [inferSolidityVersionFromHardhat] *)
Fixpoint inferSolidityVersionFromHardhat (workspaceFolders : list string)
  : Result (option string) :=
  match workspaceFolders with
  | [] => Ok None
  | workspaceFolder :: rest =>
      let hardhatConfigTsPath := path_join workspaceFolder "hardhat.config.ts" in
      bind (inferVersionFromConfig hardhatConfigTsPath match_hardhat) (fun versionTs =>
        if truthy versionTs then Ok versionTs
        else
          let hardhatConfigJsPath := path_join workspaceFolder "hardhat.config.js" in
          bind (inferVersionFromConfig hardhatConfigJsPath match_hardhat) (fun versionJs =>
            if truthy versionJs then Ok versionJs
            else inferSolidityVersionFromHardhat rest))
  end.

(** [inferSolidityVersion], on the settings of the document; the result is
    undefined when the list of supported versions is empty. *)
Definition inferSolidityVersion (settings : OpenZeppelinLSSettings)
           (workspaceFolders : list string) : Result (option string) :=
  let versionFromSetting := compilerVersion settings in
  if truthy versionFromSetting &&
     match versionFromSetting with
     | Some v => (0 <? String.length (trim v))%nat
     | None => false
     end
  then Ok versionFromSetting
  else
    bind (inferSolidityVersionFromFoundry workspaceFolders) (fun versionFromFoundry =>
      if truthy versionFromFoundry then Ok versionFromFoundry
      else
        bind (inferSolidityVersionFromHardhat workspaceFolders) (fun versionFromHardhat =>
          if truthy versionFromHardhat then Ok versionFromHardhat
          else if truthy versionFromPragma then Ok versionFromPragma
          else Ok (nth_error supportedVersions (List.length supportedVersions - 1))))%nat.
End Inference.
End SolidityVersion.

(* ================================================================== *)
(** * Notions of the further properties *)

Module Digits.
Import Slang Helpers Namespace Server Diagnostics Quickfixes CodeActions Spec.
Local Open Scope string_scope.
Local Open Scope list_scope.
Local Open Scope Z_scope.
(** The [m] low hexadecimal digits of a number, most significant first, before [acc]. *)
Fixpoint hexfix (m : nat) (n : Z) (acc : string) : string :=
  match m with
  | O => acc
  | S m' => hexfix m' (n / 16) (String (JS.hexdigit (n mod 16)) acc)
  end.

(** The [k] low bytes of a number, most significant first, before [acc]. *)
Fixpoint befix (k : nat) (n : Z) (acc : list byte) : list byte :=
  match k with
  | O => acc
  | S k' => befix k' (n / 256) (Keccak.byte_of_Z (n mod 256) :: acc)
  end.

(** The number of hexadecimal digits of a positive number. *)
Definition hexlen (n : Z) : nat := Z.to_nat (Z.log2 n / 4 + 1).
End Digits.

Module Chars.
Import Slang Helpers Namespace Server Diagnostics Quickfixes CodeActions Spec.
Local Open Scope string_scope.
Local Open Scope list_scope.
(** No character of the string is white space. *)
Definition noSpace (s : string) : bool := allChars (fun c => negb (JS.is_space c)) s.
(** No character of the string is a dot. *)
Definition noDot (s : string) : bool := allChars (fun c => negb (Ascii.eqb c ".")) s.
(** No character of the string ends a line. *)
Definition oneLine (s : string) : bool := allChars (fun c => negb (JS.is_line_terminator c)) s.
End Chars.

Module Wire.
Import Slang Helpers Namespace Server Diagnostics Quickfixes CodeActions Spec Chars.
Local Open Scope string_scope.
Local Open Scope list_scope.
(** The codes whose quick fix replaces the range of the diagnostic. *)
Definition isReplacementCode (c : string) : bool :=
  String.eqb c NAMESPACE_ID_MISMATCH ||
  String.eqb c NAMESPACE_ID_MISMATCH_HASH_COMMENT ||
  String.eqb c NAMESPACE_HASH_MISMATCH ||
  String.eqb c NAMESPACE_STANDALONE_HASH_MISMATCH.

(** The data of the diagnostic are those its code promises to the quick
    fixes: a replacement, a contract with at least one variable, or none. *)
Definition fitsItsCode (d : Diagnostic) : bool :=
  if isReplacementCode (code d) then
    match data d with DataReplacement _ => true | _ => false end
  else if String.eqb (code d) CONTRACT_CAN_BE_NAMESPACED then
    match data d with
    | DataContract c => (0 <? List.length (nc_variables c))%nat
    | _ => false
    end
  else if isVariableDiagnostic d then
    match data d with DataUndefined => true | _ => false end
  else false.

(** The edit of the quick fix of a diagnostic with a replacement code. *)
Definition replacementFixes (d : Diagnostic) : list (list TextEdit) :=
  if isReplacementCode (code d) then
    match data d with
    | DataReplacement r => [[ {| edit_range := range d; newText := r |} ]]
    | _ => []
    end
  else [].

(** The comment [checkComment] proposes for a namespace id. *)
Definition formulaComment (id : string) : string :=
  "// keccak256(abi.encode(uint256(keccak256(" ++ JS.dquote ++ id ++ JS.dquote ++
  ")) - 1)) & ~bytes32(uint256(0xff))".

(** What a step adds does not depend on the diagnostics before it. *)
Definition independent (f : list Diagnostic -> list Diagnostic) : Prop :=
  forall ds, f ds = ds ++ f [].
End Wire.

Module Fixes.
Import Slang Helpers Namespace Server Diagnostics Quickfixes CodeActions Spec Chars Wire.
Local Open Scope string_scope.
Local Open Scope list_scope.
(** The two edits of [editExistingNamespace] for one variable. *)
Definition moveIntoStruct (structEndRange : TextRange) (variable : Variable_)
  : list TextEdit :=
  [ {| edit_range := Namespace.range variable; newText := "" |};
    {| edit_range := slangToVSCodeRange structEndRange;
       newText := indent ++ content variable ++ nl ++ indent ++ "}" |} ].

(** The edit of [replaceVariables] for one identifier. *)
Definition rewriteOf (identifierCursor : Cursor) : TextEdit :=
  {| edit_range := slangToVSCodeRange (textRange identifierCursor);
     newText := "$." ++ text (node identifierCursor) |}.

(** The identifier is the name of one of the variables. *)
Definition namesVariable (variables : list Variable_) (identifierCursor : Cursor) : bool :=
  isNamespaced variables (text (node identifierCursor)).
End Fixes.

Module Scope.
Import Slang Helpers Namespace Server Diagnostics Quickfixes CodeActions Spec Chars Wire Fixes.
Local Open Scope string_scope.
Local Open Scope list_scope.
(** The range of an item lies in the range of another. *)
Definition inScope (rt it : Item) : Prop :=
  (text_start (item_range rt) <= text_start (item_range it))%nat /\
  (text_end (item_range it) <= text_end (item_range rt))%nat.

(** The root of a cursor and all the items it can stand on satisfy [Q]. *)
Definition everyItem (Q : Item -> Prop) (c : Cursor) : Prop :=
  Q (root c) /\ Q (current c) /\ Forall Q (before c) /\ Forall Q (after c).

(** The test of the two loops of [getTrimmedRange]. *)
Definition isToken (n : Node) : bool := isTerminal n && negb (isTrivia n).

(** Items in the order of their offsets. *)
Definition offsetLe (a b : Item) : Prop := (item_offset a <= item_offset b)%nat.

Fixpoint ascending (l : list Item) : Prop :=
  match l with
  | [] => True
  | x :: l' => Forall (offsetLe x) l' /\ ascending l'
  end.

(** A state variable the move into a namespace takes: not constant, not
    immutable, without initializer. *)
Definition isPlain (variableLanguage : Language) (childCursor : Cursor) : bool :=
  negb (declaredImmutableOrConstant variableLanguage childCursor) &&
  match StateVariableDefinition.value (reparsed variableLanguage childCursor) with
  | None => true
  | Some _ => false
  end.

(** The entry of a plain state variable in the list of the contract. *)
Definition entryOf (variableLanguage : Language) (childCursor : Cursor) : Variable_ :=
  let stateVar := reparsed variableLanguage childCursor in
  {| content := snd (scanAttributes stateVar (JS.trim (unparse (node childCursor))));
     name := StateVariableDefinition.name_text stateVar;
     Namespace.range := slangToVSCodeRange (getTrimmedRange childCursor) |}.
End Scope.

(** Properties of strings and of runs used below. *)
Module Paths.
Import Slang Helpers Namespace Server Diagnostics Quickfixes CodeActions Spec.
Local Open Scope string_scope.
Local Open Scope list_scope.
(** No slash in the string. *)
Definition noSlash (s : string) : bool := allChars (fun c => negb (Ascii.eqb c "/")) s.

(** No quote in the string. *)
Definition noQuote (s : string) : bool :=
  allChars (fun c => negb (SolidityVersion.is_quote c)) s.

(** No version in the settings: none, or nothing but white space. *)
Definition unset (version : option string) : bool :=
  match version with
  | Some v => (String.length (JS.trim v) =? 0)%nat
  | None => true
  end.

(** Every file that is there can be read. *)
Definition readable (fs_access : string -> bool) (fs_readFile : string -> Result string)
  : Prop :=
  forall file, fs_access file = true -> exists text, fs_readFile file = Ok text.
End Paths.

(** * More documents and a workspace *)
Module Workspace.
Import Slang Helpers Namespace Server Diagnostics Quickfixes CodeActions Spec Examples.
Import Settings Configuration SolidityVersion.
Local Open Scope string_scope.
Local Open Scope list_scope.

(** Bar with the hash of its namespace id as the value of the storage
    location constant, and the formula comment before the constant. *)
Definition hashBar : string := calculateERC7201StorageLocation "myapp.Bar".

Definition contractBarFixed : Node :=
  contract "Bar" inheritsInitializable
    [ structBar;
      stateVariable [ind] "bytes32" locationAttributes "BarStorageLocation"
        [N StateVariableDefinitionValue [sp; T Equal "="; N Expression [sp; tok hashBar]]]
        [eol];
      functionGet ].

Definition cursorBarFixed : Cursor :=
  snd (goToNextNonterminalWithKind ContractDefinition
         (createTreeCursor (N SourceUnit [contractBarFixed]))).

Definition locationCursorBarFixed : Cursor :=
  snd (goToNextNonterminalWithKind StateVariableDefinition (spawn cursorBarFixed)).

Definition formulaCommentBar : Cursor -> list TerminalKind -> option Trivia :=
  fun _ _ =>
    Some {| trivia_kind := SingleLineComment;
            trivia_text :=
              ("// keccak256(abi.encode(uint256(keccak256(" ++ JS.dquote ++ "myapp.Bar" ++
               JS.dquote ++ ")) - 1)) & ~bytes32(uint256(0xff))")%string;
            trivia_range := {| text_start := 135; text_end := 226 |} |}.

(** A diagnostic of the analysis of Bar with a replacement. *)
Definition idMismatchDiagnostic : Diagnostic :=
  {| severity := Warning;
     range := {| range_start := 36; range_end := 82 |};
     message := "Unexpected namespace id";
     source := "OpenZeppelin Language Server";
     code := NAMESPACE_ID_MISMATCH;
     data := DataReplacement "/// @custom:storage-location erc7201:myapp.Bar";
     relatedInformation := None |}.

(** The two plain variables of Bar, as the contract diagnostic carries
    them. *)
Definition variableB : Variable_ :=
  {| content := "uint256 b;"; name := "b";
     Namespace.range := {| range_start := 192; range_end := 202 |} |}.

Definition variableC : Variable_ :=
  {| content := "uint256 c;"; name := "c";
     Namespace.range := {| range_start := 207; range_end := 217 |} |}.

(** The settings of a client that sets nothing, and of one that sets a
    compiler version. *)
Definition noSettings : OpenZeppelinLSSettings :=
  {| compilerVersion := None; namespacePrefix := None |}.

Definition pinnedSettings : OpenZeppelinLSSettings :=
  {| compilerVersion := Some "0.8.20"; namespacePrefix := Some "myapp" |}.

Definition initialState : State :=
  {| hasConfigurationCapability := true;
     globalSettings := defaultSettings;
     documentSettings := [] |}.

(** A workspace with a Foundry configuration, and one whose files cannot
    be read. *)
Definition join : string -> string -> string :=
  fun folder file => (folder ++ "/" ++ file)%string.

Definition foundryAccess : string -> bool := fun file => String.eqb file "/ws/foundry.toml".

Definition foundryRead : string -> Result string :=
  fun _ =>
    Ok ("[profile.default]" ++ nl ++ "src = 'src'" ++ nl ++ "solc = '0.8.24'" ++ nl)%string.

Definition lockedAccess : string -> bool := fun _ => true.

Definition lockedRead : string -> Result string := fun _ => Throw "EACCES".
End Workspace.

(** * The rules that read the NatSpec comment, with the helper of the source *)
Module Failing.
Import Slang Helpers Namespace Server Diagnostics Quickfixes CodeActions Spec.
Local Open Scope string_scope.
Local Open Scope list_scope.

(** [inferUpgradeable].  [getNatSpec] returns the text of the comment, a
    string, that has no property [text]: when there is a NatSpec comment,
    [getNatSpec(cursor)?.text] is undefined and its [split] throws; when
    there is none, [natSpecTokens] is undefined. *)
Definition inferUpgradeable (cursor : Cursor) (contractDef : Node) : Result bool :=
  let hasInitializable := inheritsNamed "Initializable" contractDef in
  let hasUUPSUpgradeable := inheritsNamed "UUPSUpgradeable" contractDef in
  if truthy hasInitializable || truthy hasUUPSUpgradeable then Ok true
  else
    let functionCursor := spawn cursor in
    if forEachNext (hasNonterminalKind FunctionDefinition) functionCursor
         (fun fc found => found || isAuthorizeUpgrade (node fc)) false
    then Ok true
    else
      match getNatSpec cursor with
      | Some natSpec => Throw "TypeError"
      | None => Ok false
      end.

(** The body of the loop of [validateNamespaceStructAnnotation].  A string
    has no property [kind]: when there is a NatSpec comment the assertion
    on [natSpec.kind] fails, and what follows it is not reached. *)
Definition validateStruct (contractDef : Node) (structCursor : Cursor)
           (diagnostics : list Diagnostic) : Result (list Diagnostic) :=
  match getNatSpec structCursor with
  | Some natSpec => Throw "AssertionError"
  | None => Ok diagnostics
  end.

(** The cursors of the loop of [validateNamespaceStructAnnotation]. *)
Definition structCursors (cursor : Cursor) : list Cursor :=
  cursorsNext (hasNonterminalKind StructDefinition) (spawn cursor).

(** [validateNamespaceStructAnnotation] *)
Definition validateNamespaceStructAnnotation (cursor : Cursor) (contractDef : Node)
           (diagnostics : list Diagnostic) : Result (list Diagnostic) :=
  forEachNext (hasNonterminalKind StructDefinition) (spawn cursor)
    (fun structCursor st => bind st (validateStruct contractDef structCursor))
    (Ok diagnostics).

Section Pass.
Variable language : Language.
Variable variableLanguage : Language.
Variable namespacePrefix : string.
Variable hasDiagnosticRelatedInformationCapability : bool.
Variable getLastPrecedingTriviaWithKinds :
  Cursor -> list TerminalKind -> option Trivia.

(** The body of the loop of [validateNamespaces], for the contract the
    cursor stands on. *)
Definition validateContract (cursor : Cursor) (diagnostics : list Diagnostic)
  : Result (list Diagnostic) :=
  let cursorNode := node cursor in
  let contractDef := cursorNode in
  let parseContract := language ContractDefinition (unparse cursorNode) in
  if negb (isValid parseContract) then Ok diagnostics
  else
    let namespaceableContract :=
      {| nc_name := ContractDefinition.name_text contractDef; nc_variables := [] |} in
    bind (inferUpgradeable cursor contractDef) (fun inferredUpgradeable =>
    bind (if inferredUpgradeable : bool then
            bind (validateNamespaceStructAnnotation cursor contractDef diagnostics)
                 (fun diagnostics =>
                    Ok (Diagnostics.validateNamespaceCommentAndHash
                          namespacePrefix hasDiagnosticRelatedInformationCapability
                          getLastPrecedingTriviaWithKinds cursor contractDef diagnostics))
          else Ok diagnostics) (fun diagnostics =>
    let (diagnostics, namespaceableContract) :=
      Diagnostics.validateNamespaceableVariables
        variableLanguage hasDiagnosticRelatedInformationCapability
        cursor diagnostics namespaceableContract (negb inferredUpgradeable) in
    Ok (Diagnostics.validateNamespaceableContract
          hasDiagnosticRelatedInformationCapability
          cursor diagnostics namespaceableContract))).

(** [validateNamespaces], on the tree of the parse output: an error ends
    the pass. *)
Definition validateNamespaces (parseOutput : Node) (diagnostics : list Diagnostic)
  : Result (list Diagnostic) :=
  forEachNext (hasNonterminalKind ContractDefinition) (createTreeCursor parseOutput)
    (fun cursor st => bind st (validateContract cursor)) (Ok diagnostics).
End Pass.

(** The helper finds no NatSpec comment before the contract nor before any
    of its structs. *)
Definition withoutNatSpec (cursor : Cursor) : bool :=
  match getNatSpec cursor with
  | Some _ => false
  | None =>
      forallb (fun structCursor =>
                 match getNatSpec structCursor with Some _ => false | None => true end)
              (structCursors cursor)
  end.
End Failing.

(** * The conditions of the classifier as the specification words them *)
Module Claimed.
Import Slang Helpers Namespace Server Diagnostics Quickfixes CodeActions Spec.
Local Open Scope string_scope.
Local Open Scope list_scope.

(** Modelled from the spec: the direct inheritance list contains a type
    literally named [name]; the text of the name of the type, without the
    white space around it, is [name]. *)
Definition inheritsLiterally (name : string) (contractDef : Node) : bool :=
  match ContractDefinition.inheritance contractDef with
  | Some inh =>
      existsb (fun ty => String.eqb (JS.trim (optUnparse (childN IdentifierPath ty))) name)
              (ContractDefinition.types_items inh)
  | None => false
  end.

Fixpoint whileTrivia (terminals : list Node) : list Node :=
  match terminals with
  | [] => []
  | n :: rest => if isTrivia n then n :: whileTrivia rest else []
  end.

(** Modelled from the spec: the documentation comment of the contract, the
    NatSpec comments among the trivia the contract starts with. *)
Definition documentation (contractDef : Node) : list string :=
  map text
      (filter (fun n => match n with
                        | TerminalNode k _ => isNatSpecKind k
                        | NonterminalNode _ _ => false
                        end)
              (whileTrivia (filter isTerminal (descendants contractDef)))).

(** Modelled from the spec: the tokens of the documentation comment, split
    on white space, include [token]. *)
Definition documentationHasToken (token : string) (contractDef : Node) : bool :=
  existsb (fun comment => JS.array_includes (JS.split_ws comment) token)
          (documentation contractDef).
End Claimed.

(** * The edits of a quick fix applied to a text *)
Module Edits.
Import Slang Helpers Namespace Server Diagnostics Quickfixes CodeActions Spec.
Local Open Scope string_scope.
Local Open Scope list_scope.

(** Modelled from the spec: applying the edits of a quick fix, which the
    client of the language server does.  The ranges are offsets of the text
    before any edit; the edits are taken in the order of their starts, in
    the order of the list where the starts are equal; an edit that starts
    before the end of the one before it, or that is not within the text, is
    refused.  [base] is the offset of the first character of [text]. *)
Fixpoint insertEdit (e : TextEdit) (sorted : list TextEdit) : list TextEdit :=
  match sorted with
  | [] => [e]
  | x :: rest =>
      if (range_start (edit_range e) <=? range_start (edit_range x))%nat
      then e :: x :: rest
      else x :: insertEdit e rest
  end.

Definition sortEdits (edits : list TextEdit) : list TextEdit :=
  fold_right insertEdit [] edits.

Fixpoint applySorted (base : nat) (text : string) (pos : nat) (sorted : list TextEdit)
  : option string :=
  match sorted with
  | [] => Some (JS.drop (pos - base) text)
  | e :: rest =>
      let start := range_start (edit_range e) in
      let stop := range_end (edit_range e) in
      if ((pos <=? start) && (start <=? stop) &&
          (stop <=? base + String.length text))%nat
      then
        match applySorted base text stop rest with
        | Some tail =>
            Some (String.substring (pos - base) (start - pos) text ++ newText e ++ tail)%string
        | None => None
        end
      else None
  end.

Definition applyEdits (base : nat) (text : string) (edits : list TextEdit)
  : option string :=
  applySorted base text base (sortEdits edits).

(** The text [addStorageGetter] puts in the place of the opening brace. *)
Definition accessorText (contractName : string) : string :=
  ("{" ++ nl ++ indent ++ indent ++ expectedLine contractName ++ nl)%string.

(** One of the edits puts the accessor line after an opening brace. *)
Definition insertsAccessor (contractName : string) (edits : list TextEdit) : bool :=
  existsb (fun e => String.eqb (newText e) (accessorText contractName)) edits.
End Edits.

(** * More contracts *)
Module Contracts.
Import Slang Helpers Namespace Server Diagnostics Quickfixes CodeActions Spec Examples.
Local Open Scope string_scope.
Local Open Scope list_scope.

(** contract D is Initializable.Y { } *)
Definition contractD : Node :=
  contract "D"
    [N InheritanceSpecifier
       [sp; T IsKeyword "is";
        N InheritanceTypes
          [N InheritanceType
             [N IdentifierPath [sp; ident "Initializable"; T Period "."; ident "Y"]]]]]
    [].
Definition cursorD : Cursor :=
  snd (goToNextNonterminalWithKind ContractDefinition
         (createTreeCursor (N SourceUnit [contractD]))).

(** A contract with the annotation of the upgrades plugin, and nothing
    else that tells an upgradeable contract. *)
Definition contractE : Node :=
  N ContractDefinition
    [T SingleLineNatSpecComment "/// @custom:oz-upgrades"; eol;
     T ContractKeyword "contract"; sp; ident "E";
     sp; T OpenBrace "{"; eol;
     N ContractMembers [stateVariable [ind] "uint256" [] "x" [] [eol]];
     T CloseBrace "}"; eol].
Definition documentE : Node := N SourceUnit [contractE].
Definition languageE : Language :=
  languageOf [documentE; contractE; stateVariable [] "uint256" [] "x" [] []].
Definition cursorE : Cursor :=
  snd (goToNextNonterminalWithKind ContractDefinition (createTreeCursor documentE)).

(** contract Baz is Initializable: a storage location constant whose value
    is not written yet, under the comment with the formula of its id, and a
    second storage location constant, without a comment, whose value is not
    the hash. *)
Definition formulaBaz : string :=
  ("// keccak256(abi.encode(uint256(keccak256(" ++ JS.dquote ++ "myapp.Baz" ++ JS.dquote ++
   ")) - 1)) & ~bytes32(uint256(0xff))")%string.

Definition contractBaz : Node :=
  contract "Baz" inheritsInitializable
    [ stateVariable [ind; T SingleLineComment formulaBaz; eol; ind]
        "bytes32" locationAttributes "AStorageLocation" [] [eol];
      stateVariable [ind] "bytes32" locationAttributes "BStorageLocation" locationValue
        [eol] ].
Definition documentBaz : Node := N SourceUnit [contractBaz].
Definition languageBaz : Language :=
  languageOf
    [ documentBaz; contractBaz;
      stateVariable [T SingleLineComment formulaBaz; eol; ind]
        "bytes32" locationAttributes "AStorageLocation" [] [];
      stateVariable [] "bytes32" locationAttributes "BStorageLocation" locationValue [] ].
Definition cursorBaz : Cursor :=
  snd (goToNextNonterminalWithKind ContractDefinition (createTreeCursor documentBaz)).

(** The comments before the state variables of Baz. *)
Definition commentsBaz : Cursor -> list TerminalKind -> option Trivia :=
  fun cursor _ =>
    if String.eqb (StateVariableDefinition.name_text (node cursor)) "AStorageLocation"
    then Some {| trivia_kind := SingleLineComment;
                 trivia_text := formulaBaz;
                 trivia_range := {| text_start := 36; text_end := 123 |} |}
    else None.

(** The cursor of the analysis on the second constant of Baz. *)
Definition secondCursorBaz : Cursor :=
  nth 1 (stateVariableCursors cursorBaz) cursorBaz.

(** A function that assigns the variable [b], before the quick fix and
    after it. *)
Definition functionSet (body : list Node) : Node :=
  N FunctionDefinition
    [ ind; T FunctionKeyword "function";
      N FunctionName [sp; ident "set"];
      N ParametersDeclaration [T OpenParen "("; T CloseParen ")"];
      N OtherNonterminal [sp; tok "public"];
      N FunctionBody
        [N Block ([sp; T OpenBrace "{"; eol] ++ body ++ [ind; T CloseBrace "}"; eol])] ].

Definition contractSet (body : list Node) : Node :=
  contract "Bar" inheritsInitializable
    [ stateVariable [ind] "uint256" [] "b" [] [eol]; functionSet body ].

Definition functionCursorSet (body : list Node) : Cursor :=
  snd (goToNextNonterminalWithKinds [ConstructorDefinition; FunctionDefinition]
         (spawn (snd (goToNextNonterminalWithKind ContractDefinition
                        (createTreeCursor (N SourceUnit [contractSet body])))))).

Definition bodyBefore : list Node :=
  [N OtherNonterminal
     [N OtherNonterminal
        [ ind2; N Expression [ident "b"]; sp; T Equal "="; sp; N Expression [tok "1"];
          T Semicolon ";"; eol ]]].

Definition bodyAfter : list Node :=
  [N OtherNonterminal
     [ N OtherNonterminal
         [ ind2; ident "BarStorage"; sp; tok "storage"; sp; ident "$"; sp;
           T Equal "="; sp;
           N Expression [ident "_getBarStorage"; T OpenParen "("; T CloseParen ")"];
           T Semicolon ";"; eol ];
       N OtherNonterminal
         [ eol; ind2;
           N Expression [N Expression [ident "$"]; T Period "."; ident "b"];
           sp; T Equal "="; sp; N Expression [tok "1"]; T Semicolon ";"; eol ] ]].

Definition variableOfSet : Variable_ :=
  {| content := "uint256 b;"; name := "b";
     Namespace.range := {| range_start := 36; range_end := 46 |} |}.
End Contracts.

(* ================================================================== *)
(** * Properties *)

Local Open Scope list_scope.
Import Slang Helpers Namespace Server Diagnostics Quickfixes CodeActions Spec.

(* ------------------------------------------------------------------ *)
(** ** The slot hash *)

Section SlotHash.
Import Keccak JS.
Local Open Scope Z_scope.

Lemma le_bytes_length : forall n x, List.length (le_bytes n x) = n.
Proof. induction n; intros; simpl; [reflexivity | now rewrite IHn]. Qed.

Lemma keccak256_length : forall msg, List.length (keccak256 msg) = 32%nat.
Proof.
  intros msg. unfold keccak256, squeeze.
  rewrite length_map. cbn [seq flat_map].
  rewrite !length_app, !le_bytes_length. reflexivity.
Qed.

Lemma Z_of_byte_range : forall b, 0 <= Z_of_byte b < 256.
Proof.
  intros b. unfold Z_of_byte.
  pose proof (Byte.to_N_bounded b). lia.
Qed.

Lemma hexval_hexdigit : forall d, 0 <= d < 16 -> hexval (hexdigit d) = Some d.
Proof.
  intros d Hd.
  assert (d = 0 \/ d = 1 \/ d = 2 \/ d = 3 \/ d = 4 \/ d = 5 \/ d = 6 \/ d = 7 \/
          d = 8 \/ d = 9 \/ d = 10 \/ d = 11 \/ d = 12 \/ d = 13 \/ d = 14 \/ d = 15)
    as Hcases by lia.
  repeat (destruct Hcases as [-> | Hcases]; [reflexivity |]).
  subst d. reflexivity.
Qed.

Lemma hexdigit_lower : forall d, 0 <= d < 16 -> isLowerHex (hexdigit d) = true.
Proof.
  intros d Hd.
  assert (d = 0 \/ d = 1 \/ d = 2 \/ d = 3 \/ d = 4 \/ d = 5 \/ d = 6 \/ d = 7 \/
          d = 8 \/ d = 9 \/ d = 10 \/ d = 11 \/ d = 12 \/ d = 13 \/ d = 14 \/ d = 15)
    as Hcases by lia.
  repeat (destruct Hcases as [-> | Hcases]; [reflexivity |]).
  subst d. reflexivity.
Qed.

(** The digits of a buffer read back as the big-endian value of its bytes. *)
Lemma hex_value_toString : forall bs acc,
    exists v, hex_value acc (Buffer_toString_hex bs) = acc * 256 ^ Z.of_nat (List.length bs) + v
              /\ 0 <= v < 256 ^ Z.of_nat (List.length bs).
Proof.
  induction bs as [| b bs IH]; intros acc.
  - exists 0. simpl. lia.
  - pose proof (Z_of_byte_range b) as Hb.
    cbn [Buffer_toString_hex hex_value].
    rewrite hexval_hexdigit by (split; [apply Z.div_pos | apply Z.div_lt_upper_bound]; lia).
    rewrite hexval_hexdigit by (apply Z.mod_pos_bound; lia).
    destruct (IH (16 * (16 * acc + Z_of_byte b / 16) + Z_of_byte b mod 16)) as [v [Hv Hr]].
    rewrite Hv.
    replace (Z.of_nat (List.length (b :: bs))) with (Z.of_nat (List.length bs) + 1)
      by (simpl List.length; lia).
    rewrite Z.pow_add_r by lia.
    set (p := 256 ^ Z.of_nat (List.length bs)) in *.
    exists (Z_of_byte b * p + v).
    pose proof (Z.div_mod (Z_of_byte b) 16 ltac:(lia)) as Hdm.
    split; nia.
Qed.

Lemma BigInt_of_hex_range : forall bs,
    0 <= BigInt_of_hex (Buffer_toString_hex bs) < 256 ^ Z.of_nat (List.length bs).
Proof.
  intros bs. unfold BigInt_of_hex.
  destruct (hex_value_toString bs 0) as [v [Hv Hr]]. rewrite Hv. lia.
Qed.

Lemma masked_range : forall id, 0 <= masked id < 16 ^ 64.
Proof.
  intros id. unfold masked.
  pose proof (BigInt_of_hex_range (secondHash id)) as Hr.
  unfold secondHash in *. rewrite keccak256_length in Hr.
  set (v := BigInt_of_hex _) in *.
  rewrite <- Z.ldiff_land.
  change 255 with (Z.ones 8).
  rewrite Z.ldiff_ones_r by lia.
  rewrite Z.shiftr_div_pow2, Z.shiftl_mul_pow2 by lia.
  change (256 ^ Z.of_nat 32) with (16 ^ 64) in Hr.
  pose proof (Z.mul_div_le v (2 ^ 8) ltac:(lia)).
  assert (0 <= v / 2 ^ 8) by (apply Z.div_pos; lia).
  lia.
Qed.

Lemma hex_digits_spec : forall fuel n acc k,
    0 <= n < 16 ^ Z.of_nat k ->
    allChars isLowerHex acc = true ->
    (String.length (hex_digits fuel n acc) <= k + String.length acc)%nat /\
    allChars isLowerHex (hex_digits fuel n acc) = true.
Proof.
  induction fuel as [| fuel IH]; intros n acc k Hn Hacc; simpl.
  - split; [lia | assumption].
  - destruct (n =? 0) eqn:Hz.
    + split; [lia | assumption].
    + apply Z.eqb_neq in Hz.
      destruct k as [| k].
      * simpl in Hn. lia.
      * assert (0 <= n / 16 < 16 ^ Z.of_nat k) as Hq.
        { replace (Z.of_nat (S k)) with (Z.of_nat k + 1) in Hn by lia.
          rewrite Z.pow_add_r in Hn by lia.
          split; [apply Z.div_pos; lia | apply Z.div_lt_upper_bound; lia]. }
        destruct (IH (n / 16) (String (hexdigit (n mod 16)) acc) k Hq) as [Hl Hc].
        { simpl. rewrite hexdigit_lower by (apply Z.mod_pos_bound; lia). assumption. }
        split; [simpl in Hl; lia | assumption].
Qed.

Lemma toString16_spec : forall n,
    0 <= n < 16 ^ 64 ->
    (String.length (BigInt_toString16 n) <= 64)%nat /\
    allChars isLowerHex (BigInt_toString16 n) = true.
Proof.
  intros n Hn. unfold BigInt_toString16.
  destruct (n =? 0) eqn:Hz; [split; [simpl; lia | reflexivity] |].
  destruct (n <? 0) eqn:Hneg; [apply Z.ltb_lt in Hneg; lia |].
  destruct (hex_digits_spec (Z.to_nat (Z.log2 n + 1)) n "" 64 Hn eq_refl) as [Hl Hc].
  split; [simpl in Hl; lia | assumption].
Qed.

Lemma string_length_app : forall a b, String.length (a ++ b)%string = (String.length a + String.length b)%nat.
Proof. induction a; intros; simpl; [reflexivity | now rewrite IHa]. Qed.

Lemma allChars_app : forall p a b, allChars p (a ++ b)%string = allChars p a && allChars p b.
Proof. induction a; intros; simpl; [reflexivity | now rewrite IHa, andb_assoc]. Qed.

Lemma repeat_char_spec : forall c n p, p c = true ->
    String.length (repeat_char c n) = n /\ allChars p (repeat_char c n) = true.
Proof.
  induction n; intros p Hp; simpl; [split; reflexivity |].
  destruct (IHn p Hp) as [Hl Hc]. rewrite Hl, Hp, Hc. split; reflexivity.
Qed.

(** C2: for every identifier the slot hash is [0x] followed by exactly 64
    lowercase hexadecimal digits, and for [example.main] it is the slot
    constant that ERC-7201 publishes.  The calculator is a function of the
    identifier alone, so repeated calls give the same result. *)
Theorem slot_hash_is_a_fixed_lowercase_64_digit_hex_string :
  (forall id,
      exists digits,
        calculateERC7201StorageLocation id = ("0x" ++ digits)%string /\
        String.length digits = 64%nat /\
        allChars isLowerHex digits = true) /\
  calculateERC7201StorageLocation "example.main" =
  "0x183a6125c38840424c4a85fa12bab2ab606c4b6d0e7cc73c0c06ba5300eab500".
Proof.
  split.
  - intros id. exists (padded id). split; [reflexivity |].
    unfold padded, padStart.
    destruct (toString16_spec (masked id) (masked_range id)) as [Hl Hc].
    destruct (repeat_char_spec "0" (64 - String.length (BigInt_toString16 (masked id)))
                               isLowerHex eq_refl) as [Hrl Hrc].
    rewrite string_length_app, allChars_app, Hrl, Hrc, Hc.
    split; [lia | reflexivity].
  - vm_compute. reflexivity.
Qed.

(** C3: for the identifier [A] the first hash minus one has 63 hexadecimal
    digits; the buffer handed to the second hash has 31 bytes and is the
    encoding of that number without its last digit, not its minimal
    big-endian encoding, which has 32 bytes; the slot that comes out is not
    the slot of the minimal encoding. *)
Theorem odd_length_hex_loses_its_last_digit :
  String.length (BigInt_toString16 (minusOne "A")) = 63%nat /\
  List.length (minusOneBuffer "A") = 31%nat /\
  List.length (minimalBigEndian (minusOne "A")) = 32%nat /\
  minusOneBuffer "A" = minimalBigEndian (minusOne "A" / 16) /\
  minusOneBuffer "A" <> minimalBigEndian (minusOne "A") /\
  calculateERC7201StorageLocation "A" =
    "0x3cbb979c681586555eb7747433222857b7dfe608b8fe0261d9a86a4d380cde00" /\
  storageLocationOfMinimalEncoding "A" =
    "0x50defbb642e4316f9394f824174d8a5c7722f542e4bbd8273b5a501392c57600".
Proof.
  split; [vm_compute; reflexivity |].
  split; [vm_compute; reflexivity |].
  split; [vm_compute; reflexivity |].
  split; [vm_compute; reflexivity |].
  split; [vm_compute; discriminate |].
  split; vm_compute; reflexivity.
Qed.
End SlotHash.

(* ------------------------------------------------------------------ *)
(** ** Cursors and loops *)

Lemma preorder_nodes : forall n off,
    map item_node (preorder n off) = n :: descendants n.
Proof.
  induction n as [k t | k cs IH] using Node_ind'; intros off.
  - reflexivity.
  - cbn [preorder map item_node descendants]. f_equal.
    revert off. induction IH as [| c cs' Hc _ IHcs]; intros off.
    + reflexivity.
    + cbn [flat_map]. rewrite map_app, Hc, IHcs. reflexivity.
Qed.

Lemma whileNext_fold : forall (S : Type) p rt aft bef (body : Cursor -> S -> S) s,
    whileNext p rt bef aft body s =
    fold_left (fun s c => body c s) (visited p rt bef aft) s.
Proof.
  induction aft as [| it aft IH]; intros bef body s; simpl.
  - reflexivity.
  - destruct (p (item_node it)); simpl; apply IH.
Qed.

Lemma forEachNext_fold : forall (S : Type) p c (body : Cursor -> S -> S) s,
    forEachNext p c body s = fold_left (fun s c => body c s) (cursorsNext p c) s.
Proof.
  intros. unfold forEachNext, cursorsNext.
  destruct (is_completed c); [reflexivity | apply whileNext_fold].
Qed.

Lemma whileNext_seek : forall (S : Type) p rt aft bef (body : Cursor -> S -> S) s,
    whileNext p rt bef aft body s =
    match seek p bef aft with
    | Some (b, it, a) =>
        whileNext p rt (it :: b) a body
          (body {| root := rt; before := b; current := it; after := a;
                   is_completed := false |} s)
    | None => s
    end.
Proof.
  induction aft as [| it aft IH]; intros bef body s; simpl.
  - reflexivity.
  - destruct (p (item_node it)); [reflexivity | apply IH].
Qed.

(** The loop combinator is the [while] loop of the source. *)
Lemma forEachNext_while : forall (S : Type) p c (body : Cursor -> S -> S) s,
    forEachNext p c body s =
    match goToNextWith p c with
    | (true, c') => forEachNext p c' body (body c' s)
    | (false, _) => s
    end.
Proof.
  intros. unfold forEachNext at 1. unfold goToNextWith.
  destruct (is_completed c) eqn:Hc.
  - reflexivity.
  - rewrite whileNext_seek.
    destruct (seek p (current c :: before c) (after c)) as [[[b it] a] |]; reflexivity.
Qed.

Lemma visited_nodes : forall p rt aft bef,
    map node (visited p rt bef aft) = filter p (map item_node aft).
Proof.
  induction aft as [| it aft IH]; intros bef; simpl.
  - reflexivity.
  - destruct (p (item_node it)); simpl; rewrite IH; reflexivity.
Qed.

Lemma map_tl' : forall (A B : Type) (f : A -> B) l, map f (tl l) = tl (map f l).
Proof. destruct l; reflexivity. Qed.

Lemma spawn_nodes : forall p c,
    map node (cursorsNext p (spawn c)) = filter p (descendants (node c)).
Proof.
  intros. unfold cursorsNext, spawn, cursorAt. cbn [is_completed root current before after].
  rewrite visited_nodes. f_equal.
  rewrite map_tl', preorder_nodes. reflexivity.
Qed.

Lemma fold_left_map' : forall (A B S : Type) (g : A -> B) (f : S -> B -> S) l s,
    fold_left f (map g l) s = fold_left (fun s x => f s (g x)) l s.
Proof. induction l; intros; simpl; [reflexivity | apply IHl]. Qed.

Lemma fold_or : forall (A : Type) (f : A -> bool) l b,
    fold_left (fun found x => found || f x) l b = b || existsb f l.
Proof.
  induction l as [| x l IH]; intros b; simpl.
  - now rewrite orb_false_r.
  - rewrite IH. now rewrite orb_assoc.
Qed.


(* ------------------------------------------------------------------ *)
(** ** The classifier *)

Lemma inheritsNamed_spec : forall name contractDef,
    truthy (inheritsNamed name contractDef) = true <-> inheritsIdentifier name contractDef.
Proof.
  intros. unfold inheritsNamed, inheritsIdentifier.
  destruct (ContractDefinition.inheritance contractDef) as [inh |]; simpl.
  - rewrite existsb_exists. split.
    + intros [ty [Hty H]]. apply existsb_exists in H. destruct H as [item [Hitem H]].
      apply String.eqb_eq in H. exists inh, ty, item. auto.
    + intros [inh' [ty [item [Heq [Hty [Hitem H]]]]]]. injection Heq as <-.
      exists ty. split; [assumption |]. apply existsb_exists.
      exists item. split; [assumption |]. now apply String.eqb_eq.
  - split; [discriminate |]. intros [inh [ty [item [H _]]]]. discriminate.
Qed.

Lemma isAuthorizeUpgrade_spec : forall f,
    isAuthorizeUpgrade f = true <->
    FunctionDefinition.name_variant_text f = "_authorizeUpgrade" /\
    exists p, FunctionDefinition.parameters_items f = [p] /\
              FunctionDefinition.typeName_unparse p = "address".
Proof.
  intros f. unfold isAuthorizeUpgrade.
  destruct (FunctionDefinition.parameters_items f) as [| p [| q rest]]; simpl.
  - rewrite andb_false_r. split; [discriminate |]. intros [_ [p [H _]]]. discriminate.
  - rewrite andb_true_r, andb_true_iff, !String.eqb_eq. split.
    + intros [H1 H2]. split; [assumption |]. exists p. auto.
    + intros [H1 [p' [Hp H2]]]. injection Hp as <-. auto.
  - rewrite andb_false_r. simpl. split; [discriminate |]. intros [_ [p' [H _]]]. discriminate.
Qed.

(** The loop of [inferUpgradeable] over the function definitions finds one
    exactly when the contract declares [_authorizeUpgrade] with one parameter
    of type [address]. *)
Lemma authorizeUpgrade_loop : forall cursor,
    forEachNext (hasNonterminalKind FunctionDefinition) (spawn cursor)
      (fun fc found => found || isAuthorizeUpgrade (node fc)) false = true
    <-> declaresAuthorizeUpgrade (node cursor).
Proof.
  intros cursor. rewrite forEachNext_fold.
  rewrite <- (fold_left_map' _ _ _ node (fun found n => found || isAuthorizeUpgrade n)).
  rewrite spawn_nodes, fold_or. simpl. rewrite existsb_exists.
  unfold declaresAuthorizeUpgrade. split.
  - intros [f [Hf H]]. apply filter_In in Hf. destruct Hf as [Hin Hk].
    apply isAuthorizeUpgrade_spec in H. destruct H as [Hn [p [Hp Ht]]].
    exists f, p. auto.
  - intros [f [p [Hin [Hk [Hn [Hp Ht]]]]]]. exists f. split.
    + apply filter_In. auto.
    + apply isAuthorizeUpgrade_spec. split; [assumption |]. exists p. auto.
Qed.

(* ------------------------------------------------------------------ *)
(** ** The rules of the analysis *)

Section PassProperties.
Variable language : Language.
Variable variableLanguage : Language.
Variable namespacePrefix : string.
Variable relatedInfo : bool.
Variable getLastPrecedingTriviaWithKinds : Cursor -> list TerminalKind -> option Trivia.

Local Abbreviation validateVariable := (validateVariable variableLanguage relatedInfo).
Local Abbreviation variableDiagnostics := (variableDiagnostics variableLanguage relatedInfo).
Local Abbreviation variableEntries := (variableEntries variableLanguage relatedInfo).
Local Abbreviation validateNamespaceableVariables :=
  (validateNamespaceableVariables variableLanguage relatedInfo).
Local Abbreviation validateContract :=
  (validateContract language variableLanguage namespacePrefix relatedInfo
                    getLastPrecedingTriviaWithKinds).
Local Abbreviation eligibleVariables := (eligibleVariables variableLanguage relatedInfo).
Local Abbreviation declaredImmutableOrConstant := (declaredImmutableOrConstant variableLanguage).

Lemma scanAttributes_ignore : forall (g : string) attrs b r,
    fst (fold_left
           (fun (st : bool * string) attribute =>
              if isImmutableOrConstant attribute then (true, snd st)
              else (fst st, g))
           attrs (b, r)) = b || existsb isImmutableOrConstant attrs.
Proof.
  induction attrs as [| a attrs IH]; intros b r; simpl.
  - now rewrite orb_false_r.
  - destruct (isImmutableOrConstant a); rewrite IH; simpl.
    + now rewrite orb_true_r.
    + reflexivity.
Qed.

Lemma scanAttributes_fst : forall c,
    fst (scanAttributes (reparsed variableLanguage c) (JS.trim (unparse (node c))))
    = declaredImmutableOrConstant c.
Proof.
  intros c. unfold scanAttributes, Diagnostics.declaredImmutableOrConstant.
  now rewrite scanAttributes_ignore.
Qed.

Lemma nc_eta : forall nc,
    {| nc_name := nc_name nc; nc_variables := nc_variables nc |} = nc.
Proof. intros [n vs]. reflexivity. Qed.

(** One variable only appends. *)
Lemma validateVariable_app : forall skip c ds nc,
    validateVariable skip c (ds, nc) =
    (ds ++ variableDiagnostics skip c,
     {| nc_name := nc_name nc;
        nc_variables := nc_variables nc ++ variableEntries c |}).
Proof.
  intros skip c ds nc.
  unfold Diagnostics.variableDiagnostics, Diagnostics.variableEntries,
    Diagnostics.validateVariable.
  destruct (scanAttributes _ _) as [ignore replacement].
  destruct ignore.
  - simpl. now rewrite !app_nil_r, nc_eta.
  - destruct (StateVariableDefinition.value _).
    + destruct skip; simpl; now rewrite !app_nil_r, nc_eta.
    + destruct skip; simpl; now rewrite ?app_nil_r.
Qed.

Lemma fold_validateVariable : forall skip cs ds nc,
    fold_left (fun st c => validateVariable skip c st) cs (ds, nc) =
    (ds ++ flat_map (variableDiagnostics skip) cs,
     {| nc_name := nc_name nc;
        nc_variables := nc_variables nc ++ flat_map variableEntries cs |}).
Proof.
  induction cs as [| c cs IH]; intros ds nc; cbn [fold_left flat_map].
  - now rewrite !app_nil_r, nc_eta.
  - rewrite validateVariable_app, IH. cbn [nc_name nc_variables].
    now rewrite <- !app_assoc.
Qed.

Lemma validateNamespaceableVariables_app : forall cursor ds nc skip,
    validateNamespaceableVariables cursor ds nc skip =
    (ds ++ flat_map (variableDiagnostics skip) (stateVariableCursors cursor),
     {| nc_name := nc_name nc;
        nc_variables := nc_variables nc ++ flat_map variableEntries (stateVariableCursors cursor) |}).
Proof.
  intros. unfold Diagnostics.validateNamespaceableVariables.
  rewrite forEachNext_fold. apply fold_validateVariable.
Qed.





(** An ignored variable adds nothing. *)
Lemma ignored_adds_nothing : forall skip c,
    declaredImmutableOrConstant c = true ->
    variableDiagnostics skip c = [] /\ variableEntries c = [].
Proof.
  intros skip c H. rewrite <- scanAttributes_fst in H.
  unfold Diagnostics.variableDiagnostics, Diagnostics.variableEntries,
    Diagnostics.validateVariable.
  fold (reparsed variableLanguage c).
  destruct (scanAttributes _ _) as [ignore replacement]. simpl in H. subst ignore.
  split; reflexivity.
Qed.

Lemma flat_map_filter_nil : forall (A B : Type) (f : A -> list B) (keep : A -> bool) l,
    (forall x, keep x = false -> f x = []) ->
    flat_map f l = flat_map f (filter keep l).
Proof.
  intros A B f keep l H. induction l as [| x l IH]; simpl; [reflexivity |].
  destruct (keep x) eqn:Hk; simpl; rewrite IH; [reflexivity |].
  now rewrite (H x Hk).
Qed.

(** C8: a state variable with the [constant] or [immutable] attribute
    leaves the diagnostics and the variable list as they are, and the pass
    over a contract is the pass over its other state variables: such a
    variable is never appended and never gets a diagnostic. *)
Theorem constants_and_immutables_are_left_out : forall cursor ds nc skip,
    (forall c st, declaredImmutableOrConstant c = true ->
                  validateVariable skip c st = st) /\
    validateNamespaceableVariables cursor ds nc skip =
    fold_left (fun st c => validateVariable skip c st)
              (filter (fun c => negb (declaredImmutableOrConstant c))
                      (stateVariableCursors cursor))
              (ds, nc).
Proof.
  intros cursor ds nc skip. split.
  - intros c [ds' nc'] H. rewrite validateVariable_app.
    destruct (ignored_adds_nothing skip c H) as [-> ->].
    now rewrite !app_nil_r, nc_eta.
  - rewrite validateNamespaceableVariables_app, fold_validateVariable.
    f_equal; [f_equal | f_equal; f_equal]; apply flat_map_filter_nil;
      intros c Hc; apply negb_false_iff in Hc;
      now destruct (ignored_adds_nothing skip c Hc).
Qed.

Local Abbreviation validateCommentAndHash :=
  (validateCommentAndHash namespacePrefix relatedInfo getLastPrecedingTriviaWithKinds).
Local Abbreviation commentAndHashLoop :=
  (commentAndHashLoop namespacePrefix relatedInfo getLastPrecedingTriviaWithKinds).
Local Abbreviation validateNamespaceCommentAndHash :=
  (validateNamespaceCommentAndHash namespacePrefix relatedInfo getLastPrecedingTriviaWithKinds).
Local Abbreviation validateStruct := (validateStruct namespacePrefix relatedInfo).
Local Abbreviation validateNamespaceStructAnnotation :=
  (validateNamespaceStructAnnotation namespacePrefix relatedInfo).
Local Abbreviation checkComment := (checkComment namespacePrefix relatedInfo).
Local Abbreviation validateNamespaceableContract :=
  (validateNamespaceableContract relatedInfo).
Local Abbreviation noFormulaComment := (noFormulaComment getLastPrecedingTriviaWithKinds).




Lemma checkComment_cases : forall contractDef comment ds,
    exists added fromComment unexpected,
      checkComment contractDef comment ds = (ds ++ added, fromComment, unexpected) /\
      Forall notContractLevel added /\
      filter isHashMismatch added = [] /\
      (unexpected = false ->
       fromComment = None \/
       fromComment = Some (calculateERC7201StorageLocation
                             (getExpectedNamespaceId namespacePrefix contractDef))).
Proof.
  intros contractDef comment ds. unfold Diagnostics.checkComment.
  destruct comment as [comment |];
    [| exists [], None, false; rewrite app_nil_r; auto].
  destruct (JS.match_formula (trivia_text comment)) as [m |];
    [| exists [], None, false; rewrite app_nil_r; auto].
  destruct (String.eqb m _) eqn:Hm; cbn [negb].
  - apply String.eqb_eq in Hm. subst m.
    eexists [], _, false. rewrite app_nil_r. repeat split; auto.
  - eexists [_], _, true. repeat split; auto; try discriminate.
    repeat constructor.
Qed.

Lemma validateCommentAndHash_appends : forall contractDef c ds,
    exists added,
      fst (validateCommentAndHash contractDef c ds) = ds ++ added /\
      Forall notContractLevel added /\
      (List.length (filter isHashMismatch added) <= 1)%nat.
Proof.
  intros contractDef c ds. unfold Diagnostics.validateCommentAndHash.
  destruct (checkComment_cases contractDef
              (getLastPrecedingTriviaWithKinds c [SingleLineComment; MultiLineComment]) ds)
    as [a0 [fromComment [unexpected [-> [Hq [Hf Hu]]]]]].
  destruct (nameLooksLikeLocation _);
    [| exists a0; cbn [fst]; rewrite Hf; auto].
  destruct (node _) as [k t | k cs];
    [exists a0; cbn [fst]; rewrite Hf; auto |].
  cbn [fst].
  destruct unexpected; cbn [negb andb].
  - destruct fromComment as [h |]; [destruct (negb _) |].
    + eexists (a0 ++ [_]). rewrite app_assoc. split; [reflexivity |].
      split; [apply Forall_app; split; [assumption | repeat constructor] |].
      rewrite filter_app, Hf. simpl. lia.
    + exists a0. rewrite Hf. auto.
    + exists a0. rewrite Hf. auto.
  - destruct (Hu eq_refl) as [-> | ->].
    + cbn [optEqb negb andb].
      destruct (negb _).
      * eexists (a0 ++ [_]). rewrite app_assoc. split; [reflexivity |].
        split; [apply Forall_app; split; [assumption | repeat constructor] |].
        rewrite filter_app, Hf. simpl. lia.
      * exists a0. rewrite Hf. auto.
    + cbn [optEqb]. rewrite String.eqb_refl. cbn [negb andb].
      destruct (negb _).
      * eexists (a0 ++ [_]). rewrite app_assoc. split; [reflexivity |].
        split; [apply Forall_app; split; [assumption | repeat constructor] |].
        rewrite filter_app, Hf. simpl. lia.
      * exists a0. rewrite Hf. auto.
Qed.



Lemma flat_map_Forall : forall (A B : Type) (f : A -> list B) (Q : B -> Prop) l,
    (forall x, Forall Q (f x)) -> Forall Q (flat_map f l).
Proof.
  intros A B f Q l H. induction l; simpl; [constructor | apply Forall_app; auto].
Qed.


(** ** Moves of the cursor *)

Lemma seek_shorter : forall p a b b' it a',
    seek p b a = Some (b', it, a') -> (List.length a' < List.length a)%nat.
Proof.
  induction a as [| x a IH]; intros b b' it a' H; simpl in H; [discriminate |].
  destruct (p (item_node x)).
  - injection H as _ _ <-. simpl. lia.
  - apply IH in H. simpl. lia.
Qed.

Lemma goToNextWith_moves : forall p c,
    (movesLeft (snd (goToNextWith p c)) <= movesLeft c)%nat /\
    (fst (goToNextWith p c) = true ->
     (movesLeft (snd (goToNextWith p c)) < movesLeft c)%nat) /\
    (fst (goToNextWith p c) = false -> movesLeft (snd (goToNextWith p c)) = 0%nat).
Proof.
  intros p c. unfold goToNextWith, movesLeft.
  destruct (is_completed c) eqn:Hc; cbn [fst snd].
  - rewrite Hc. repeat split; auto; discriminate.
  - destruct (seek p (current c :: before c) (after c)) as [[[b it] a] |] eqn:Hs;
      cbn [fst snd is_completed after complete].
    + apply seek_shorter in Hs. repeat split; try lia; discriminate.
    + repeat split; try lia; discriminate.
Qed.

Lemma validateCommentAndHash_moves : forall contractDef c ds,
    (movesLeft (snd (validateCommentAndHash contractDef c ds)) <= movesLeft c)%nat.
Proof.
  intros contractDef c ds. unfold Diagnostics.validateCommentAndHash.
  destruct (Diagnostics.checkComment _ _ _ _ _) as [[ds0 fromComment] unexpected].
  destruct (nameLooksLikeLocation _); [| cbn [snd]; lia].
  pose proof (proj1 (goToNextWith_moves (hasNonterminalKind StateVariableDefinitionValue) c)) as H1.
  pose proof (proj1 (goToNextWith_moves (hasNonterminalKind Expression)
                (snd (goToNextNonterminalWithKind StateVariableDefinitionValue c)))) as H2.
  unfold goToNextNonterminalWithKind in *.
  destruct (node _); cbn [snd]; lia.
Qed.

(** The loop of [validateNamespaceCommentAndHash] has the moves it needs:
    more change nothing. *)
Lemma commentAndHashLoop_fuel : forall contractDef fuel1 fuel2 c ds,
    (movesLeft c <= fuel1)%nat -> (movesLeft c <= fuel2)%nat ->
    commentAndHashLoop fuel1 contractDef c ds = commentAndHashLoop fuel2 contractDef c ds.
Proof.
  intros contractDef.
  assert (forall fuel c ds, movesLeft c = 0%nat ->
                            commentAndHashLoop fuel contractDef c ds = ds) as Hdone.
  { intros [| fuel] c ds H; [reflexivity |]. simpl.
    unfold goToNextNonterminalWithKind, goToNextWith.
    unfold movesLeft in H. destruct (is_completed c); [reflexivity | discriminate]. }
  induction fuel1 as [| f1 IH]; intros fuel2 c ds H1 H2.
  - rewrite (Hdone fuel2) by lia. reflexivity.
  - destruct fuel2 as [| f2]; [rewrite (Hdone (S f1)) by lia; reflexivity |].
    simpl.
    pose proof (goToNextWith_moves (hasNonterminalKind StateVariableDefinition) c)
      as [_ [Hlt _]].
    unfold goToNextNonterminalWithKind in *.
    destruct (goToNextWith (hasNonterminalKind StateVariableDefinition) c) as [[|] c1];
      [| reflexivity].
    cbn [fst snd] in Hlt. specialize (Hlt eq_refl).
    pose proof (validateCommentAndHash_moves contractDef c1 ds) as Hstep.
    destruct (validateCommentAndHash contractDef c1 ds) as [ds1 c2]. cbn [snd] in Hstep.
    apply IH; lia.
Qed.

(** One iteration of the loop of [validateNamespaceCommentAndHash]: for a
    state variable named like a storage location without a
    comment that has the slot formula, the step emits no
    [NamespaceHashMismatch] and, when the text of the initializer does not
    contain the hash of the expected identifier, emits exactly the
    diagnostic [NamespaceStandaloneHashMismatch] with that hash as
    replacement; and for any state variable the step emits at most one of
    the two hash mismatch diagnostics. *)
Lemma iteration_without_formula_comment : forall contractDef c ds,
    let expected :=
      calculateERC7201StorageLocation (getExpectedNamespaceId namespacePrefix contractDef) in
    let initializer := initializerCursor c in
    (nameLooksLikeLocation (StateVariableDefinition.name_text (node c)) = true ->
     noFormulaComment c ->
     hasNonterminalKind Expression (node initializer) = true ->
     exists added,
       fst (validateCommentAndHash contractDef c ds) = ds ++ added /\
       Forall (fun d => hasCode NAMESPACE_HASH_MISMATCH d = false) added /\
       (JS.includes (unparse (node initializer)) expected = false ->
        exists d, added = [d] /\
                  code d = NAMESPACE_STANDALONE_HASH_MISMATCH /\
                  data d = DataReplacement expected /\
                  range d = slangToVSCodeRange (getTrimmedRange initializer))) /\
    (exists added,
       fst (validateCommentAndHash contractDef c ds) = ds ++ added /\
       (List.length (filter isHashMismatch added) <= 1)%nat).
Proof.
  intros contractDef c ds expected initializer. split.
  - intros Hname Hcomment Hexpr.
    unfold Diagnostics.validateCommentAndHash.
    assert (checkComment contractDef
              (getLastPrecedingTriviaWithKinds c [SingleLineComment; MultiLineComment]) ds
            = (ds, None, false)) as ->.
    { unfold Diagnostics.noFormulaComment in Hcomment. unfold Diagnostics.checkComment.
      destruct (getLastPrecedingTriviaWithKinds c _) as [comment |]; [| reflexivity].
      now rewrite Hcomment. }
    rewrite Hname.
    fold (initializerCursor c). fold initializer.
    destruct (node initializer) as [k t | k cs] eqn:Hnode; [discriminate |].
    rewrite <- Hnode. fold expected. cbn [optEqb negb andb fst].
    destruct (JS.includes (unparse (node initializer)) expected); cbn [negb].
    + exists []. rewrite app_nil_r. split; [reflexivity |]. split; [constructor | discriminate].
    + eexists [_]. split; [reflexivity |]. split; [repeat constructor |].
      intros _. eexists. repeat split.
  - destruct (validateCommentAndHash_appends contractDef c ds) as [added [H [_ Hle]]].
    exists added. auto.
Qed.

End PassProperties.

(* ------------------------------------------------------------------ *)
(** ** The quick fixes *)

Lemma seek_found : forall p a b b' it a',
    seek p b a = Some (b', it, a') -> p (item_node it) = true.
Proof.
  induction a as [| x a IH]; intros b b' it a' H; simpl in H; [discriminate |].
  destruct (p (item_node x)) eqn:Hp.
  - injection H as _ <- _. assumption.
  - eapply IH; eassumption.
Qed.

Lemma goToNextWith_onNonterminal : forall p c,
    (forall n, p n = true -> isTerminal n = false) ->
    onNonterminal c -> onNonterminal (snd (goToNextWith p c)).
Proof.
  intros p c Hp [Hn Hr]. unfold goToNextWith.
  destruct (is_completed c); [split; assumption |].
  destruct (seek p (current c :: before c) (after c)) as [[[b it] a] |] eqn:Hs.
  - apply seek_found in Hs. split; [apply Hp; exact Hs | exact Hr].
  - split; exact Hr.
Qed.

Lemma hasNonterminalKind_nonterminal : forall k n,
    hasNonterminalKind k n = true -> isTerminal n = false.
Proof. intros k [k' t | k' cs] H; [discriminate | reflexivity]. Qed.

Lemma hasNonterminalKinds_nonterminal : forall ks n,
    hasNonterminalKinds ks n = true -> isTerminal n = false.
Proof.
  intros ks n H. unfold hasNonterminalKinds in H. apply existsb_exists in H.
  destruct H as [k [_ H]]. eapply hasNonterminalKind_nonterminal; eassumption.
Qed.

Lemma findBlock_onNonterminal : forall cursor,
    hasNonterminalKinds [ConstructorDefinition; FunctionDefinition] (node cursor) = true ->
    onNonterminal (findBlock cursor).
Proof.
  intros cursor H. apply hasNonterminalKinds_nonterminal in H.
  assert (onNonterminal (spawn cursor)) as Hs by (split; exact H).
  unfold findBlock.
  destruct (hasNonterminalKind ConstructorDefinition (node (spawn cursor)));
    unfold goToNextNonterminalWithKind;
    repeat apply goToNextWith_onNonterminal;
    try assumption; apply hasNonterminalKind_nonterminal.
Qed.

Lemma replaceVariables_fold : forall variables cs (b : bool) edits,
    exists rewrites,
      snd (fold_left
             (fun (st : bool * list TextEdit) identifierCursor =>
                if isNamespaced variables (text (node identifierCursor)) then
                  (true,
                   snd st ++
                   [ {| edit_range := slangToVSCodeRange (textRange identifierCursor);
                        newText := ("$." ++ text (node identifierCursor))%string |} ])
                else st)
             cs (b, edits)) = edits ++ rewrites /\
      Forall isRewrite rewrites.
Proof.
  intros variables. induction cs as [| c cs IH]; intros b edits; cbn [fold_left].
  - exists []. now rewrite app_nil_r.
  - destruct (isNamespaced variables (text (node c))); cbn [snd].
    + destruct (IH true (edits ++
                 [{| edit_range := slangToVSCodeRange (textRange c);
                     newText := ("$." ++ text (node c))%string |}]))
        as [rest [-> Hrest]].
      eexists (_ :: rest). rewrite <- app_assoc. split; [reflexivity |].
      constructor; [eexists; reflexivity | assumption].
    + apply IH.
Qed.

Lemma replaceVariables_rewrites : forall blockCursor variables edits,
    exists rewrites,
      snd (replaceVariables blockCursor variables edits) = edits ++ rewrites /\
      Forall isRewrite rewrites.
Proof.
  intros blockCursor variables edits. unfold replaceVariables.
  rewrite forEachNext_fold. apply replaceVariables_fold.
Qed.

(** The guard of [addStorageGetter]. *)
Lemma addStorageGetter_guard : forall contractName blockNode functionBodyCursor edits,
    JS.includes (unparse blockNode) (expectedLine contractName) = true ->
    addStorageGetter contractName blockNode functionBodyCursor edits = Ok edits.
Proof.
  intros contractName blockNode functionBodyCursor edits H.
  unfold addStorageGetter. now rewrite H.
Qed.

(** In a constructor or function whose unparsed body already has the
    accessor line of the contract verbatim, the quick fix adds nothing but
    the rewrites of identifiers. *)
Lemma editFunction_with_accessor_line :
  forall contractName variables cursor edits,
    hasNonterminalKinds [ConstructorDefinition; FunctionDefinition] (node cursor) = true ->
    JS.includes (unparse (node (findBlock cursor))) (expectedLine contractName) = true ->
    exists rewrites,
      editFunction contractName variables cursor edits = Ok (edits ++ rewrites) /\
      Forall isRewrite rewrites.
Proof.
  intros contractName variables cursor edits Hkind Hline.
  destruct (findBlock_onNonterminal cursor Hkind) as [Hnode _].
  unfold editFunction.
  destruct (node (findBlock cursor)) as [k t | k cs] eqn:Hblock; [discriminate |].
  destruct (replaceVariables_rewrites (findBlock cursor) variables edits)
    as [rewrites [Heq Hall]].
  destruct (replaceVariables (findBlock cursor) variables edits) as [needs edits'].
  cbn [snd] in Heq. subst edits'.
  exists rewrites. split; [| assumption].
  destruct needs; [| reflexivity].
  now apply addStorageGetter_guard.
Qed.

Section Request.
Variable language : NonterminalKind -> string -> ParseOutput.
Variable namespacePrefix : string.
Variable documentText : string.

Local Abbreviation tryLoop := (tryLoop language namespacePrefix documentText).
Local Abbreviation codeActionsFor := (codeActionsFor language namespacePrefix documentText).
Local Abbreviation getCodeActions := (getCodeActions language namespacePrefix documentText).

Lemma tryLoop_app : forall diagnostics l1 l2 codeActions,
    tryLoop diagnostics (l1 ++ l2) codeActions =
    match tryLoop diagnostics l1 codeActions with
    | (codeActions', None) => tryLoop diagnostics l2 codeActions'
    | stopped => stopped
    end.
Proof.
  intros diagnostics l1 l2. induction l1 as [| d l1 IH]; intros codeActions; simpl.
  - reflexivity.
  - destruct (codeActionsFor diagnostics d codeActions); [apply IH | reflexivity].
Qed.

(** C5, amended: when the fix of one diagnostic throws, the exception is
    caught, the request answers the code actions of the diagnostics before
    it, and the diagnostics after it are not looked at. *)
Theorem a_throwing_diagnostic_ends_the_request :
  forall earlier diagnostic later codeActions e,
    let diagnostics := earlier ++ diagnostic :: later in
    tryLoop diagnostics earlier [] = (codeActions, None) ->
    codeActionsFor diagnostics diagnostic codeActions = Throw e ->
    getCodeActions diagnostics = codeActions.
Proof.
  intros earlier diagnostic later codeActions e diagnostics Hearlier Hthrow.
  unfold CodeActions.getCodeActions. subst diagnostics.
  rewrite tryLoop_app, Hearlier. cbn [CodeActions.tryLoop].
  now rewrite Hthrow.
Qed.
End Request.

(* ------------------------------------------------------------------ *)
(** ** Runs on the two documents *)

Section Runs.
Import Examples.

(** Keccak-256 of the empty message, the test vector of the function. *)
Example keccak256_of_the_empty_message :
  JS.Buffer_toString_hex (Keccak.keccak256 []) =
  "c5d2460186f7233c927e7db2dcc703c0e500b653ca82273b7bfad8045d85a470".
Proof. vm_compute. reflexivity. Qed.

(** The loop on the comments and hashes leaves the cursor of the storage
    location constant of Bar on its own initializer. *)
Example initializer_of_the_location_constant :
  unparse (node (initializerCursor locationCursorBar)) = " 0x00" /\
  map (fun c => StateVariableDefinition.name_text (node c)) (stateVariableCursors cursorBar)
  = ["BarStorageLocation"; "b"; "c"].
Proof. split; vm_compute; reflexivity. Qed.




Lemma constants_and_immutables_are_left_out_witness :
  declaredImmutableOrConstant languageBar locationCursorBar = true /\
  validateVariable languageBar false false locationCursorBar ([], emptyContract "Bar")
  = ([], emptyContract "Bar").
Proof.
  split; [vm_compute; reflexivity |].
  apply (proj1 (constants_and_immutables_are_left_out
                  languageBar false cursorBar [] (emptyContract "Bar") false)).
  vm_compute. reflexivity.
Defined.

(** C4: on the document of Bar, that has a namespace struct and two plain
    variables, the quick fix of the contract diagnostic of the analysis has
    two edits on the range of the closing brace of the struct: its edits
    overlap. *)
Theorem existing_namespace_edits_overlap :
  map title (codeActionsBar diagnosticsBar)
  = ["Recalculate hash using expected id"; "Move all variables to namespace"] /\
  map (fun action => map edit_range (edit action)) (codeActionsBar diagnosticsBar)
  = [ [ {| range_start := 182; range_end := 186 |} ];
      [ {| range_start := 333; range_end := 334 |};
        {| range_start := 192; range_end := 202 |};
        {| range_start := 130; range_end := 131 |};
        {| range_start := 207; range_end := 217 |};
        {| range_start := 130; range_end := 131 |} ] ] /\
  map (fun action => nonOverlapping (edit action)) (codeActionsBar diagnosticsBar)
  = [true; false].
Proof.
  split; [vm_compute; reflexivity |].
  split; vm_compute; reflexivity.
Qed.

(** A request with a diagnostic whose data did not come back, then a
    diagnostic with its data: the first throws, the second alone has its
    fix, and the request answers nothing. *)
Lemma sibling_fix_is_lost_after_a_throw :
  codeActionsFor languageBar "myapp" (unparse documentBar)
                 [strippedDiagnostic; mismatchDiagnostic] strippedDiagnostic []
  = Throw "TypeError" /\
  codeActionsBar [mismatchDiagnostic]
  = [getQuickFixReplacement [mismatchDiagnostic] "Recalculate hash using expected id"
       (range mismatchDiagnostic) (calculateERC7201StorageLocation "myapp.Bar")] /\
  codeActionsBar [strippedDiagnostic; mismatchDiagnostic] = [].
Proof.
  split; [vm_compute; reflexivity |].
  split; vm_compute; reflexivity.
Qed.

Lemma a_throwing_diagnostic_ends_the_request_witness :
  codeActionsBar [mismatchDiagnostic; strippedDiagnostic; mismatchDiagnostic]
  = [getQuickFixReplacement [mismatchDiagnostic] "Recalculate hash using expected id"
       (range mismatchDiagnostic) (calculateERC7201StorageLocation "myapp.Bar")].
Proof.
  apply (a_throwing_diagnostic_ends_the_request
           languageBar "myapp" (unparse documentBar)
           [mismatchDiagnostic] strippedDiagnostic [mismatchDiagnostic] _ "TypeError").
  - vm_compute. reflexivity.
  - vm_compute. reflexivity.
Defined.
End Runs.


(* ================================================================== *)
(** * Further properties *)

(* ------------------------------------------------------------------ *)
(** ** The digits of the slot *)

Import Digits.

Section Hex.
Import Keccak JS.
Local Open Scope Z_scope.

Lemma hexlen_spec : forall n, 0 < n ->
    16 ^ (Z.of_nat (hexlen n) - 1) <= n < 16 ^ Z.of_nat (hexlen n).
Proof.
  intros n Hn. unfold hexlen.
  pose proof (Z.log2_nonneg n) as Hl.
  pose proof (Z.log2_spec n Hn) as [Hlo Hhi].
  assert (0 <= Z.log2 n / 4) as Hq by (apply Z.div_pos; lia).
  rewrite Z2Nat.id by lia.
  replace (Z.log2 n / 4 + 1 - 1) with (Z.log2 n / 4) by lia.
  change 16 with (2 ^ 4). rewrite <- !Z.pow_mul_r by lia.
  pose proof (Z.div_mod (Z.log2 n) 4 ltac:(lia)) as Hdm.
  pose proof (Z.mod_pos_bound (Z.log2 n) 4 ltac:(lia)) as Hm.
  split.
  - eapply Z.le_trans; [| exact Hlo]. apply Z.pow_le_mono_r; lia.
  - eapply Z.lt_le_trans; [exact Hhi |]. apply Z.pow_le_mono_r; lia.
Qed.

Lemma hexlen_fuel : forall n, 0 < n -> (hexlen n <= Z.to_nat (Z.log2 n + 1))%nat.
Proof.
  intros n Hn. unfold hexlen.
  pose proof (Z.log2_nonneg n) as Hl.
  assert (Z.log2 n / 4 <= Z.log2 n) by (apply Z.div_le_upper_bound; lia).
  lia.
Qed.

Lemma hex_digits_hexfix : forall k fuel n acc,
    (S k <= fuel)%nat ->
    16 ^ Z.of_nat k <= n < 16 ^ Z.of_nat (S k) ->
    hex_digits fuel n acc = hexfix (S k) n acc.
Proof.
  induction k as [| k IH]; intros fuel n acc Hf Hn.
  - destruct fuel as [| f]; [lia |]. simpl in Hn. cbn [hex_digits hexfix].
    destruct (n =? 0) eqn:Hz; [apply Z.eqb_eq in Hz; lia |].
    assert (n / 16 = 0) as -> by (apply Z.div_small; lia).
    destruct f; reflexivity.
  - destruct fuel as [| f]; [lia |].
    assert (0 < 16 ^ Z.of_nat (S k)) by (apply Z.pow_pos_nonneg; lia).
    cbn [hex_digits]. destruct (n =? 0) eqn:Hz; [apply Z.eqb_eq in Hz; lia |].
    change (hexfix (S (S k)) n acc)
      with (hexfix (S k) (n / 16) (String (hexdigit (n mod 16)) acc)).
    apply IH; [lia |].
    replace (Z.of_nat (S (S k))) with (Z.of_nat (S k) + 1) in Hn by lia.
    replace (Z.of_nat (S k)) with (Z.of_nat k + 1) in Hn at 1 by lia.
    rewrite !Z.pow_add_r in Hn by lia.
    split; [apply Z.div_le_lower_bound; lia | apply Z.div_lt_upper_bound; lia].
Qed.

Lemma toString16_hexfix : forall n, 0 < n ->
    BigInt_toString16 n = hexfix (hexlen n) n "".
Proof.
  intros n Hn. unfold BigInt_toString16.
  destruct (n =? 0) eqn:Hz; [apply Z.eqb_eq in Hz; lia |].
  destruct (n <? 0) eqn:Hneg; [apply Z.ltb_lt in Hneg; lia |].
  pose proof (hexlen_spec n Hn) as Hs. pose proof (hexlen_fuel n Hn) as Hf.
  destruct (hexlen n) as [| k] eqn:Hk.
  - unfold hexlen in Hk. pose proof (Z.log2_nonneg n).
    assert (0 <= Z.log2 n / 4) by (apply Z.div_pos; lia). lia.
  - apply hex_digits_hexfix; [lia |].
    replace (Z.of_nat (S k) - 1) with (Z.of_nat k) in Hs by lia. exact Hs.
Qed.

Lemma hexfix_length : forall m n acc,
    String.length (hexfix m n acc) = (m + String.length acc)%nat.
Proof.
  induction m as [| m IH]; intros n acc; simpl; [reflexivity |].
  rewrite IH. simpl. lia.
Qed.

Lemma hex_value_hexfix : forall m n acc s,
    0 <= n < 16 ^ Z.of_nat m ->
    hex_value acc (hexfix m n s) = hex_value (acc * 16 ^ Z.of_nat m + n) s.
Proof.
  induction m as [| m IH]; intros n acc s Hn.
  - simpl in *. f_equal. lia.
  - cbn [hexfix].
    replace (Z.of_nat (S m)) with (Z.of_nat m + 1) in * by lia.
    rewrite Z.pow_add_r in * by lia.
    rewrite IH by (split; [apply Z.div_pos; lia | apply Z.div_lt_upper_bound; lia]).
    cbn [hex_value]. rewrite hexval_hexdigit by (apply Z.mod_pos_bound; lia).
    f_equal. pose proof (Z.div_mod n 16 ltac:(lia)). lia.
Qed.

Lemma BigInt_round_trip : forall n, 0 <= n -> BigInt_of_hex (BigInt_toString16 n) = n.
Proof.
  intros n Hn. destruct (Z.eq_dec n 0) as [-> | Hz]; [reflexivity |].
  rewrite toString16_hexfix by lia. unfold BigInt_of_hex.
  pose proof (hexlen_spec n ltac:(lia)) as Hs.
  rewrite hex_value_hexfix by lia. simpl. lia.
Qed.

Lemma hex_value_zeros : forall k s, hex_value 0 (repeat_char "0" k ++ s)%string = hex_value 0 s.
Proof. induction k as [| k IH]; intros s; simpl; [reflexivity | apply IH]. Qed.
End Hex.

Section Hex2.
Import Keccak JS.
Local Open Scope Z_scope.

Lemma clear_low_byte : forall v, Z.land v (Z.lnot 255) = v - v mod 256.
Proof.
  intros v. rewrite <- Z.ldiff_land. change 255 with (Z.ones 8).
  rewrite Z.ldiff_ones_r by lia.
  rewrite Z.shiftr_div_pow2, Z.shiftl_mul_pow2 by lia.
  change (2 ^ 8) with 256. pose proof (Z.div_mod v 256 ltac:(lia)). lia.
Qed.

Lemma padStart_value : forall s k, BigInt_of_hex (padStart s k "0") = BigInt_of_hex s.
Proof. intros s k. unfold padStart, BigInt_of_hex. apply hex_value_zeros. Qed.

Lemma padded_value : forall id, BigInt_of_hex (padded id) = masked id.
Proof.
  intros id. unfold padded. rewrite padStart_value.
  apply BigInt_round_trip. apply (proj1 (masked_range id)).
Qed.

(** X1: the digits [calculateERC7201StorageLocation] returns after [0x]
    read back as the second hash with its lowest byte cleared: the value of
    the hash minus its remainder modulo 256, a multiple of 256.  The padding
    with zeros to 64 digits does not change the value. *)
Theorem slot_reads_back_as_the_second_hash_without_its_low_byte : forall id,
    BigInt_of_hex (padded id) =
    BigInt_of_hex (Buffer_toString_hex (secondHash id)) -
    BigInt_of_hex (Buffer_toString_hex (secondHash id)) mod 256 /\
    BigInt_of_hex (padded id) mod 256 = 0.
Proof.
  intros id. rewrite padded_value. unfold masked.
  generalize (BigInt_of_hex (Buffer_toString_hex (secondHash id))) as v. intros v.
  rewrite clear_low_byte. split; [reflexivity |].
  pose proof (Z.div_mod v 256 ltac:(lia)) as Hdm.
  replace (v - v mod 256) with (v / 256 * 256) by lia.
  apply Z.mod_mul. lia.
Qed.

Lemma Buffer_from_hex_hexfix : forall k n s,
    Buffer_from_hex (hexfix (2 * k) n s) = befix k n (Buffer_from_hex s).
Proof.
  induction k as [| k IH]; intros n s.
  - reflexivity.
  - replace (2 * S k)%nat with (S (S (2 * k))) by lia.
    cbn [hexfix befix]. rewrite IH. cbn [Buffer_from_hex].
    rewrite !hexval_hexdigit by (apply Z.mod_pos_bound; lia).
    rewrite Z.div_div by lia. change (16 * 16) with 256.
    f_equal. f_equal. f_equal.
    rewrite !Z.mod_eq by lia. rewrite Z.div_div by lia. change (16 * 16) with 256. lia.
Qed.

Lemma be_bytes_befix : forall k fuel n acc,
    (S k <= fuel)%nat ->
    256 ^ Z.of_nat k <= n < 256 ^ Z.of_nat (S k) ->
    be_bytes fuel n acc = befix (S k) n acc.
Proof.
  induction k as [| k IH]; intros fuel n acc Hf Hn.
  - destruct fuel as [| f]; [lia |]. simpl in Hn. cbn [be_bytes befix].
    destruct (n =? 0) eqn:Hz; [apply Z.eqb_eq in Hz; lia |].
    assert (n / 256 = 0) as -> by (apply Z.div_small; lia).
    destruct f; reflexivity.
  - destruct fuel as [| f]; [lia |].
    assert (0 < 256 ^ Z.of_nat (S k)) by (apply Z.pow_pos_nonneg; lia).
    cbn [be_bytes]. destruct (n =? 0) eqn:Hz; [apply Z.eqb_eq in Hz; lia |].
    change (befix (S (S k)) n acc)
      with (befix (S k) (n / 256) (byte_of_Z (n mod 256) :: acc)).
    apply IH; [lia |].
    replace (Z.of_nat (S (S k))) with (Z.of_nat (S k) + 1) in Hn by lia.
    replace (Z.of_nat (S k)) with (Z.of_nat k + 1) in Hn at 1 by lia.
    rewrite !Z.pow_add_r in Hn by lia.
    split; [apply Z.div_le_lower_bound; lia | apply Z.div_lt_upper_bound; lia].
Qed.

(** The minimal encoding of a number with [2k - 1] or [2k] digits has [k] bytes. *)
Lemma minimalBigEndian_befix : forall k n,
    16 ^ (2 * Z.of_nat k - 2) <= n < 16 ^ (2 * Z.of_nat k) -> (0 < k)%nat ->
    minimalBigEndian n = befix k n [].
Proof.
  intros k n Hn Hk. destruct k as [| k]; [lia |].
  assert (0 < 16 ^ (2 * Z.of_nat (S k) - 2)) by (apply Z.pow_pos_nonneg; lia).
  unfold minimalBigEndian. apply be_bytes_befix.
  - pose proof (Z.log2_spec n ltac:(lia)) as [_ Hhi].
    pose proof (Z.log2_nonneg n).
    assert (2 ^ (8 * Z.of_nat k) <= n) as Hlo.
    { replace (8 * Z.of_nat k) with (4 * (2 * Z.of_nat (S k) - 2)) by lia.
      rewrite Z.pow_mul_r by lia. apply Hn. }
    assert (8 * Z.of_nat k < Z.succ (Z.log2 n)).
    { apply (Z.pow_lt_mono_r_iff 2); lia. }
    lia.
  - change 256 with (16 ^ 2). rewrite <- !Z.pow_mul_r by lia.
    replace (2 * Z.of_nat k) with (2 * Z.of_nat (S k) - 2) by lia.
    replace (2 * Z.of_nat (S k)) with (2 * Z.of_nat (S k)) by lia. exact Hn.
Qed.

Lemma even_or_odd : forall m : nat, exists k, m = (2 * k)%nat \/ m = S (2 * k).
Proof.
  induction m as [| m [k [-> | ->]]].
  - exists 0%nat. auto.
  - exists k. auto.
  - exists (S k). left. lia.
Qed.

Lemma Buffer_from_hex_toString16 : forall n, 0 <= n ->
    Buffer_from_hex (BigInt_toString16 n) =
    minimalBigEndian (if Nat.even (String.length (BigInt_toString16 n)) then n else n / 16).
Proof.
  intros n Hn. destruct (Z.eq_dec n 0) as [-> | Hz]; [reflexivity |].
  rewrite toString16_hexfix by lia. rewrite hexfix_length. cbn [String.length].
  rewrite Nat.add_0_r.
  pose proof (hexlen_spec n ltac:(lia)) as Hs.
  destruct (even_or_odd (hexlen n)) as [k [Hk | Hk]]; rewrite Hk in *.
  - rewrite Nat.even_mul. cbn [Nat.even orb].
    rewrite Buffer_from_hex_hexfix. cbn [Buffer_from_hex].
    assert (0 < k)%nat.
    { destruct k; [| lia]. simpl in Hs. lia. }
    symmetry. apply minimalBigEndian_befix; [| assumption].
    replace (Z.of_nat (2 * k)) with (2 * Z.of_nat k) in Hs by lia.
    split; [| lia].
    eapply Z.le_trans; [| apply Hs]. apply Z.pow_le_mono_r; lia.
  - rewrite Nat.even_succ, <- Nat.negb_even, Nat.even_mul. cbn [Nat.even orb negb].
    cbn [hexfix]. rewrite Buffer_from_hex_hexfix. cbn [Buffer_from_hex].
    destruct k as [| k].
    + simpl in Hs. rewrite Z.div_small by lia. reflexivity.
    + symmetry. apply minimalBigEndian_befix; [| lia].
      replace (Z.of_nat (S (2 * S k))) with (2 * Z.of_nat (S k) + 1) in Hs by lia.
      replace (2 * Z.of_nat (S k) + 1 - 1) with ((2 * Z.of_nat (S k) - 1) + 1) in Hs by lia.
      rewrite !Z.pow_add_r in Hs by lia.
      split.
      * apply Z.div_le_lower_bound; [lia |].
        replace (2 * Z.of_nat (S k) - 1) with ((2 * Z.of_nat (S k) - 2) + 1) in Hs by lia.
        rewrite Z.pow_add_r in Hs by lia. lia.
      * apply Z.div_lt_upper_bound; lia.
Qed.

(** X2: when the first hash minus one is not negative, the buffer that goes
    into the second hash is the minimal big-endian encoding of that number if
    its hexadecimal form has an even number of digits, and of that number
    divided by 16 if the number of digits is odd; in the even case the result
    of [calculateERC7201StorageLocation] is the slot of the minimal
    encoding. *)
Theorem buffer_of_the_second_hash : forall id,
    0 <= minusOne id ->
    let digits := BigInt_toString16 (minusOne id) in
    minusOneBuffer id =
    minimalBigEndian (if Nat.even (String.length digits)
                      then minusOne id else minusOne id / 16) /\
    (Nat.even (String.length digits) = true ->
     calculateERC7201StorageLocation id = storageLocationOfMinimalEncoding id).
Proof.
  intros id Hn digits.
  pose proof (Buffer_from_hex_toString16 (minusOne id) Hn) as H.
  fold digits in H. split; [exact H |].
  intros Heven. rewrite Heven in H.
  unfold calculateERC7201StorageLocation, storageLocationOfMinimalEncoding,
    padded, masked, secondHash.
  unfold minusOneBuffer. fold digits. rewrite H. reflexivity.
Qed.
End Hex2.

(* ------------------------------------------------------------------ *)
(** ** Namespace ids and annotations *)

Import Chars.

Lemma dotted_injective : forall p1 p2 c1 c2,
    noDot c1 = true -> noDot c2 = true ->
    (p1 ++ "." ++ c1 = p2 ++ "." ++ c2)%string -> p1 = p2 /\ c1 = c2.
Proof.
  induction p1 as [| a p1 IH]; intros [| b p2] c1 c2 H1 H2 H; simpl in H.
  - injection H as ->. auto.
  - injection H as <- ->. unfold noDot in H1. rewrite allChars_app in H1.
    simpl in H1. rewrite andb_false_r in H1. discriminate.
  - injection H as -> <-. unfold noDot in H2. rewrite allChars_app in H2.
    simpl in H2. rewrite andb_false_r in H2. discriminate.
  - injection H as -> H. destruct (IH p2 c1 c2 H1 H2 H) as [-> ->]. auto.
Qed.

Lemma dotted_has_dot : forall p c, noDot (p ++ "." ++ c)%string = false.
Proof.
  intros. unfold noDot. rewrite allChars_app. simpl. now rewrite andb_false_r.
Qed.

(** X3: [getNamespaceId] with a prefix loses nothing: when the contract
    names have no dot, two ids are equal only if the prefixes are equal and
    the contract names are equal. *)
Theorem namespace_id_determines_prefix_and_contract : forall p1 p2 c1 c2,
    noDot c1 = true -> noDot c2 = true ->
    getNamespaceId (Some p1) c1 = getNamespaceId (Some p2) c2 ->
    p1 = p2 /\ c1 = c2.
Proof.
  intros p1 p2 c1 c2 H1 H2. unfold getNamespaceId.
  destruct (String.eqb p1 "") eqn:E1; destruct (String.eqb p2 "") eqn:E2; intros H.
  - apply String.eqb_eq in E1, E2. subst. auto.
  - subst c1. rewrite dotted_has_dot in H1. discriminate.
  - subst c2. rewrite dotted_has_dot in H2. discriminate.
  - now apply dotted_injective.
Qed.

(** ** Regular expressions *)

Lemma startsWith_append : forall p s, JS.startsWith p (p ++ s)%string = true.
Proof. induction p; intros; simpl; [reflexivity | now rewrite Ascii.eqb_refl, IHp]. Qed.

Lemma drop_append : forall p s, JS.drop (String.length p) (p ++ s)%string = s.
Proof. induction p; intros; simpl; [now destruct s | apply IHp]. Qed.

Lemma search_here : forall lit m s cap,
    m s = Some cap -> JS.search lit m (lit ++ s)%string = Some cap.
Proof.
  intros lit m s cap H.
  destruct (lit ++ s)%string eqn:E; simpl;
    rewrite <- E, startsWith_append, drop_append, H; reflexivity.
Qed.

Lemma search_skip : forall lit m c s,
    JS.startsWith lit (String c s) = false ->
    JS.search lit m (String c s) = JS.search lit m s.
Proof. intros lit m c s H. cbn [JS.search]. now rewrite H. Qed.

(** A greedy run with nothing asked of what follows takes all the
    characters it accepts. *)
Lemma greedy_all : forall okc s,
    allChars okc s = true -> JS.greedy okc (fun _ => true) s = Some s.
Proof.
  induction s as [| c s IH]; intros H; simpl in *; [reflexivity |].
  apply andb_true_iff in H. destruct H as [Hc Hs]. now rewrite Hc, IH.
Qed.

(** A greedy run only takes characters it accepts. *)
Lemma greedy_accepts : forall okc follow s cap,
    JS.greedy okc follow s = Some cap -> allChars okc cap = true.
Proof.
  induction s as [| c s IH]; intros cap H; simpl in H.
  - destruct (follow ""); [injection H as <-; reflexivity | discriminate].
  - destruct (okc c) eqn:Hc.
    + destruct (JS.greedy okc follow s) as [cap' |] eqn:Hg.
      * injection H as <-. simpl. now rewrite Hc, (IH cap').
      * destruct (follow (String c s)); [injection H as <-; reflexivity | discriminate].
    + destruct (follow (String c s)); [injection H as <-; reflexivity | discriminate].
Qed.

Lemma search_found : forall lit m s cap,
    JS.search lit m s = Some cap -> exists r, m r = Some cap.
Proof.
  induction s as [| c s IH]; intros cap H; cbn [JS.search] in H.
  - destruct (JS.startsWith lit ""); [| discriminate].
    destruct (m (JS.drop (String.length lit) "")) eqn:E; [| discriminate].
    injection H as <-. eauto.
  - destruct (if JS.startsWith lit (String c s) then _ else None) eqn:E.
    + injection H as <-. destruct (JS.startsWith lit (String c s)); [eauto | discriminate].
    + eauto.
Qed.

Lemma nonempty_some : forall o cap, JS.nonempty o = Some cap -> o = Some cap.
Proof. intros [[| c s] |] cap H; simpl in H; congruence. Qed.

(* ------------------------------------------------------------------ *)
(** ** The data of the diagnostics *)

Import Wire.

Lemma greedy_prefix : forall okc follow s r cap,
    allChars okc s = true ->
    JS.greedy okc follow r = Some cap ->
    JS.greedy okc follow (s ++ r)%string = Some (s ++ cap)%string.
Proof.
  induction s as [| c s IH]; intros r cap H Hr; simpl in *; [assumption |].
  apply andb_true_iff in H. destruct H as [Hc Hs]. now rewrite Hc, (IH r cap Hs Hr).
Qed.

Lemma append_empty : forall s, (s ++ "")%string = s.
Proof. induction s; simpl; [reflexivity | now rewrite IHs]. Qed.

Lemma formula_comment_matches : forall id,
    oneLine id = true -> JS.match_formula (formulaComment id) = Some id.
Proof.
  intros id H. unfold JS.match_formula, formulaComment.
  set (tail := (JS.dquote ++ ")) - 1)) & ~bytes32(uint256(0xff))")%string).
  change ("// keccak256(abi.encode(uint256(keccak256(" ++ JS.dquote ++ id ++ tail)%string
    with (String "/" (String "/" (String " "
            (("keccak256(abi.encode(uint256(keccak256(" ++ JS.dquote) ++ (id ++ tail)))))%string.
  rewrite !search_skip by reflexivity.
  apply search_here.
  rewrite (greedy_prefix _ _ id tail "" H) by (vm_compute; reflexivity).
  now rewrite append_empty.
Qed.

Section Pass.
Variable language : Language.
Variable variableLanguage : Language.
Variable namespacePrefix : string.
Variable relatedInfo : bool.
Variable getLastPrecedingTriviaWithKinds : Cursor -> list TerminalKind -> option Trivia.
Local Abbreviation validateStruct := (validateStruct namespacePrefix relatedInfo).
Local Abbreviation checkComment := (checkComment namespacePrefix relatedInfo).
Local Abbreviation validateCommentAndHash :=
  (validateCommentAndHash namespacePrefix relatedInfo getLastPrecedingTriviaWithKinds).
Local Abbreviation commentAndHashLoop :=
  (commentAndHashLoop namespacePrefix relatedInfo getLastPrecedingTriviaWithKinds).
Local Abbreviation validateNamespaceCommentAndHash :=
  (validateNamespaceCommentAndHash namespacePrefix relatedInfo getLastPrecedingTriviaWithKinds).
Local Abbreviation validateNamespaceStructAnnotation :=
  (validateNamespaceStructAnnotation namespacePrefix relatedInfo).
Local Abbreviation validateNamespaceableContract :=
  (validateNamespaceableContract relatedInfo).
Local Abbreviation validateNamespaceableVariables :=
  (validateNamespaceableVariables variableLanguage relatedInfo).
Local Abbreviation variableDiagnostics := (variableDiagnostics variableLanguage relatedInfo).
Local Abbreviation variableEntries := (variableEntries variableLanguage relatedInfo).
Local Abbreviation validateContract :=
  (validateContract language variableLanguage namespacePrefix relatedInfo
                    getLastPrecedingTriviaWithKinds).
Local Abbreviation validateNamespaces :=
  (validateNamespaces language variableLanguage namespacePrefix relatedInfo
                      getLastPrecedingTriviaWithKinds).

(** X6: the comment and the hash the quick fixes write are accepted.  When
    the comment before a state variable is the formula comment of the
    expected namespace id (an id without line terminators), [checkComment]
    adds no diagnostic and takes the hash of the expected id as the hash of
    the comment; if moreover the initializer has that hash,
    [validateNamespaceCommentAndHash] adds no diagnostic for the variable. *)
Theorem replaced_comment_and_hash_are_accepted :
  forall contractDef spawnedCursor ds comment,
    let expected := getExpectedNamespaceId namespacePrefix contractDef in
    getLastPrecedingTriviaWithKinds spawnedCursor [SingleLineComment; MultiLineComment]
    = Some comment ->
    trivia_text comment = formulaComment expected ->
    oneLine expected = true ->
    checkComment contractDef (Some comment) ds
    = (ds, Some (calculateERC7201StorageLocation expected), false) /\
    (JS.includes (unparse (node (initializerCursor spawnedCursor)))
                 (calculateERC7201StorageLocation expected) = true ->
     fst (validateCommentAndHash contractDef spawnedCursor ds) = ds).
Proof.
  intros contractDef c ds comment expected Hcomment Htext Hline.
  assert (checkComment contractDef (Some comment) ds
          = (ds, Some (calculateERC7201StorageLocation expected), false)) as Hcheck.
  { unfold Diagnostics.checkComment. rewrite Htext, formula_comment_matches by exact Hline.
    fold expected. now rewrite String.eqb_refl. }
  split; [exact Hcheck |].
  intros Hincl. unfold Diagnostics.validateCommentAndHash.
  rewrite Hcomment, Hcheck.
  destruct (nameLooksLikeLocation _); [| reflexivity].
  fold (initializerCursor c).
  destruct (node (initializerCursor c)) as [k t | k cs] eqn:Hnode; [reflexivity |].
  fold expected. rewrite Hincl.
  cbn [negb optEqb]. rewrite String.eqb_refl. reflexivity.
Qed.

(** ** What the passes add does not depend on what was there *)

Lemma independent_fold : forall (A : Type) (body : A -> list Diagnostic -> list Diagnostic) l,
    (forall x, independent (body x)) ->
    forall ds, fold_left (fun s x => body x s) l ds = ds ++ flat_map (fun x => body x []) l.
Proof.
  intros A body l Hb. induction l as [| x l IH]; intros ds; simpl.
  - now rewrite app_nil_r.
  - rewrite IH, (Hb x ds). now rewrite <- app_assoc.
Qed.

Lemma validateStruct_independent : forall contractDef c,
    independent (validateStruct contractDef c).
Proof.
  intros contractDef c ds. unfold Diagnostics.validateStruct.
  destruct (natSpecTerminal c) as [natSpec |]; [| now rewrite app_nil_r].
  destruct (if TerminalKind_beq _ _ then _ else _) as [m |]; [| now rewrite app_nil_r].
  destruct (negb _); [reflexivity | now rewrite app_nil_r].
Qed.

Lemma checkComment_independent : forall contractDef comment ds,
    checkComment contractDef comment ds =
    (ds ++ fst (fst (checkComment contractDef comment [])),
     snd (fst (checkComment contractDef comment [])),
     snd (checkComment contractDef comment [])).
Proof.
  intros contractDef comment ds. unfold Diagnostics.checkComment.
  destruct comment as [comment |]; [| now rewrite app_nil_r].
  destruct (JS.match_formula _) as [m |]; [| now rewrite app_nil_r].
  destruct (negb _); [reflexivity | now rewrite app_nil_r].
Qed.

Lemma validateCommentAndHash_independent : forall contractDef c ds,
    validateCommentAndHash contractDef c ds =
    (ds ++ fst (validateCommentAndHash contractDef c []),
     snd (validateCommentAndHash contractDef c [])).
Proof.
  intros contractDef c ds. unfold Diagnostics.validateCommentAndHash.
  rewrite (checkComment_independent contractDef _ ds).
  destruct (checkComment contractDef _ []) as [[a0 fromComment] unexpected]. cbn [fst snd].
  destruct (nameLooksLikeLocation _); [| reflexivity].
  destruct (node _) as [k t | k cs]; [reflexivity |].
  cbn [fst snd].
  destruct fromComment as [h |];
    [destruct (negb (JS.includes _ h)) |];
    destruct (negb unexpected && _ && _);
    unfold Diagnostics.addDiagnostic, Server.addDiagnostic;
    rewrite <- ?app_assoc; reflexivity.
Qed.

Lemma commentAndHashLoop_independent : forall contractDef fuel c,
    independent (commentAndHashLoop fuel contractDef c).
Proof.
  intros contractDef. induction fuel as [| fuel IH]; intros c ds; simpl.
  - now rewrite app_nil_r.
  - destruct (goToNextNonterminalWithKind StateVariableDefinition c) as [[|] c1];
      [| now rewrite app_nil_r].
    rewrite (validateCommentAndHash_independent contractDef c1 ds).
    destruct (validateCommentAndHash contractDef c1 []) as [a1 c2]. cbn [fst snd].
    rewrite (IH c2 (ds ++ a1)), (IH c2 a1). now rewrite app_assoc.
Qed.

Lemma validateContract_independent : forall cursor, independent (validateContract cursor).
Proof.
  intros cursor ds. unfold Diagnostics.validateContract.
  destruct (negb (isValid _)); [now rewrite app_nil_r |].
  set (upg := inferUpgradeable cursor (node cursor)).
  assert (forall ds,
             (if upg then
                validateNamespaceCommentAndHash cursor (node cursor)
                  (validateNamespaceStructAnnotation cursor (node cursor) ds)
              else ds) =
             ds ++ (if upg then
                      validateNamespaceCommentAndHash cursor (node cursor)
                        (validateNamespaceStructAnnotation cursor (node cursor) [])
                    else [])) as Hgated.
  { intros ds0. destruct upg; [| now rewrite app_nil_r].
    unfold Diagnostics.validateNamespaceCommentAndHash,
      Diagnostics.validateNamespaceStructAnnotation.
    rewrite !forEachNext_fold.
    rewrite !(independent_fold _ (validateStruct (node cursor)))
      by (intros x; apply validateStruct_independent).
    cbn [app].
    set (structs := flat_map _ _).
    rewrite (commentAndHashLoop_independent _ _ _ (ds0 ++ structs)).
    rewrite (commentAndHashLoop_independent _ _ _ structs).
    now rewrite <- app_assoc. }
  rewrite Hgated. rewrite (Hgated []). cbn [app].
  rewrite !(validateNamespaceableVariables_app variableLanguage relatedInfo).
  unfold Diagnostics.validateNamespaceableContract. cbn [nc_variables nc_name].
  destruct (0 <? _)%nat; unfold Diagnostics.addDiagnostic, Server.addDiagnostic;
    rewrite <- ?app_assoc; reflexivity.
Qed.


(** ** The data fit the codes *)

Lemma checkComment_fits : forall contractDef comment,
    Forall (fun d => fitsItsCode d = true) (fst (fst (checkComment contractDef comment []))).
Proof.
  intros contractDef comment. unfold Diagnostics.checkComment.
  destruct comment as [comment |]; [| constructor].
  destruct (JS.match_formula _) as [m |]; [| constructor].
  destruct (negb _); repeat constructor.
Qed.

Lemma validateCommentAndHash_fits : forall contractDef c,
    Forall (fun d => fitsItsCode d = true) (fst (validateCommentAndHash contractDef c [])).
Proof.
  intros contractDef c. unfold Diagnostics.validateCommentAndHash.
  pose proof (checkComment_fits contractDef
                (getLastPrecedingTriviaWithKinds c [SingleLineComment; MultiLineComment])) as H0.
  destruct (checkComment contractDef _ []) as [[a0 fromComment] unexpected]. cbn [fst snd] in *.
  destruct (nameLooksLikeLocation _); [| exact H0].
  destruct (node _) as [k t | k cs]; [exact H0 |].
  cbn [fst].
  destruct fromComment as [h |];
    [destruct (negb (JS.includes _ h)) |];
    destruct (negb unexpected && _ && _);
    unfold Diagnostics.addDiagnostic, Server.addDiagnostic;
    repeat (apply Forall_app; split); try exact H0; repeat constructor.
Qed.

Lemma commentAndHashLoop_fits : forall contractDef fuel c,
    Forall (fun d => fitsItsCode d = true) (commentAndHashLoop fuel contractDef c []).
Proof.
  intros contractDef. induction fuel as [| fuel IH]; intros c; simpl.
  - constructor.
  - destruct (goToNextNonterminalWithKind StateVariableDefinition c) as [[|] c1];
      [| constructor].
    pose proof (validateCommentAndHash_fits contractDef c1) as H1.
    destruct (validateCommentAndHash contractDef c1 []) as [a1 c2]. cbn [fst] in H1.
    rewrite commentAndHashLoop_independent. apply Forall_app. split; [exact H1 | apply IH].
Qed.

Lemma validateStruct_fits : forall contractDef c,
    Forall (fun d => fitsItsCode d = true) (validateStruct contractDef c []).
Proof.
  intros contractDef c. unfold Diagnostics.validateStruct.
  destruct (natSpecTerminal c) as [natSpec |]; [| constructor].
  destruct (if TerminalKind_beq _ _ then _ else _) as [m |]; [| constructor].
  destruct (negb _); repeat constructor.
Qed.

Lemma variableDiagnostics_fit : forall skip c,
    Forall (fun d => fitsItsCode d = true) (variableDiagnostics skip c).
Proof.
  intros skip c. unfold Diagnostics.variableDiagnostics, Diagnostics.validateVariable.
  destruct (scanAttributes _ _) as [ignore replacement].
  destruct ignore; [constructor |].
  destruct (StateVariableDefinition.value _); destruct skip; simpl; repeat constructor.
Qed.

Lemma validateContract_fits : forall cursor,
    Forall (fun d => fitsItsCode d = true) (validateContract cursor []).
Proof.
  intros cursor. unfold Diagnostics.validateContract.
  destruct (negb (isValid _)); [constructor |].
  set (upg := inferUpgradeable cursor (node cursor)).
  assert (Forall (fun d => fitsItsCode d = true)
            (if upg then
               validateNamespaceCommentAndHash cursor (node cursor)
                 (validateNamespaceStructAnnotation cursor (node cursor) [])
             else [])) as Hgated.
  { destruct upg; [| constructor].
    unfold Diagnostics.validateNamespaceCommentAndHash,
      Diagnostics.validateNamespaceStructAnnotation.
    rewrite commentAndHashLoop_independent. apply Forall_app. split.
    - rewrite forEachNext_fold.
      rewrite (independent_fold _ (validateStruct (node cursor)))
        by (intros x; apply validateStruct_independent).
      cbn [app]. apply flat_map_Forall. intros x. apply validateStruct_fits.
    - apply commentAndHashLoop_fits. }
  rewrite (validateNamespaceableVariables_app variableLanguage relatedInfo).
  cbn [nc_name nc_variables app].
  assert (Forall (fun d => fitsItsCode d = true)
            (flat_map (variableDiagnostics (negb upg)) (stateVariableCursors cursor))) as Hvars.
  { apply flat_map_Forall. intros x. apply variableDiagnostics_fit. }
  unfold Diagnostics.validateNamespaceableContract. cbn [nc_variables].
  destruct (0 <? List.length _)%nat eqn:Hlen.
  - unfold Diagnostics.addDiagnostic, Server.addDiagnostic.
    repeat (apply Forall_app; split); try assumption.
    constructor; [| constructor].
    unfold fitsItsCode. cbn [code data nc_variables isReplacementCode].
    rewrite Hlen. reflexivity.
  - apply Forall_app. split; assumption.
Qed.

(** X7: every diagnostic of [validateNamespaces] carries the data the quick
    fix of its code reads: a replacement text for the four mismatch codes, a
    contract with at least one variable for [ContractCanBeNamespaced], no data
    for the two diagnostics of a single variable. *)
Theorem data_of_the_analysis_fit_the_codes : forall parseOutput,
    Forall (fun d => fitsItsCode d = true) (validateNamespaces parseOutput []).
Proof.
  intros parseOutput. unfold Diagnostics.validateNamespaces.
  rewrite forEachNext_fold.
  rewrite (independent_fold _ validateContract) by apply validateContract_independent.
  cbn [app]. apply flat_map_Forall. intros cursor. apply validateContract_fits.
Qed.
End Pass.

(* ------------------------------------------------------------------ *)
(** ** The quick fixes *)

Import Fixes.

Section Request.
Variable language : NonterminalKind -> string -> ParseOutput.
Variable namespacePrefix : string.
Variable documentText : string.
Local Abbreviation tryLoop := (tryLoop language namespacePrefix documentText).
Local Abbreviation codeActionsFor := (codeActionsFor language namespacePrefix documentText).
Local Abbreviation getCodeActions := (getCodeActions language namespacePrefix documentText).

Lemma codeActionsFor_fitting : forall all d acts,
    fitsItsCode d = true -> notContractLevel d ->
    exists acts',
      codeActionsFor all d acts = Ok acts' /\
      map edit acts' = map edit acts ++ replacementFixes d /\
      map diagnostics acts' =
      map diagnostics acts ++ map (fun _ => [d]) (replacementFixes d).
Proof.
  intros all d acts Hfit Hnot.
  unfold fitsItsCode, replacementFixes in *. unfold notContractLevel, hasCode in Hnot.
  unfold CodeActions.codeActionsFor, isReplacementCode in *.
  destruct (String.eqb (code d) NAMESPACE_ID_MISMATCH) eqn:E1;
    [destruct (data d); try discriminate; cbn;
     eexists; split; [reflexivity | rewrite !map_app; split; reflexivity] |].
  destruct (String.eqb (code d) NAMESPACE_ID_MISMATCH_HASH_COMMENT) eqn:E2;
    [destruct (data d); try discriminate; cbn;
     eexists; split; [reflexivity | rewrite !map_app; split; reflexivity] |].
  destruct (String.eqb (code d) NAMESPACE_HASH_MISMATCH) eqn:E3;
    [destruct (data d); try discriminate; cbn;
     eexists; split; [reflexivity | rewrite !map_app; split; reflexivity] |].
  destruct (String.eqb (code d) NAMESPACE_STANDALONE_HASH_MISMATCH) eqn:E4;
    [destruct (data d); try discriminate; cbn;
     eexists; split; [reflexivity | rewrite !map_app; split; reflexivity] |].
  rewrite Hnot. cbn [orb]. exists acts. rewrite !app_nil_r. auto.
Qed.

(** X8: on diagnostics that carry the data of their codes, none of them
    [ContractCanBeNamespaced], [getCodeActions] does not throw: it returns, in
    the order of the diagnostics, one quick fix per diagnostic with a mismatch
    code, whose single edit replaces the range of the diagnostic by its
    replacement and which names that diagnostic alone, and nothing for the
    other diagnostics. *)
Theorem replacement_fixes_of_fitting_diagnostics : forall ds,
    Forall (fun d => fitsItsCode d = true) ds ->
    Forall notContractLevel ds ->
    map edit (getCodeActions ds) = flat_map replacementFixes ds /\
    map diagnostics (getCodeActions ds) =
    flat_map (fun d => map (fun _ => [d]) (replacementFixes d)) ds.
Proof.
  intros ds Hfit Hnot. unfold CodeActions.getCodeActions.
  assert (forall todo acts,
             Forall (fun d => fitsItsCode d = true) todo ->
             Forall notContractLevel todo ->
             exists acts',
               tryLoop ds todo acts = (acts', None) /\
               map edit acts' = map edit acts ++ flat_map replacementFixes todo /\
               map diagnostics acts' =
               map diagnostics acts ++
               flat_map (fun d => map (fun _ => [d]) (replacementFixes d)) todo) as Hloop.
  { induction todo as [| d todo IH]; intros acts Hf Hn.
    - exists acts. cbn. now rewrite !app_nil_r.
    - inversion Hf as [| ? ? Hd Hf']; subst. inversion Hn as [| ? ? Hnd Hn']; subst.
      destruct (codeActionsFor_fitting ds d acts Hd Hnd) as [acts1 [H1 [H2 H3]]].
      destruct (IH acts1 Hf' Hn') as [acts2 [H4 [H5 H6]]].
      exists acts2. cbn [CodeActions.tryLoop flat_map]. rewrite H1, H4.
      rewrite H5, H2, H6, H3, <- !app_assoc. auto. }
  destruct (Hloop ds [] Hfit Hnot) as [acts' [-> [H1 H2]]]. cbn [fst]. auto.
Qed.
End Request.

(** ** The move into an existing namespace *)

Lemma editExistingNamespace_edits : forall variables edits structEndRange,
    editExistingNamespace variables edits structEndRange =
    edits ++ flat_map (moveIntoStruct structEndRange) variables.
Proof.
  intros variables edits r. unfold editExistingNamespace. revert edits.
  induction variables as [| v vs IH]; intros edits; cbn [fold_left flat_map].
  - now rewrite app_nil_r.
  - rewrite IH. now rewrite <- app_assoc.
Qed.

Lemma nonOverlapping_app : forall l1 l2,
    nonOverlapping (l1 ++ l2) = true -> nonOverlapping l2 = true.
Proof.
  induction l1 as [| e l1 IH]; intros l2 H; simpl in H; [assumption |].
  apply andb_true_iff in H. apply IH, H.
Qed.

(** X10: whenever an existing namespace struct is found, the end range is
    not empty and there are two variables or more, the edits of
    [editExistingNamespace] overlap, whatever edits come before them: each
    variable adds an edit on the same range of the closing brace. *)
Theorem existing_namespace_with_two_variables_overlaps :
  forall variables edits structEndRange,
    (2 <= List.length variables)%nat ->
    (text_start structEndRange < text_end structEndRange)%nat ->
    nonOverlapping (editExistingNamespace variables edits structEndRange) = false.
Proof.
  intros variables edits r Hlen Hrange.
  destruct variables as [| v1 [| v2 vs]]; simpl in Hlen; try lia.
  rewrite editExistingNamespace_edits.
  destruct (nonOverlapping _) eqn:H; [| reflexivity].
  apply nonOverlapping_app in H. cbn [flat_map moveIntoStruct app] in H.
  cbn [nonOverlapping forallb] in H.
  apply andb_true_iff in H. destruct H as [_ H].
  apply andb_true_iff in H. destruct H as [H _].
  apply andb_true_iff in H. destruct H as [_ H].
  apply andb_true_iff in H. destruct H as [H _].
  unfold intersect in H. cbn [edit_range slangToVSCodeRange range_start range_end] in H.
  apply Nat.ltb_lt in Hrange. rewrite Hrange in H. discriminate.
Qed.

(** ** The rewrites of the identifiers *)

Lemma replaceVariables_fold' : forall variables cs (b : bool) edits,
    fold_left
      (fun (st : bool * list TextEdit) identifierCursor =>
         if isNamespaced variables (text (node identifierCursor)) then
           (true,
            snd st ++
            [ {| edit_range := slangToVSCodeRange (textRange identifierCursor);
                 newText := ("$." ++ text (node identifierCursor))%string |} ])
         else st)
      cs (b, edits)
    = (b || existsb (namesVariable variables) cs,
       edits ++ map rewriteOf (filter (namesVariable variables) cs)).
Proof.
  intros variables. induction cs as [| c cs IH]; intros b edits; cbn [fold_left].
  - cbn. now rewrite orb_false_r, app_nil_r.
  - cbn [existsb filter]. unfold namesVariable at 1 3.
    destruct (isNamespaced variables (text (node c))); cbn [snd].
    + rewrite IH. cbn [map orb]. rewrite orb_true_r, <- app_assoc. reflexivity.
    + destruct b; apply IH.
Qed.

(** X13: [replaceVariables] visits the identifiers below the block in the
    order of the text; it adds one edit, [$.] and the name on the range of
    the identifier, for each identifier named like one of the variables and
    none for the others, and answers whether there was such an identifier. *)
Theorem every_identifier_named_like_a_variable_is_rewritten :
  forall blockCursor variables edits,
    let identifiers := cursorsNext (hasTerminalKind Identifier) (spawn blockCursor) in
    replaceVariables blockCursor variables edits =
    (existsb (namesVariable variables) identifiers,
     edits ++ map rewriteOf (filter (namesVariable variables) identifiers)).
Proof.
  intros blockCursor variables edits identifiers. unfold replaceVariables.
  rewrite forEachNext_fold. apply (replaceVariables_fold' variables identifiers false).
Qed.

(** ** The quick fix without variables or without its contract *)

Lemma visited_satisfy : forall p rt aft bef,
    Forall (fun c => p (node c) = true) (visited p rt bef aft).
Proof.
  induction aft as [| it aft IH]; intros bef; simpl; [constructor |].
  destruct (p (item_node it)) eqn:Hp; [constructor; [exact Hp |] |]; apply IH.
Qed.

Lemma cursorsNext_satisfy : forall p c,
    Forall (fun c' => p (node c') = true) (cursorsNext p c).
Proof.
  intros p c. unfold cursorsNext. destruct (is_completed c); [constructor |].
  apply visited_satisfy.
Qed.

Lemma editFunction_without_variables : forall contractName cursor edits,
    hasNonterminalKinds [ConstructorDefinition; FunctionDefinition] (node cursor) = true ->
    editFunction contractName [] cursor edits = Ok edits.
Proof.
  intros contractName cursor edits H.
  destruct (findBlock_onNonterminal cursor H) as [Hnode _].
  unfold editFunction.
  destruct (node (findBlock cursor)) as [k t | k cs]; [discriminate |].
  unfold replaceVariables. rewrite forEachNext_fold, replaceVariables_fold'.
  assert (forall l, existsb (namesVariable []) l = false) as He
      by (intros l; induction l; simpl; auto).
  assert (forall l, filter (namesVariable []) l = []) as Hf
      by (intros l; induction l; simpl; auto).
  rewrite He, Hf. cbn. now rewrite app_nil_r.
Qed.

Lemma editNamespaceVariablesInFunctions_without_variables :
  forall contractCursor contractName edits,
    editNamespaceVariablesInFunctions contractCursor contractName [] edits = Ok edits.
Proof.
  intros contractCursor contractName edits.
  unfold editNamespaceVariablesInFunctions. rewrite forEachNext_fold.
  pose proof (cursorsNext_satisfy
                (hasNonterminalKinds [ConstructorDefinition; FunctionDefinition])
                (spawn contractCursor)) as Hall.
  induction Hall as [| c cs Hc _ IH]; cbn [fold_left]; [reflexivity |].
  cbn [bind]. rewrite editFunction_without_variables by exact Hc. exact IH.
Qed.

Section QuickFix.
Variable language : NonterminalKind -> string -> ParseOutput.
Local Abbreviation visitContract := (visitContract language).
Local Abbreviation getMoveAllVariablesToNamespaceQuickFix :=
  (getMoveAllVariablesToNamespaceQuickFix language).

(** X11: with an empty list of variables
    [getMoveAllVariablesToNamespaceQuickFix] returns no quick fix and does
    not throw, whatever the document and the contract name are. *)
Theorem no_variables_no_fix : forall fixesDiagnostics title prefix contractName documentText,
    getMoveAllVariablesToNamespaceQuickFix fixesDiagnostics title prefix contractName []
                                           documentText = Ok None.
Proof.
  intros fixesDiagnostics title prefix contractName documentText.
  unfold Quickfixes.getMoveAllVariablesToNamespaceQuickFix. rewrite forEachNext_fold.
  assert (forall cs st, edits st = Ok [] ->
             edits (fold_left (fun s c => visitContract prefix contractName [] c s) cs st)
             = Ok []) as Hinv.
  { induction cs as [| c cs IH]; intros st Hst; cbn [fold_left]; [exact Hst |].
    apply IH. unfold Quickfixes.visitContract.
    destruct (found st); [exact Hst |].
    destruct (negb (isValid _)); [exact Hst |].
    destruct (negb (String.eqb _ _)); [exact Hst |].
    cbn [edits]. rewrite Hst. cbn [bind].
    apply editNamespaceVariablesInFunctions_without_variables. }
  rewrite Hinv by reflexivity. reflexivity.
Qed.

(** X12: when no valid contract definition of the document has the name of
    the diagnostic, [getMoveAllVariablesToNamespaceQuickFix] still returns a
    quick fix: the template of a new namespace on the range of the first
    variable and the deletion of the ranges of the other variables, as the
    diagnostic carries them, and no edit in any function. *)
Theorem fix_without_its_contract :
  forall fixesDiagnostics title prefix contractName v0 rest documentText,
    Forall (fun cursor =>
              isValid (language ContractDefinition (unparse (node cursor))) = false \/
              ContractDefinition.name_text (node cursor) <> contractName)
           (cursorsNext (hasNonterminalKind ContractDefinition)
                        (createTreeCursor (tree (language SourceUnit documentText)))) ->
    getMoveAllVariablesToNamespaceQuickFix fixesDiagnostics title prefix contractName
                                           (v0 :: rest) documentText
    = Ok (Some {| title := title;
                  edit :=
                    {| edit_range := Namespace.range v0;
                       newText :=
                         printNamespaceTemplate
                           {| Namespace.contractName := contractName;
                              Namespace.prefix := Some prefix;
                              Namespace.variables := Some (v0 :: rest) |} indent |}
                    :: map (fun variable =>
                              {| edit_range := Namespace.range variable; newText := "" |})
                           rest;
                  diagnostics := fixesDiagnostics |}).
Proof.
  intros fixesDiagnostics title prefix contractName v0 rest documentText Hall.
  unfold Quickfixes.getMoveAllVariablesToNamespaceQuickFix. rewrite forEachNext_fold.
  set (st0 := {| found := false; namespaceStructEndRange := None; edits := Ok [] |}).
  assert (fold_left (fun s c => visitContract prefix contractName (v0 :: rest) c s)
            (cursorsNext (hasNonterminalKind ContractDefinition)
               (createTreeCursor (tree (language SourceUnit documentText)))) st0 = st0) as ->.
  { induction Hall as [| c cs Hc _ IH]; cbn [fold_left]; [reflexivity |].
    assert (visitContract prefix contractName (v0 :: rest) c st0 = st0) as ->; [| exact IH].
    unfold Quickfixes.visitContract. cbn [found st0].
    change (node (spawn c)) with (node c).
    destruct Hc as [Hc | Hc].
    - now rewrite Hc.
    - destruct (negb (isValid _)); [reflexivity |].
      apply String.eqb_neq in Hc. now rewrite Hc. }
  reflexivity.
Qed.
End QuickFix.

(* ------------------------------------------------------------------ *)
(** ** Ranges and eligible variables *)

Import Scope.

Lemma concat_length : forall l,
    String.length (String.concat "" l) = list_sum (map String.length l).
Proof.
  induction l as [| x l IH]; [reflexivity |].
  change (list_sum (map String.length (x :: l)))
    with (String.length x + list_sum (map String.length l))%nat.
  rewrite <- IH.
  destruct l as [| y l]; cbn [String.concat].
  - simpl. lia.
  - rewrite string_length_app. cbn [append]. reflexivity.
Qed.

Lemma preorder_bounds : forall n off,
    Forall (fun it => (off <= item_offset it)%nat /\
                      (item_offset it + String.length (unparse (item_node it))
                       <= off + String.length (unparse n))%nat)
           (preorder n off).
Proof.
  induction n as [k t | k cs IH] using Node_ind'; intros off.
  - repeat constructor.
  - cbn [preorder]. constructor; [cbn; lia |].
    cbn [unparse]. rewrite concat_length.
    revert off. induction IH as [| c cs' Hc _ IHcs]; intros off; [constructor |].
    change (list_sum (map String.length (map unparse (c :: cs'))))
      with (String.length (unparse c) + list_sum (map String.length (map unparse cs')))%nat.
    apply Forall_app. split.
    + eapply Forall_impl; [| apply Hc]. cbn beta. intros it [H1 H2]. lia.
    + eapply Forall_impl; [| apply IHcs]. cbn beta. intros it [H1 H2]. lia.
Qed.

Lemma spawn_inScope : forall c, everyItem (inScope (root (spawn c))) (spawn c).
Proof.
  intros c. unfold everyItem, spawn, cursorAt. cbn [root current before after].
  split; [split; lia |]. split; [split; lia |]. split; [constructor |].
  pose proof (preorder_bounds (item_node (current c)) (item_offset (current c))) as H.
  destruct (preorder _ _) as [| it items]; [constructor |].
  inversion H as [| ? ? _ Hitems]; subst. cbn [tl].
  eapply Forall_impl; [| exact Hitems]. intros it' [H1 H2].
  unfold inScope, item_range. cbn [text_start text_end item_offset item_node]. lia.
Qed.

Lemma seek_split : forall p a b b' it a',
    seek p b a = Some (b', it, a') ->
    exists skipped,
      a = skipped ++ it :: a' /\ b' = rev skipped ++ b /\
      Forall (fun x => p (item_node x) = false) skipped /\ p (item_node it) = true.
Proof.
  induction a as [| x a IH]; intros b b' it a' H; simpl in H; [discriminate |].
  destruct (p (item_node x)) eqn:Hp.
  - injection H as <- <- <-. exists []. auto.
  - destruct (IH _ _ _ _ H) as [skipped [-> [-> [Hs Hit]]]].
    exists (x :: skipped). cbn [rev app]. rewrite <- app_assoc. auto.
Qed.

Lemma seek_items : forall (Q : Item -> Prop) p a b b' it a',
    seek p b a = Some (b', it, a') ->
    Forall Q b -> Forall Q a -> Forall Q b' /\ Q it /\ Forall Q a'.
Proof.
  intros Q p a b b' it a' H Hb Ha.
  destruct (seek_split _ _ _ _ _ _ H) as [skipped [-> [-> _]]].
  apply Forall_app in Ha. destruct Ha as [Hs Ha]. inversion Ha; subst.
  repeat split; try assumption. apply Forall_app. split; [now apply Forall_rev | assumption].
Qed.

Lemma complete_every : forall Q c, everyItem Q c -> everyItem Q (complete c).
Proof.
  intros Q c [Hr _]. unfold everyItem, complete. cbn [root current before after]. auto.
Qed.

Lemma goToNextWith_every : forall Q p c,
    everyItem Q c ->
    everyItem Q (snd (goToNextWith p c)) /\ root (snd (goToNextWith p c)) = root c.
Proof.
  intros Q p c Hc. unfold goToNextWith.
  destruct (is_completed c); [auto |].
  destruct (seek p (current c :: before c) (after c)) as [[[b it] a] |] eqn:Hs.
  - destruct Hc as [H0 [H1 [H2 H3]]].
    destruct (seek_items Q _ _ _ _ _ _ Hs (Forall_cons _ H1 H2) H3) as [Hb [Hit Ha]].
    cbn [snd]. split; [repeat split; assumption | reflexivity].
  - cbn [snd]. split; [now apply complete_every | reflexivity].
Qed.

Lemma seekBack_items : forall (Q : Item -> Prop) here cands i skipped b it skipped',
    seekBack here i skipped cands = Some (b, it, skipped') ->
    Forall Q cands -> Forall Q skipped -> Forall Q b /\ Q it /\ Forall Q skipped'.
Proof.
  induction cands as [| x cands IH]; intros i skipped b it skipped' H Hc Hs; simpl in H;
    [discriminate |].
  inversion Hc as [| ? ? Hx Hc']; subst.
  destruct (here <? i - 1 + size (item_node x))%nat.
  - eapply IH; eauto.
  - injection H as <- <- <-. auto.
Qed.

Lemma goToPrevious_every : forall Q c,
    everyItem Q c ->
    everyItem Q (snd (goToPrevious c)) /\ root (snd (goToPrevious c)) = root c.
Proof.
  intros Q c Hc. unfold goToPrevious.
  destruct (is_completed c); [auto |].
  destruct (seekBack _ _ [] (before c)) as [[[b it] skipped] |] eqn:Hs.
  - destruct Hc as [H0 [H1 [H2 H3]]].
    destruct (seekBack_items Q _ _ _ _ _ _ _ Hs H2 (Forall_nil _)) as [Hb [Hit Hsk]].
    cbn [snd]. split; [| reflexivity].
    repeat split; try assumption.
    cbn [after]. apply Forall_app. split; [assumption | constructor; assumption].
  - cbn [snd]. split; [now apply complete_every | reflexivity].
Qed.

Lemma goToLastTerminalFrom_every : forall Q fuel c,
    everyItem Q c ->
    everyItem Q (goToLastTerminalFrom fuel c) /\ root (goToLastTerminalFrom fuel c) = root c.
Proof.
  intros Q. induction fuel as [| fuel IH]; intros c Hc; cbn [goToLastTerminalFrom]; [auto |].
  destruct (fst (goToNextTerminal (clone c))); [| auto].
  destruct (goToNextWith_every Q isTerminal c Hc) as [H1 H2].
  destruct (IH _ H1) as [H3 H4]. unfold goToNextTerminal. split; [assumption | congruence].
Qed.

(** The end the last loop of [getTrimmedRange] finds is the end it started
    with or the end of a token of the cursor. *)
Lemma trimmedEnd_every : forall (Q : Item -> Prop) (P : nat -> Prop) fuel c end_,
    everyItem Q c -> P end_ ->
    (forall it, Q it -> isToken (item_node it) = true -> P (text_end (item_range it))) ->
    P (trimmedEnd fuel c end_).
Proof.
  intros Q P. induction fuel as [| fuel IH]; intros c end_ Hc Hend Htok; cbn [trimmedEnd];
    [assumption |].
  destruct (goToPrevious_every Q c Hc) as [H1 _].
  destruct (goToPrevious c) as [[|] c']; cbn [snd] in *; [| assumption].
  fold (isToken (node c')).
  destruct (isToken (node c')) eqn:Ht.
  - apply Htok; [apply H1 | exact Ht].
  - now apply IH.
Qed.

Lemma ascending_app : forall l1 l2 : list Item,
    ascending l1 -> ascending l2 ->
    (forall a b, In a l1 -> In b l2 -> offsetLe a b) ->
    ascending (l1 ++ l2).
Proof.
  induction l1 as [| a l1 IHl]; intros l2 S1 S2 Hle; [exact S2 |].
  destruct S1 as [Ha S1]. cbn [app ascending]. split.
  - apply Forall_app. split; [assumption |].
    apply Forall_forall. intros b Hin. apply Hle; [now left | assumption].
  - apply IHl; [assumption | assumption | intros; apply Hle; [now right | assumption]].
Qed.

(** The offsets of the nodes of a tree grow in pre-order. *)
Lemma preorder_sorted : forall n off, ascending (preorder n off).
Proof.
  induction n as [k t | k cs IH] using Node_ind'; intros off.
  - cbn. auto.
  - pose proof (preorder_bounds (NonterminalNode k cs) off) as Hb.
    cbn [preorder] in *. inversion Hb as [| ? ? _ Hrest]; subst.
    cbn [ascending]. split.
    + eapply Forall_impl; [| exact Hrest]. intros it [H1 _]. exact H1.
    + clear Hrest Hb. revert off.
      induction IH as [| c cs' Hc _ IHcs]; intros off; [exact I |].
      pose proof (preorder_bounds c off) as Hbc.
      pose proof (preorder_bounds (NonterminalNode k cs')
                    (off + String.length (unparse c))) as Hgo.
      cbn [preorder] in Hgo. inversion Hgo as [| ? ? _ Hgo']; subst. clear Hgo.
      apply ascending_app; [apply Hc | apply IHcs |].
      intros a b Ha Hin.
      rewrite Forall_forall in Hbc, Hgo'.
      specialize (Hbc a Ha). specialize (Hgo' b Hin).
      unfold offsetLe. lia.
Qed.

Lemma sorted_suffix : forall (l1 l2 : list Item),
    ascending (l1 ++ l2) -> ascending l2.
Proof.
  induction l1 as [| x l1 IH]; intros l2 H; [exact H |].
  destruct H as [_ H]. now apply IH.
Qed.

Lemma preorder_head : forall n off,
    preorder n off = {| item_node := n; item_offset := off |} :: tl (preorder n off).
Proof. intros [k t | k cs] off; reflexivity. Qed.

(** Once the cursor of [getTrimmedRange] has looked for the first token, no
    token it can stand on ends before the place where it stands. *)
Lemma first_token_every : forall n off,
    let c1 := snd (goToNextWith isToken (cursorAt n off)) in
    everyItem (fun it => isToken (item_node it) = true ->
                         (item_offset (current c1) <= text_end (item_range it))%nat) c1.
Proof.
  intros n off.
  pose proof (preorder_bounds n off) as Hb.
  pose proof (preorder_sorted n off) as Hsorted.
  rewrite preorder_head in Hb, Hsorted.
  unfold goToNextWith, cursorAt. cbn [is_completed current before after].
  destruct (seek isToken _ _) as [[[b it] a] |] eqn:Hseek; cbv zeta; cbn [snd].
  - destruct (seek_split _ _ _ _ _ _ Hseek) as [skipped [Ha [Hb' [Hskip Hit]]]].
    rewrite Ha in Hb, Hsorted. clear Ha Hseek. subst b.
    inversion Hb as [| ? ? _ Hb1]; subst. apply Forall_app in Hb1.
    destruct Hb1 as [_ Hb1]. inversion Hb1 as [| ? ? [Hlo Hhi] _]; subst.
    destruct Hsorted as [_ Htail].
    apply sorted_suffix in Htail. destruct Htail as [Hle _].
    unfold everyItem, item_range. cbn [root current before after text_end item_offset item_node].
    split; [intros _; lia |]. split; [intros _; lia |]. split.
    + apply Forall_app. split.
      * apply Forall_rev. eapply Forall_impl; [| exact Hskip].
        cbn beta. intros x Hx Hx'. congruence.
      * constructor; [| constructor]. cbn [item_offset item_node]. intros _. lia.
    + eapply Forall_impl; [| exact Hle]. unfold offsetLe. intros x Hx _. lia.
  - unfold everyItem, complete, item_range.
    cbn [root current before after text_end item_offset item_node].
    repeat split; try (intros _; lia); constructor.
Qed.

(** X14: the range [getTrimmedRange] returns is well formed and lies in
    the range of the node of the cursor: the start of the node is at most the
    start of the trimmed range, that at most its end, and that at most the
    end of the node. *)
Theorem trimmed_range_stays_in_the_node : forall c,
    (text_start (textRange c) <= text_start (getTrimmedRange c))%nat /\
    (text_start (getTrimmedRange c) <= text_end (getTrimmedRange c))%nat /\
    (text_end (getTrimmedRange c) <= text_end (textRange c))%nat.
Proof.
  intros c. unfold getTrimmedRange. cbn [text_start text_end].
  fold isToken.
  pose proof (spawn_inScope c) as Hs.
  pose proof (first_token_every (item_node (current c)) (item_offset (current c))) as HQ.
  fold (spawn c) in HQ. cbv zeta in HQ.
  set (rt := root (spawn c)) in *.
  assert (item_range rt = textRange c) as Hroot by reflexivity.
  destruct (goToNextWith_every _ isToken (spawn c) Hs) as [H1 R1].
  set (c1 := snd (goToNextWith isToken (spawn c))) in *.
  destruct (goToLastTerminalFrom_every _ (List.length (after c1)) c1 H1) as [H2 R2].
  destruct (goToLastTerminalFrom_every _ (List.length (after c1)) c1 HQ) as [HQ2 _].
  fold (goToLastTerminal c1) in H2, R2, HQ2.
  assert (inScope rt (current c1)) as Hcur by apply H1.
  destruct Hcur as [Hlo Hhi]. rewrite Hroot in Hlo, Hhi.
  change (textRange (spawn c)) with (textRange c).
  assert (text_start (textRange c1) <= text_end (textRange c))%nat as Hnode
      by (unfold textRange, item_range in *; cbn [text_start text_end] in *; lia).
  split; [exact Hlo | split].
  - eapply (trimmedEnd_every _ (fun e => (text_start (textRange c1) <= e)%nat));
      [exact HQ2 | exact Hnode |].
    cbn beta. intros it Hit Htok. exact (Hit Htok).
  - eapply (trimmedEnd_every (inScope rt) (fun e => (e <= text_end (textRange c))%nat));
      [exact H2 | cbn beta; lia |].
    cbn beta. intros it [_ Hhi'] _. rewrite Hroot in Hhi'. exact Hhi'.
Qed.

Section Pass.
Variable variableLanguage : Language.
Variable relatedInfo : bool.
Local Abbreviation variableEntries := (variableEntries variableLanguage relatedInfo).
Local Abbreviation variableDiagnostics := (variableDiagnostics variableLanguage relatedInfo).
Local Abbreviation eligibleVariables := (eligibleVariables variableLanguage relatedInfo).
Local Abbreviation validateNamespaceableVariables :=
  (validateNamespaceableVariables variableLanguage relatedInfo).

Lemma variableEntries_plain : forall c,
    variableEntries c = if isPlain variableLanguage c then [entryOf variableLanguage c] else [].
Proof.
  intros c. unfold isPlain, entryOf.
  rewrite <- (scanAttributes_fst variableLanguage c).
  unfold Diagnostics.variableEntries, Diagnostics.validateVariable.
  fold (reparsed variableLanguage c).
  destruct (scanAttributes _ _) as [ignore replacement]. cbn [fst snd].
  destruct ignore; [reflexivity |].
  destruct (StateVariableDefinition.value _); reflexivity.
Qed.

Lemma flat_map_singletons : forall (A B : Type) (keep : A -> bool) (f : A -> B) l,
    flat_map (fun x => if keep x then [f x] else []) l = map f (filter keep l).
Proof.
  intros A B keep f l. induction l as [| x l IH]; simpl; [reflexivity |].
  destruct (keep x); simpl; now rewrite IH.
Qed.

(** X15: the variables [validateNamespaceableVariables] adds to the
    contract are those of the state variable definitions of the contract, in
    the order of the text, that are neither constant nor immutable and have
    no initial value, whether or not the diagnostics are skipped. *)
Theorem eligible_variables_are_the_plain_ones : forall cursor ds nc skipDiagnostic,
    nc_variables (snd (validateNamespaceableVariables cursor ds nc skipDiagnostic)) =
    nc_variables nc ++
    map (entryOf variableLanguage)
        (filter (isPlain variableLanguage) (stateVariableCursors cursor)).
Proof.
  intros cursor ds nc skip. rewrite validateNamespaceableVariables_app. cbn [snd nc_variables].
  f_equal. rewrite <- flat_map_singletons. apply flat_map_ext. intros c.
  apply variableEntries_plain.
Qed.
End Pass.

(* ------------------------------------------------------------------ *)
(** ** Settings and compiler version *)

Import Settings Configuration SolidityVersion Paths.

(** ** The prefix of the workspace *)

Lemma split_on_nonempty : forall sep s cur, Settings.split_on sep s cur <> [].
Proof.
  intros sep. induction s as [| c s IH]; intros cur; cbn [Settings.split_on]; [discriminate |].
  destruct (Ascii.eqb c sep); [discriminate | apply IH].
Qed.

Lemma split_on_last : forall sep s cur,
    allChars (fun c => negb (Ascii.eqb c sep)) cur = true ->
    allChars (fun c => negb (Ascii.eqb c sep)) (last (Settings.split_on sep s cur) "") = true.
Proof.
  intros sep. induction s as [| c s IH]; intros cur Hcur; cbn [Settings.split_on].
  - exact Hcur.
  - destruct (Ascii.eqb c sep) eqn:E.
    + pose proof (split_on_nonempty sep s "") as Hne.
      change (last (cur :: Settings.split_on sep s "") "") with
        (match Settings.split_on sep s "" with
         | [] => cur
         | _ :: _ => last (Settings.split_on sep s "") ""
         end).
      destruct (Settings.split_on sep s "") as [| x l] eqn:El; [congruence |].
      rewrite <- El. apply IH; reflexivity.
    + apply IH. rewrite allChars_app, Hcur. cbn. now rewrite E.
Qed.

Lemma replace_ws_keeps : forall p s b,
    p "-"%char = true -> allChars p s = true -> allChars p (Settings.replace_ws s b) = true.
Proof.
  intros p s. induction s as [| c s IH]; intros b Hdash H; [reflexivity |].
  cbn [allChars] in H. apply andb_true_iff in H. destruct H as [Hc Hs].
  cbn [Settings.replace_ws]. destruct (JS.is_space c).
  - destruct b; [now apply IH |]. cbn [allChars]. rewrite Hdash. now apply IH.
  - cbn [allChars]. rewrite Hc. now apply IH.
Qed.

Lemma replace_ws_noSpace : forall s b, noSpace (Settings.replace_ws s b) = true.
Proof.
  unfold noSpace. induction s as [| c s IH]; intros b; [reflexivity |].
  cbn [Settings.replace_ws]. destruct (JS.is_space c) eqn:E.
  - destruct b; [apply IH |]. cbn [allChars]. rewrite IH. reflexivity.
  - cbn [allChars]. rewrite E, IH. reflexivity.
Qed.

(** X16: when the settings give no namespace prefix, the prefix
    [getNamespacePrefix] derives from the workspace folders has no white
    space and no slash; with a contract name without white space, the
    expected namespace id built from it has no white space either. *)
Theorem workspace_prefix_has_no_white_space : forall settings workspaceFolders contractDef,
    truthy (Settings.namespacePrefix settings) = false ->
    noSpace (ContractDefinition.name_text contractDef) = true ->
    noSpace (getNamespacePrefix settings workspaceFolders) = true /\
    noSlash (getNamespacePrefix settings workspaceFolders) = true /\
    noSpace (getExpectedNamespaceId (getNamespacePrefix settings workspaceFolders)
               contractDef) = true.
Proof.
  intros settings folders contractDef Hset Hname.
  assert (noSpace (getNamespacePrefix settings folders) = true /\
          noSlash (getNamespacePrefix settings folders) = true) as [H1 H2].
  { unfold getNamespacePrefix. rewrite Hset. cbn [negb].
    destruct folders as [| folder _].
    - destruct (Settings.namespacePrefix settings) as [[| c s] |];
        [split; reflexivity | discriminate | split; reflexivity].
    - split; [apply replace_ws_noSpace |].
      apply replace_ws_keeps; [reflexivity |].
      unfold noSlash, pop, split. now apply split_on_last. }
  split; [exact H1 | split; [exact H2 |]].
  unfold getExpectedNamespaceId, getNamespaceId.
  destruct (String.eqb _ ""); [exact Hname |].
  unfold noSpace in *. rewrite !allChars_app, H1, Hname. reflexivity.
Qed.

(** ** The cached settings *)

Lemma Map_get_set_same : forall m k v,
    Map_get m k = None -> Map_get (Map_set m k v) k = Some v.
Proof.
  intros m k v H. unfold Map_set.
  assert (Map_has m k = false) as ->.
  { unfold Map_get, Map_has in *. induction m as [| e m IH]; [reflexivity |].
    cbn [find existsb] in *. destruct (String.eqb (fst e) k); [discriminate |]. now apply IH. }
  unfold Map_get in *. induction m as [| e m IH]; cbn [app find fst snd].
  - now rewrite String.eqb_refl.
  - cbn [find] in H. destruct (String.eqb (fst e) k); [discriminate |]. now apply IH.
Qed.

Lemma Map_get_set_other : forall m k k' v,
    String.eqb k' k = false -> Map_get (Map_set m k' v) k = Map_get m k.
Proof.
  intros m k k' v H. unfold Map_set, Map_get. destruct (Map_has m k').
  - induction m as [| e m IH]; [reflexivity |]. cbn [map find].
    destruct (String.eqb (fst e) k') eqn:E.
    + apply String.eqb_eq in E. cbn [fst]. rewrite E, H. exact IH.
    + destruct (String.eqb (fst e) k); [reflexivity | exact IH].
  - induction m as [| e m IH]; cbn [app find fst].
    + now rewrite H.
    + destruct (String.eqb (fst e) k); [reflexivity | exact IH].
Qed.

Lemma Map_get_delete_same : forall m k, Map_get (Map_delete m k) k = None.
Proof.
  intros m k. unfold Map_get, Map_delete. induction m as [| e m IH]; [reflexivity |].
  cbn [filter]. destruct (String.eqb (fst e) k) eqn:E; cbn [negb]; [exact IH |].
  cbn [find]. now rewrite E.
Qed.

Lemma Map_get_delete_other : forall m k k',
    String.eqb k' k = false -> Map_get (Map_delete m k') k = Map_get m k.
Proof.
  intros m k k' H. unfold Map_get, Map_delete. induction m as [| e m IH]; [reflexivity |].
  cbn [filter find]. destruct (String.eqb (fst e) k') eqn:E; cbn [negb].
  - apply String.eqb_eq in E. rewrite E, H. exact IH.
  - cbn [find]. destruct (String.eqb (fst e) k); [reflexivity | exact IH].
Qed.

Lemma step_capability : forall st ev,
    hasConfigurationCapability (step st ev) = hasConfigurationCapability st.
Proof.
  intros st [s | uri | r a]; cbn [step]; unfold onDidChangeConfiguration, onDidClose,
    getDocumentSettings.
  - destruct (hasConfigurationCapability st) eqn:E; cbn; congruence.
  - reflexivity.
  - destruct (negb _); [reflexivity |]. destruct (Map_get _ _); reflexivity.
Qed.

(** An event that does not reset a resource leaves its cached settings. *)
Lemma step_keeps : forall st ev resource s,
    hasConfigurationCapability st = true ->
    resets resource ev = false ->
    Map_get (documentSettings st) resource = Some s ->
    Map_get (documentSettings (step st ev)) resource = Some s.
Proof.
  intros st [s' | uri | r a] resource s Hcap Hev Hget; cbn [step resets] in *.
  - discriminate.
  - unfold onDidClose. cbn [documentSettings]. now rewrite Map_get_delete_other.
  - unfold getDocumentSettings. rewrite Hcap. cbn [negb].
    destruct (Map_get (documentSettings st) r) eqn:E; cbn [snd documentSettings];
      [exact Hget |].
    rewrite Map_get_set_other; [exact Hget |].
    destruct (String.eqb r resource) eqn:Er; [| reflexivity].
    apply String.eqb_eq in Er. congruence.
Qed.

Lemma run_keeps : forall evs st resource s,
    hasConfigurationCapability st = true ->
    existsb (resets resource) evs = false ->
    Map_get (documentSettings st) resource = Some s ->
    hasConfigurationCapability (run evs st) = true /\
    Map_get (documentSettings (run evs st)) resource = Some s.
Proof.
  induction evs as [| ev evs IH]; intros st resource s Hcap Hevs Hget; [auto |].
  cbn [existsb] in Hevs. apply orb_false_iff in Hevs. destruct Hevs as [Hev Hevs].
  unfold run. cbn [fold_left]. apply IH.
  - now rewrite step_capability.
  - exact Hevs.
  - now apply step_keeps.
Qed.

Lemma getDocumentSettings_caches : forall st resource answer,
    hasConfigurationCapability st = true ->
    Map_get (documentSettings (snd (getDocumentSettings resource answer st))) resource
    = Some (fst (getDocumentSettings resource answer st)).
Proof.
  intros st resource answer Hcap. unfold getDocumentSettings. rewrite Hcap. cbn [negb].
  destruct (Map_get (documentSettings st) resource) eqn:E; cbn [fst snd documentSettings].
  - exact E.
  - now apply Map_get_set_same.
Qed.

(** X17: with the configuration capability, the settings of a resource are
    asked from the client once: after a request for the resource, and
    whatever requests for other resources and closings of other documents
    follow, the next request for it returns the settings of the first
    request, not what the client would answer now. *)
Theorem cached_settings_are_served_until_reset : forall st resource answer evs answer',
    hasConfigurationCapability st = true ->
    existsb (resets resource) evs = false ->
    fst (getDocumentSettings resource answer'
           (run evs (snd (getDocumentSettings resource answer st))))
    = fst (getDocumentSettings resource answer st).
Proof.
  intros st resource answer evs answer' Hcap Hevs.
  pose proof (getDocumentSettings_caches st resource answer Hcap) as Hget.
  assert (hasConfigurationCapability (snd (getDocumentSettings resource answer st)) = true)
    as Hcap' by (rewrite <- Hcap; apply (step_capability st (Request resource answer))).
  destruct (run_keeps evs _ resource _ Hcap' Hevs Hget) as [Hcap'' Hget'].
  unfold getDocumentSettings at 1. rewrite Hcap'', Hget'. reflexivity.
Qed.

(** X18: with the configuration capability, after the document is closed
    or the configuration changes, and whatever events on other resources
    follow, the next request for the settings of the resource returns what
    the client answers then. *)
Theorem a_reset_makes_the_next_request_fresh : forall st resource ev evs answer,
    hasConfigurationCapability st = true ->
    resets resource ev = true ->
    forallb (fun e => match e with
                      | Request r _ => negb (String.eqb r resource)
                      | _ => true
                      end) evs = true ->
    fst (getDocumentSettings resource answer (run evs (step st ev))) = answer.
Proof.
  intros st resource ev evs answer Hcap Hev Hevs.
  assert (hasConfigurationCapability (step st ev) = true) as Hcap'
      by now rewrite step_capability.
  assert (Map_get (documentSettings (step st ev)) resource = None) as Hget.
  { destruct ev as [s | uri | r a]; cbn [resets step] in *; [| | discriminate].
    - unfold onDidChangeConfiguration. rewrite Hcap. reflexivity.
    - apply String.eqb_eq in Hev. subst uri. apply Map_get_delete_same. }
  revert Hcap' Hget. generalize (step st ev) as st'. clear st ev Hcap Hev.
  induction evs as [| e evs IH]; intros st Hcap Hget.
  - unfold run, getDocumentSettings. cbn [fold_left]. rewrite Hcap, Hget. reflexivity.
  - cbn [forallb] in Hevs. apply andb_true_iff in Hevs. destruct Hevs as [He Hevs].
    unfold run. cbn [fold_left]. apply (IH Hevs).
    + now rewrite step_capability.
    + destruct e as [s | uri | r a]; cbn [step].
      * unfold onDidChangeConfiguration. rewrite Hcap. reflexivity.
      * unfold onDidClose. cbn [documentSettings].
        destruct (String.eqb uri resource) eqn:E.
        -- apply String.eqb_eq in E. subst uri. apply Map_get_delete_same.
        -- now rewrite Map_get_delete_other.
      * unfold getDocumentSettings. rewrite Hcap. cbn [negb].
        apply negb_true_iff in He.
        destruct (Map_get (documentSettings st) r); cbn [snd documentSettings];
          [exact Hget |].
        now rewrite Map_get_set_other.
Qed.

(** ** The version of the configuration files *)

Lemma quoted_spec : forall s cap,
    quoted s = Some cap -> cap <> "" /\ noQuote cap = true.
Proof.
  intros [| c s] cap H; cbn [quoted] in H; [discriminate |].
  destruct (is_quote c); [| discriminate].
  destruct (JS.greedy _ _ s) as [[| c' cap'] |] eqn:E; cbn [JS.nonempty] in H;
    try discriminate.
  injection H as <-. split; [discriminate |].
  unfold noQuote. eapply greedy_accepts. exact E.
Qed.

Lemma andThen_some : forall o f cap,
    JS.andThen o f = Some cap -> exists s, o = Some s /\ f s = Some cap.
Proof. intros [s |] f cap H; cbn in H; [eauto | discriminate]. Qed.

Lemma match_foundry_spec : forall text cap,
    match_foundry text = Some cap -> cap <> "" /\ noQuote cap = true.
Proof.
  intros text cap H. unfold match_foundry in H.
  apply search_found in H. destruct H as [r H].
  apply andThen_some in H. destruct H as [s [_ H]].
  eapply quoted_spec. exact H.
Qed.

Lemma match_hardhat_spec : forall text cap,
    match_hardhat text = Some cap -> cap <> "" /\ noQuote cap = true.
Proof.
  intros text cap H. unfold match_hardhat in H.
  apply search_found in H. destruct H as [r H].
  apply andThen_some in H. destruct H as [s [_ H]].
  apply andThen_some in H. destruct H as [s' [_ H]].
  eapply quoted_spec. exact H.
Qed.

Section Inference.
Variable path_join : string -> string -> string.
Variable fs_access : string -> bool.
Variable fs_readFile : string -> Result string.
Variable versionFromPragma : option string.
Variable supportedVersions : list string.
Local Abbreviation inferVersionFromConfig := (inferVersionFromConfig fs_access fs_readFile).
Local Abbreviation inferSolidityVersionFromFoundry :=
  (inferSolidityVersionFromFoundry path_join fs_access fs_readFile).
Local Abbreviation inferSolidityVersionFromHardhat :=
  (inferSolidityVersionFromHardhat path_join fs_access fs_readFile).
Local Abbreviation inferSolidityVersion :=
  (inferSolidityVersion path_join fs_access fs_readFile versionFromPragma supportedVersions).

Lemma inferVersionFromConfig_spec : forall filePath regex version,
    (forall text cap, regex text = Some cap -> cap <> "" /\ noQuote cap = true) ->
    inferVersionFromConfig filePath regex = Ok (Some version) ->
    version <> "" /\ noQuote version = true.
Proof.
  intros filePath regex version Hregex H. unfold SolidityVersion.inferVersionFromConfig in H.
  destruct (exists_ fs_access filePath); [| discriminate].
  destruct (fs_readFile filePath) as [text | e]; cbn [bind] in H; [| discriminate].
  destruct (regex text) as [cap |] eqn:E; cbn [truthy] in H; [| discriminate].
  destruct cap; [discriminate |]. injection H as <-. eapply Hregex. exact E.
Qed.

Lemma inferVersionFromConfig_total : forall filePath regex,
    readable fs_access fs_readFile ->
    exists version, inferVersionFromConfig filePath regex = Ok version.
Proof.
  intros filePath regex Hread. unfold SolidityVersion.inferVersionFromConfig, exists_.
  destruct (fs_access filePath) eqn:E; [| eauto].
  destruct (Hread _ E) as [text ->]. cbn [bind].
  destruct (truthy (regex text)); eauto.
Qed.

Lemma foundry_spec : forall workspaceFolders version,
    inferSolidityVersionFromFoundry workspaceFolders = Ok (Some version) ->
    version <> "" /\ noQuote version = true.
Proof.
  induction workspaceFolders as [| f rest IH]; intros version H;
    cbn [SolidityVersion.inferSolidityVersionFromFoundry] in H; [discriminate |].
  destruct (inferVersionFromConfig _ match_foundry) as [[v |] | e] eqn:E; cbn [bind] in H;
    try discriminate.
  - destruct (truthy (Some v)) eqn:Et; [| now apply IH].
    injection H as <-. eapply inferVersionFromConfig_spec; [| exact E].
    exact match_foundry_spec.
  - cbn [truthy] in H. now apply IH.
Qed.

Lemma hardhat_spec : forall workspaceFolders version,
    inferSolidityVersionFromHardhat workspaceFolders = Ok (Some version) ->
    version <> "" /\ noQuote version = true.
Proof.
  induction workspaceFolders as [| f rest IH]; intros version H;
    cbn [SolidityVersion.inferSolidityVersionFromHardhat] in H; [discriminate |].
  destruct (inferVersionFromConfig (path_join f "hardhat.config.ts") match_hardhat)
    as [[v |] | e] eqn:E; cbn [bind] in H; try discriminate.
  - destruct (truthy (Some v)) eqn:Et.
    + injection H as <-. eapply inferVersionFromConfig_spec; [| exact E].
      exact match_hardhat_spec.
    + destruct v; [| discriminate].
      apply inferVersionFromConfig_spec in E; [| exact match_hardhat_spec].
      destruct E as [E _]. congruence.
  - cbn [truthy] in H.
    destruct (inferVersionFromConfig (path_join f "hardhat.config.js") match_hardhat)
      as [[v |] | e] eqn:E'; cbn [bind] in H; try discriminate.
    + destruct (truthy (Some v)) eqn:Et; [| now apply IH].
      injection H as <-. eapply inferVersionFromConfig_spec; [| exact E'].
      exact match_hardhat_spec.
    + cbn [truthy] in H. now apply IH.
Qed.

Lemma foundry_total : forall workspaceFolders,
    readable fs_access fs_readFile ->
    exists version, inferSolidityVersionFromFoundry workspaceFolders = Ok version.
Proof.
  intros workspaceFolders Hread.
  induction workspaceFolders as [| f rest IH];
    cbn [SolidityVersion.inferSolidityVersionFromFoundry]; [eauto |].
  destruct (inferVersionFromConfig_total (path_join f "foundry.toml") match_foundry Hread)
    as [v ->]. cbn [bind]. destruct (truthy v); eauto.
Qed.

Lemma hardhat_total : forall workspaceFolders,
    readable fs_access fs_readFile ->
    exists version, inferSolidityVersionFromHardhat workspaceFolders = Ok version.
Proof.
  intros workspaceFolders Hread.
  induction workspaceFolders as [| f rest IH];
    cbn [SolidityVersion.inferSolidityVersionFromHardhat]; [eauto |].
  destruct (inferVersionFromConfig_total (path_join f "hardhat.config.ts") match_hardhat Hread)
    as [v ->]. cbn [bind]. destruct (truthy v); [eauto |].
  destruct (inferVersionFromConfig_total (path_join f "hardhat.config.js") match_hardhat Hread)
    as [v' ->]. cbn [bind]. destruct (truthy v'); eauto.
Qed.

Lemma unset_guard : forall version,
    unset version = true ->
    truthy version &&
    match version with
    | Some v => (0 <? String.length (JS.trim v))%nat
    | None => false
    end = false.
Proof.
  intros [v |] H; [| reflexivity]. cbn [unset] in H. apply Nat.eqb_eq in H. rewrite H.
  apply andb_false_r.
Qed.

Lemma truthy_some : forall o, truthy o = true -> exists v, o = Some v /\ v <> "".
Proof.
  intros [[| c s] |] H; try discriminate. exists (String c s). split; [reflexivity | discriminate].
Qed.

(** X19: when every configuration file that is there can be read and the
    last supported version is not empty, [inferSolidityVersion] returns a
    version, and it is not empty. *)
Theorem inference_yields_a_version : forall settings workspaceFolders,
    readable fs_access fs_readFile ->
    last supportedVersions "" <> "" ->
    exists version,
      inferSolidityVersion settings workspaceFolders = Ok (Some version) /\ version <> "".
Proof.
  intros settings workspaceFolders Hread Hlast.
  unfold SolidityVersion.inferSolidityVersion.
  destruct (truthy (compilerVersion settings) && _) eqn:Hset.
  - apply andb_true_iff in Hset. destruct Hset as [Hset _].
    destruct (truthy_some _ Hset) as [v [-> Hv]]. eauto.
  - destruct (foundry_total workspaceFolders Hread) as [vf Hf]. rewrite Hf. cbn [bind].
    destruct (truthy vf) eqn:Etf.
    { destruct (truthy_some _ Etf) as [v [-> Hv]]. eauto. }
    destruct (hardhat_total workspaceFolders Hread) as [vh Hh]. rewrite Hh. cbn [bind].
    destruct (truthy vh) eqn:Eth.
    { destruct (truthy_some _ Eth) as [v [-> Hv]]. eauto. }
    destruct (truthy versionFromPragma) eqn:Etp.
    { destruct (truthy_some _ Etp) as [v [-> Hv]]. eauto. }
    exists (last supportedVersions ""). split; [| exact Hlast].
    f_equal. clear - Hlast.
    induction supportedVersions as [| x l IH]; [now elim Hlast |].
    destruct l as [| y l']; [reflexivity |].
    change (last (x :: y :: l') "") with (last (y :: l') "") in *.
    rewrite <- (IH Hlast). cbn [List.length Nat.sub nth_error]. now rewrite Nat.sub_0_r.
Qed.

(** X20: without a version in the settings, the version that the Foundry
    configuration gives, or the Hardhat configuration when Foundry gives
    none, is the result of [inferSolidityVersion], before the pragma of the
    document is looked at; it is not empty and has no quote. *)
Theorem version_of_a_configuration_file : forall settings workspaceFolders version,
    unset (compilerVersion settings) = true ->
    inferSolidityVersionFromFoundry workspaceFolders = Ok (Some version) \/
    (inferSolidityVersionFromFoundry workspaceFolders = Ok None /\
     inferSolidityVersionFromHardhat workspaceFolders = Ok (Some version)) ->
    inferSolidityVersion settings workspaceFolders = Ok (Some version) /\
    version <> "" /\ noQuote version = true.
Proof.
  intros settings workspaceFolders version Hset H.
  unfold SolidityVersion.inferSolidityVersion. rewrite (unset_guard _ Hset).
  destruct H as [Hf | [Hf Hh]].
  - pose proof (foundry_spec _ _ Hf) as [Hv Hq]. rewrite Hf. cbn [bind].
    destruct version; [congruence |]. cbn [truthy]. repeat split; try assumption.
  - pose proof (hardhat_spec _ _ Hh) as [Hv Hq]. rewrite Hf, Hh. cbn [bind truthy].
    destruct version; [congruence |]. cbn [truthy]. repeat split; try assumption.
Qed.

(** X21: without a version in the settings, a [foundry.toml] of the first
    workspace folder that is there but cannot be read makes
    [inferSolidityVersion] throw the error of the read, whatever the other
    folders, the Hardhat configuration and the pragma would give. *)
Theorem unreadable_configuration_fails_the_inference :
  forall settings workspaceFolder rest e,
    unset (compilerVersion settings) = true ->
    fs_access (path_join workspaceFolder "foundry.toml") = true ->
    fs_readFile (path_join workspaceFolder "foundry.toml") = Throw e ->
    inferSolidityVersion settings (workspaceFolder :: rest) = Throw e.
Proof.
  intros settings workspaceFolder rest e Hset Hacc Hread.
  unfold SolidityVersion.inferSolidityVersion. rewrite (unset_guard _ Hset).
  cbn [SolidityVersion.inferSolidityVersionFromFoundry].
  unfold SolidityVersion.inferVersionFromConfig, exists_. rewrite Hacc, Hread. reflexivity.
Qed.
End Inference.

(* ------------------------------------------------------------------ *)
(** ** Runs of the further properties *)

Import Digits Chars Wire Fixes Scope Settings Configuration SolidityVersion Paths.

Section MoreRuns.
Import Examples Workspace.

(** The patterns of the two configuration files on some texts. *)
Example versions_of_configuration_files :
  match_foundry ("solc_version = '0.8.19'" ++ nl ++ "solc   =" ++ JS.dquote ++ "0.8.20" ++
                 JS.dquote)%string = Some "0.8.20" /\
  match_foundry "solc = ''" = None /\
  match_hardhat ("solidity: {" ++ nl ++ "    version: '0.8.24'," ++ nl ++ "}")%string
  = Some "0.8.24" /\
  match_hardhat "solidity: '0.8.24'" = None.
Proof. repeat split; vm_compute; reflexivity. Qed.

(** The variables the contract diagnostic of Bar carries. *)
Example variables_of_Bar : variablesBar = [variableB; variableC].
Proof. vm_compute. reflexivity. Qed.

(** The prefix of some workspace folders. *)
Example prefixes_of_workspace_folders :
  getNamespacePrefix noSettings ["/home/dev/my   cool project"] = "my-cool-project" /\
  getNamespacePrefix noSettings ["/home/dev/project/"] = "" /\
  getNamespacePrefix pinnedSettings ["/home/dev/project"] = "myapp" /\
  getNamespacePrefix noSettings [] = "".
Proof. repeat split; vm_compute; reflexivity. Qed.

Lemma buffer_of_the_second_hash_witness :
  (0 <= minusOne "example.main")%Z /\
  minusOneBuffer "example.main" =
  minimalBigEndian
    (if Nat.even (String.length (JS.BigInt_toString16 (minusOne "example.main")))
     then minusOne "example.main" else (minusOne "example.main" / 16)%Z) /\
  (Nat.even (String.length (JS.BigInt_toString16 (minusOne "example.main"))) = true ->
   calculateERC7201StorageLocation "example.main"
   = storageLocationOfMinimalEncoding "example.main").
Proof.
  split; [vm_compute; discriminate |].
  apply (buffer_of_the_second_hash "example.main"). vm_compute. discriminate.
Defined.

Lemma namespace_id_determines_prefix_and_contract_witness :
  getNamespaceId (Some "my.app") "Bar" = getNamespaceId (Some "my.app") "Bar" /\
  "my.app" = "my.app" /\ "Bar" = "Bar".
Proof.
  split; [reflexivity |].
  apply (namespace_id_determines_prefix_and_contract "my.app" "my.app" "Bar" "Bar");
    reflexivity.
Defined.

Lemma replaced_comment_and_hash_are_accepted_witness :
  fst (validateCommentAndHash "myapp" false formulaCommentBar contractBarFixed
         locationCursorBarFixed []) = [].
Proof.
  refine (proj2 (replaced_comment_and_hash_are_accepted "myapp" false formulaCommentBar
                   contractBarFixed locationCursorBarFixed []
                   {| trivia_kind := SingleLineComment;
                      trivia_text := formulaComment "myapp.Bar";
                      trivia_range := {| text_start := 135; text_end := 226 |} |}
                   _ _ _) _).
  - vm_compute. reflexivity.
  - vm_compute. reflexivity.
  - vm_compute. reflexivity.
  - vm_compute. reflexivity.
Defined.

Lemma replacement_fixes_of_fitting_diagnostics_witness :
  map edit (codeActionsBar [idMismatchDiagnostic; mismatchDiagnostic])
  = flat_map replacementFixes [idMismatchDiagnostic; mismatchDiagnostic] /\
  map diagnostics (codeActionsBar [idMismatchDiagnostic; mismatchDiagnostic])
  = [[idMismatchDiagnostic]; [mismatchDiagnostic]].
Proof.
  apply (replacement_fixes_of_fitting_diagnostics languageBar "myapp" (unparse documentBar)
           [idMismatchDiagnostic; mismatchDiagnostic]).
  - repeat constructor.
  - repeat constructor.
Defined.

Lemma existing_namespace_with_two_variables_overlaps_witness :
  nonOverlapping
    (editExistingNamespace variablesBar [] {| text_start := 130; text_end := 131 |}) = false.
Proof.
  apply (existing_namespace_with_two_variables_overlaps variablesBar []
           {| text_start := 130; text_end := 131 |}).
  - vm_compute. lia.
  - cbn. lia.
Defined.

Lemma fix_without_its_contract_witness :
  exists template,
    getMoveAllVariablesToNamespaceQuickFix languageFoo [] "Move all variables to namespace"
      "myapp" "Bar" [variableB; variableC] (unparse documentFoo)
    = Ok (Some {| title := "Move all variables to namespace";
                  edit := [ {| edit_range := {| range_start := 192; range_end := 202 |};
                               newText := template |};
                            {| edit_range := {| range_start := 207; range_end := 217 |};
                               newText := "" |} ];
                  diagnostics := [] |}).
Proof.
  eexists.
  apply (fix_without_its_contract languageFoo [] "Move all variables to namespace" "myapp"
           "Bar" variableB [variableC] (unparse documentFoo)).
  apply Forall_forall. intros cursor Hin. vm_compute in Hin.
  destruct Hin as [<- | []]. right. vm_compute. discriminate.
Defined.

Lemma workspace_prefix_has_no_white_space_witness :
  noSpace (getNamespacePrefix noSettings ["/home/dev/my cool project"]) = true /\
  noSlash (getNamespacePrefix noSettings ["/home/dev/my cool project"]) = true /\
  noSpace (getExpectedNamespaceId
             (getNamespacePrefix noSettings ["/home/dev/my cool project"]) contractBar)
  = true.
Proof.
  apply (workspace_prefix_has_no_white_space noSettings ["/home/dev/my cool project"]
           contractBar); reflexivity.
Defined.

Lemma cached_settings_are_served_until_reset_witness :
  fst (getDocumentSettings "file:///a.sol" pinnedSettings
         (run [Request "file:///b.sol" pinnedSettings; DidClose "file:///b.sol"]
              (snd (getDocumentSettings "file:///a.sol" noSettings initialState))))
  = fst (getDocumentSettings "file:///a.sol" noSettings initialState).
Proof.
  apply (cached_settings_are_served_until_reset initialState "file:///a.sol" noSettings
           [Request "file:///b.sol" pinnedSettings; DidClose "file:///b.sol"]
           pinnedSettings); reflexivity.
Defined.

Lemma a_reset_makes_the_next_request_fresh_witness :
  fst (getDocumentSettings "file:///a.sol" pinnedSettings
         (run [Request "file:///b.sol" noSettings]
              (step (snd (getDocumentSettings "file:///a.sol" noSettings initialState))
                    (DidClose "file:///a.sol"))))
  = pinnedSettings.
Proof.
  apply (a_reset_makes_the_next_request_fresh
           (snd (getDocumentSettings "file:///a.sol" noSettings initialState))
           "file:///a.sol" (DidClose "file:///a.sol")
           [Request "file:///b.sol" noSettings] pinnedSettings); reflexivity.
Defined.

Lemma inference_yields_a_version_witness :
  exists version,
    inferSolidityVersion join foundryAccess foundryRead None ["0.8.27"; "0.8.28"]
      noSettings ["/ws"] = Ok (Some version) /\ version <> "".
Proof.
  apply (inference_yields_a_version join foundryAccess foundryRead None ["0.8.27"; "0.8.28"]
           noSettings ["/ws"]).
  - intros file _. eexists. reflexivity.
  - cbn. discriminate.
Defined.

Lemma version_of_a_configuration_file_witness :
  inferSolidityVersion join foundryAccess foundryRead None ["0.8.27"; "0.8.28"]
    noSettings ["/ws"] = Ok (Some "0.8.24") /\
  "0.8.24" <> "" /\ noQuote "0.8.24" = true.
Proof.
  apply (version_of_a_configuration_file join foundryAccess foundryRead None
           ["0.8.27"; "0.8.28"] noSettings ["/ws"] "0.8.24").
  - reflexivity.
  - left. vm_compute. reflexivity.
Defined.

Lemma unreadable_configuration_fails_the_inference_witness :
  inferSolidityVersion join lockedAccess lockedRead (Some "0.8.24") ["0.8.28"]
    noSettings ["/ws"; "/other"] = Throw "EACCES".
Proof.
  apply (unreadable_configuration_fails_the_inference join lockedAccess lockedRead
           (Some "0.8.24") ["0.8.28"] noSettings "/ws" ["/other"] "EACCES"); reflexivity.
Defined.
End MoreRuns.

(* ------------------------------------------------------------------ *)
(** ** The rules with the helper of the source *)

Import Failing Claimed Edits.

(* ------------------------------------------------------------------ *)
(** ** The classifier *)

Section Classifier.
Import Examples Contracts.

(** C6, the claim refuted: the contract [D is Initializable.Y] inherits no
    type literally named [Initializable] or [UUPSUpgradeable], declares no
    function [_authorizeUpgrade] and has no documentation comment, and the
    classifier answers true. *)
Lemma qualified_name_is_classified_upgradeable :
  Failing.inferUpgradeable cursorD contractD = Ok true /\
  inheritsLiterally "Initializable" contractD = false /\
  inheritsLiterally "UUPSUpgradeable" contractD = false /\
  ~ declaresAuthorizeUpgrade contractD /\
  documentationHasToken "@custom:oz-upgrades" contractD = false /\
  documentationHasToken "@custom:oz-upgrades-from" contractD = false.
Proof.
  split; [vm_compute; reflexivity |].
  split; [vm_compute; reflexivity |].
  split; [vm_compute; reflexivity |].
  split; [| split; vm_compute; reflexivity].
  intros H. change contractD with (node cursorD) in H.
  apply authorizeUpgrade_loop in H. vm_compute in H. discriminate.
Qed.

(** C6, amended: the classifier answers true whenever some type of the
    inheritance list has the identifier [Initializable] or [UUPSUpgradeable]
    in its path, or the contract declares a function [_authorizeUpgrade]
    with exactly one parameter whose type unparses to [address]; and for a
    contract before which the helper finds no NatSpec comment it answers
    true exactly then, and false otherwise. *)
Theorem classifier_without_documentation_comment : forall cursor contractDef,
    ((inheritsIdentifier "Initializable" contractDef \/
      inheritsIdentifier "UUPSUpgradeable" contractDef) \/
     declaresAuthorizeUpgrade (node cursor) ->
     Failing.inferUpgradeable cursor contractDef = Ok true) /\
    (getNatSpec cursor = None ->
     (Failing.inferUpgradeable cursor contractDef = Ok true <->
      (inheritsIdentifier "Initializable" contractDef \/
       inheritsIdentifier "UUPSUpgradeable" contractDef) \/
      declaresAuthorizeUpgrade (node cursor)) /\
     (Failing.inferUpgradeable cursor contractDef = Ok true \/
      Failing.inferUpgradeable cursor contractDef = Ok false)).
Proof.
  intros cursor contractDef. unfold Failing.inferUpgradeable.
  rewrite <- !inheritsNamed_spec, <- orb_true_iff, <- authorizeUpgrade_loop.
  destruct (Diagnostics.truthy (inheritsNamed "Initializable" contractDef) ||
            Diagnostics.truthy (inheritsNamed "UUPSUpgradeable" contractDef)).
  { split; [reflexivity |]. intros _. split; [split; auto | auto]. }
  destruct (forEachNext (hasNonterminalKind FunctionDefinition) (spawn cursor) _ false).
  { split; [reflexivity |]. intros _. split; [split; auto | auto]. }
  split.
  - intros [H | H]; discriminate.
  - intros ->. split; [| auto].
    split; [discriminate | intros [H | H]; discriminate].
Qed.

Lemma classifier_without_documentation_comment_witness :
  (Failing.inferUpgradeable cursorBar contractBar = Ok true <->
   (inheritsIdentifier "Initializable" contractBar \/
    inheritsIdentifier "UUPSUpgradeable" contractBar) \/
   declaresAuthorizeUpgrade (node cursorBar)) /\
  (Failing.inferUpgradeable cursorBar contractBar = Ok true \/
   Failing.inferUpgradeable cursorBar contractBar = Ok false).
Proof.
  apply (proj2 (classifier_without_documentation_comment cursorBar contractBar)).
  vm_compute. reflexivity.
Defined.

(** X5: when no type of the inheritance list has one of the two identifiers
    and no function is [_authorizeUpgrade(address)], a NatSpec comment before
    the contract makes the classifier throw, whatever the comment says: the
    annotations of the upgrades plugin never make it answer true. *)
Theorem documentation_comment_makes_the_classifier_throw :
  forall cursor natSpec,
    Diagnostics.truthy (inheritsNamed "Initializable" (node cursor)) = false ->
    Diagnostics.truthy (inheritsNamed "UUPSUpgradeable" (node cursor)) = false ->
    ~ declaresAuthorizeUpgrade (node cursor) ->
    getNatSpec cursor = Some natSpec ->
    Failing.inferUpgradeable cursor (node cursor) = Throw "TypeError" /\
    forall language variableLanguage namespacePrefix relatedInfo comments ds,
      isValid (language ContractDefinition (unparse (node cursor))) = true ->
      Failing.validateContract language variableLanguage namespacePrefix relatedInfo
                               comments cursor ds = Throw "TypeError".
Proof.
  intros cursor natSpec H1 H2 H3 H4.
  assert (Failing.inferUpgradeable cursor (node cursor) = Throw "TypeError") as H.
  { unfold Failing.inferUpgradeable. rewrite H1, H2, H4. cbn [orb].
    destruct (forEachNext (hasNonterminalKind FunctionDefinition) (spawn cursor) _ false)
      eqn:E; [| reflexivity].
    apply authorizeUpgrade_loop in E. contradiction. }
  split; [exact H |].
  intros language variableLanguage namespacePrefix relatedInfo comments ds Hvalid.
  unfold Failing.validateContract. rewrite Hvalid, H. reflexivity.
Qed.

Lemma documentation_comment_makes_the_classifier_throw_witness :
  Failing.inferUpgradeable cursorE contractE = Throw "TypeError" /\
  Failing.validateNamespaces languageE languageE "myapp" false noComment documentE []
  = Throw "TypeError".
Proof.
  split; [| vm_compute; reflexivity].
  apply (documentation_comment_makes_the_classifier_throw cursorE
           "/// @custom:oz-upgrades").
  - vm_compute. reflexivity.
  - vm_compute. reflexivity.
  - intros H. apply authorizeUpgrade_loop in H. vm_compute in H. discriminate.
  - vm_compute. reflexivity.
Defined.
End Classifier.

(* ------------------------------------------------------------------ *)
(** ** The rule on the annotation of a struct *)

Lemma fold_bind_Throw : forall (A B : Type) (f : A -> B -> Result B) l e,
    fold_left (fun st x => bind st (f x)) l (Throw e) = Throw e.
Proof. induction l as [| x l IH]; intros e; [reflexivity | apply IH]. Qed.

Lemma structAnnotation_fold : forall contractDef cs ds,
    fold_left (fun st structCursor => bind st (Failing.validateStruct contractDef structCursor))
              cs (Ok ds)
    = if forallb (fun structCursor =>
                    match getNatSpec structCursor with Some _ => false | None => true end) cs
      then Ok ds else Throw "AssertionError".
Proof.
  intros contractDef. induction cs as [| c cs IH]; intros ds; [reflexivity |].
  cbn [fold_left forallb bind]. unfold Failing.validateStruct at 2.
  destruct (getNatSpec c); cbn [andb]; [apply fold_bind_Throw | apply IH].
Qed.

(** X4: the rule on the annotations of the structs never adds a diagnostic:
    it returns the diagnostics it was given when the helper finds no NatSpec
    comment before any struct of the contract, and fails its assertion
    otherwise. *)
Theorem struct_annotation_rule_adds_no_diagnostic : forall cursor contractDef ds,
    Failing.validateNamespaceStructAnnotation cursor contractDef ds =
    if forallb (fun structCursor =>
                  match getNatSpec structCursor with Some _ => false | None => true end)
               (structCursors cursor)
    then Ok ds else Throw "AssertionError".
Proof.
  intros cursor contractDef ds. unfold Failing.validateNamespaceStructAnnotation.
  rewrite forEachNext_fold. apply structAnnotation_fold.
Qed.

(* ------------------------------------------------------------------ *)
(** ** The two readings of the rules agree without NatSpec comments *)

Section Agreement.
Variable language : Language.
Variable variableLanguage : Language.
Variable namespacePrefix : string.
Variable relatedInfo : bool.
Variable getLastPrecedingTriviaWithKinds : Cursor -> list TerminalKind -> option Trivia.

Lemma getNatSpec_terminal : forall c,
    getNatSpec c = option_map trivia_text (natSpecTerminal c).
Proof.
  intros c. unfold getNatSpec, natSpecTerminal.
  destruct (goToNextWith endsNatSpecWalk (clone c)) as [[|] tc]; [| reflexivity].
  destruct (node tc) as [k t | k cs]; [| reflexivity].
  destruct (isNatSpecKind k); reflexivity.
Qed.

Lemma validateContract_agrees : forall cursor ds,
    withoutNatSpec cursor = true ->
    Failing.validateContract language variableLanguage namespacePrefix relatedInfo
      getLastPrecedingTriviaWithKinds cursor ds
    = Ok (Diagnostics.validateContract language variableLanguage namespacePrefix relatedInfo
            getLastPrecedingTriviaWithKinds cursor ds).
Proof.
  intros cursor ds H. unfold withoutNatSpec in H.
  destruct (getNatSpec cursor) eqn:Hnat; [discriminate |].
  unfold Failing.validateContract, Diagnostics.validateContract.
  destruct (negb (isValid _)); [reflexivity |].
  assert (Failing.inferUpgradeable cursor (node cursor)
          = Ok (Diagnostics.inferUpgradeable cursor (node cursor))) as ->.
  { unfold Failing.inferUpgradeable, Diagnostics.inferUpgradeable.
    destruct (Diagnostics.truthy _ || Diagnostics.truthy _); [reflexivity |].
    destruct (forEachNext _ _ _ false); [reflexivity |].
    rewrite Hnat. rewrite getNatSpec_terminal in Hnat.
    destruct (natSpecTerminal cursor); [discriminate | reflexivity]. }
  cbn [bind].
  destruct (Diagnostics.inferUpgradeable cursor (node cursor)); cbn [negb].
  - unfold Failing.validateNamespaceStructAnnotation.
    rewrite forEachNext_fold, structAnnotation_fold. fold (structCursors cursor).
    rewrite H. cbn [bind].
    assert (Diagnostics.validateNamespaceStructAnnotation namespacePrefix relatedInfo
              cursor (node cursor) ds = ds) as ->.
    { unfold Diagnostics.validateNamespaceStructAnnotation. rewrite forEachNext_fold.
      fold (structCursors cursor).
      induction (structCursors cursor) as [| c cs IH]; [reflexivity |].
      cbn [forallb] in H. apply andb_true_iff in H. destruct H as [Hc Hcs].
      cbn [fold_left]. unfold Diagnostics.validateStruct at 2.
      rewrite getNatSpec_terminal in Hc.
      destruct (natSpecTerminal c); [discriminate | now apply IH]. }
    destruct (Diagnostics.validateNamespaceableVariables _ _ _ _ _ _); reflexivity.
  - cbn [bind]. destruct (Diagnostics.validateNamespaceableVariables _ _ _ _ _ _); reflexivity.
Qed.

(** X22: on a document where the helper finds no NatSpec comment before a
    contract nor before a struct of a contract, the analysis with the helper
    of the source does not throw, and its diagnostics are those of the rules
    that read the comment off its terminal. *)
Theorem analysis_without_NatSpec_comments : forall parseOutput ds,
    forallb withoutNatSpec
            (cursorsNext (hasNonterminalKind ContractDefinition)
                         (createTreeCursor parseOutput)) = true ->
    Failing.validateNamespaces language variableLanguage namespacePrefix relatedInfo
      getLastPrecedingTriviaWithKinds parseOutput ds
    = Ok (Diagnostics.validateNamespaces language variableLanguage namespacePrefix
            relatedInfo getLastPrecedingTriviaWithKinds parseOutput ds).
Proof.
  intros parseOutput ds. unfold Failing.validateNamespaces, Diagnostics.validateNamespaces.
  rewrite !forEachNext_fold.
  generalize (cursorsNext (hasNonterminalKind ContractDefinition)
                          (createTreeCursor parseOutput)) as cs.
  intros cs. revert ds. induction cs as [| c cs IH]; intros ds H; [reflexivity |].
  cbn [forallb] in H. apply andb_true_iff in H. destruct H as [Hc Hcs].
  cbn [fold_left bind]. rewrite validateContract_agrees by exact Hc.
  now apply IH.
Qed.
End Agreement.

Lemma analysis_without_NatSpec_comments_witness :
  Failing.validateNamespaces Examples.languageFoo Examples.languageFoo "myapp" false
    Examples.noComment Examples.documentFoo []
  = Ok (Diagnostics.validateNamespaces Examples.languageFoo Examples.languageFoo "myapp" false
          Examples.noComment Examples.documentFoo []).
Proof.
  apply (analysis_without_NatSpec_comments Examples.languageFoo Examples.languageFoo "myapp"
           false Examples.noComment Examples.documentFoo []).
  vm_compute. reflexivity.
Defined.

(* ------------------------------------------------------------------ *)
(** ** A storage location without a value *)

Section Location.
Import Examples Contracts.

(** C10: in the contract Baz the first storage location constant has the
    formula comment of the expected id and no value yet, the second has no
    comment and the value [0x00].  The iteration of the first constant moves
    the cursor of the loop to the value of the second and compares it with
    the hash of the comment; the loop goes on from there and never reaches
    the second constant.  The pass reports [NamespaceHashMismatch] on the
    value of the constant without a comment, and not the
    [NamespaceStandaloneHashMismatch] that the iteration of that constant
    gives. *)
Theorem value_of_the_next_constant_is_checked :
  map (fun c => StateVariableDefinition.name_text (node c)) (stateVariableCursors cursorBaz)
  = ["AStorageLocation"; "BStorageLocation"] /\
  nameLooksLikeLocation (StateVariableDefinition.name_text (node secondCursorBaz)) = true /\
  commentsBaz secondCursorBaz [SingleLineComment; MultiLineComment] = None /\
  unparse (node (initializerCursor secondCursorBaz)) = " 0x00" /\
  JS.includes " 0x00" (calculateERC7201StorageLocation "myapp.Baz") = false /\
  map code (fst (validateCommentAndHash "myapp" false commentsBaz contractBaz
                   secondCursorBaz []))
  = [NAMESPACE_STANDALONE_HASH_MISMATCH] /\
  map (fun d => (code d, range d, data d))
      (validateNamespaceCommentAndHash "myapp" false commentsBaz cursorBaz contractBaz [])
  = [ (NAMESPACE_HASH_MISMATCH,
       slangToVSCodeRange (getTrimmedRange (initializerCursor secondCursorBaz)),
       DataReplacement (calculateERC7201StorageLocation "myapp.Baz")) ] /\
  Failing.validateNamespaces languageBaz languageBaz "myapp" false commentsBaz documentBaz []
  = Ok (validateNamespaceCommentAndHash "myapp" false commentsBaz cursorBaz contractBaz []).
Proof.
  split; [vm_compute; reflexivity |].
  split; [vm_compute; reflexivity |].
  split; [vm_compute; reflexivity |].
  split; [vm_compute; reflexivity |].
  split; [vm_compute; reflexivity |].
  split; [vm_compute; reflexivity |].
  split; vm_compute; reflexivity.
Qed.
End Location.

(* ------------------------------------------------------------------ *)
(** ** The accessor line after the quick fix *)

Lemma append_associative : forall a b c : string, ((a ++ b) ++ c = a ++ b ++ c)%string.
Proof. induction a as [| x a IH]; intros b c; cbn [append]; [| rewrite IH]; reflexivity. Qed.

Lemma includes_after : forall a s p,
    JS.includes s p = true -> JS.includes (a ++ s)%string p = true.
Proof.
  induction a as [| c a IH]; intros s p H; [exact H |].
  cbn [append JS.includes]. rewrite (IH _ _ H). apply orb_true_r.
Qed.

Lemma includes_inside : forall a p b, JS.includes (a ++ p ++ b)%string p = true.
Proof.
  intros a p b. apply includes_after.
  assert (JS.startsWith p (p ++ b)%string = true) as H.
  { clear a. induction p as [| c p IH]; [reflexivity |].
    cbn [append JS.startsWith]. now rewrite Ascii.eqb_refl, IH. }
  destruct (p ++ b)%string; cbn [JS.includes]; now rewrite H.
Qed.

Lemma insertEdit_In : forall e x sorted, In x sorted \/ x = e -> In x (insertEdit e sorted).
Proof.
  intros e x. induction sorted as [| y sorted IH]; intros H; cbn [insertEdit].
  - destruct H as [[] | ->]. now left.
  - destruct (_ <=? _)%nat.
    + destruct H as [H | ->]; [now right | now left].
    + destruct H as [[-> | H] | ->]; [now left | right; apply IH; now left |
                                     right; apply IH; now right].
Qed.

Lemma sortEdits_In : forall x l, In x l -> In x (sortEdits l).
Proof.
  intros x. induction l as [| e l IH]; intros H; [contradiction |].
  cbn [sortEdits fold_right]. apply insertEdit_In.
  destruct H as [-> | H]; [now right | left; now apply IH].
Qed.

(** The new text of every edit is in the text the edits give. *)
Lemma applySorted_keeps : forall base text sorted pos result e,
    applySorted base text pos sorted = Some result ->
    In e sorted ->
    exists before after, result = (before ++ newText e ++ after)%string.
Proof.
  intros base text. induction sorted as [| x sorted IH]; intros pos result e H Hin;
    [contradiction |].
  cbn [applySorted] in H.
  destruct (_ && _ && _); [| discriminate].
  destruct (applySorted base text (range_end (edit_range x)) sorted) as [tail |] eqn:E;
    [| discriminate].
  injection H as <-. destruct Hin as [-> | Hin].
  - eauto.
  - destruct (IH _ _ _ E Hin) as [b [a ->]].
    exists (String.substring (pos - base) (range_start (edit_range x) - pos) text ++
            newText x ++ b)%string, a.
    rewrite !append_associative. reflexivity.
Qed.

Lemma rewrites_insert_no_accessor : forall contractName rewrites,
    Forall isRewrite rewrites -> insertsAccessor contractName rewrites = false.
Proof.
  intros contractName rewrites H. induction H as [| e l [identifier He] _ IH]; [reflexivity |].
  unfold insertsAccessor in *. cbn [existsb]. rewrite IH, He. reflexivity.
Qed.

(** The quick fix puts the accessor line in a body exactly when the body
    does not have it and an identifier of the body is rewritten. *)
Lemma accessor_inserted_when : forall contractName variables cursor edits0 edits1,
    hasNonterminalKinds [ConstructorDefinition; FunctionDefinition] (node cursor) = true ->
    editFunction contractName variables cursor edits0 = Ok (edits0 ++ edits1) ->
    insertsAccessor contractName edits1 =
    negb (JS.includes (unparse (node (findBlock cursor))) (expectedLine contractName)) &&
    fst (replaceVariables (findBlock cursor) variables edits0).
Proof.
  intros contractName variables cursor edits0 edits1 Hkind H.
  destruct (findBlock_onNonterminal cursor Hkind) as [Hnode _].
  unfold editFunction in H.
  destruct (node (findBlock cursor)) as [k t | k cs] eqn:Hblock; [discriminate |].
  destruct (replaceVariables_rewrites (findBlock cursor) variables edits0)
    as [rewrites [Heq Hall]].
  destruct (replaceVariables (findBlock cursor) variables edits0) as [needs edits].
  cbn [fst snd] in *. subst edits.
  pose proof (rewrites_insert_no_accessor contractName rewrites Hall) as Hnone.
  destruct needs.
  - unfold addStorageGetter in H.
    destruct (JS.includes _ (expectedLine contractName)); cbn [negb andb] in *.
    + injection H as H. apply app_inv_head in H. now subst edits1.
    + destruct (goToNextTerminalWithKind OpenBrace (spawn (findBlock cursor)))
        as [[|] openBraceCursor]; [| discriminate].
      injection H as H. rewrite <- app_assoc in H. apply app_inv_head in H. subst edits1.
      unfold insertsAccessor in *. rewrite existsb_app, Hnone. cbn [existsb newText orb].
      unfold accessorText. now rewrite String.eqb_refl.
  - injection H as H. apply app_inv_head in H. subst edits1.
    rewrite Hnone. now rewrite andb_false_r.
Qed.

(** C9: the quick fix puts the accessor line in the body of a constructor or
    function exactly when the body does not have the line and an identifier
    is rewritten; when it does, and the edits it adds for that function are
    applied to the body, the quick fix run again on a constructor or function
    whose body unparses to the text so obtained adds nothing but rewrites of
    identifiers, whatever variables it moves: the accessor line is not
    inserted a second time.  And on any body that has the line verbatim the
    quick fix adds nothing but rewrites. *)
Theorem accessor_line_is_inserted_once :
  forall contractName variables cursor edits0 edits1 body variables' cursor' edits',
    hasNonterminalKinds [ConstructorDefinition; FunctionDefinition] (node cursor) = true ->
    editFunction contractName variables cursor edits0 = Ok (edits0 ++ edits1) ->
    applyEdits (text_start (textRange (findBlock cursor)))
               (unparse (node (findBlock cursor))) edits1 = Some body ->
    hasNonterminalKinds [ConstructorDefinition; FunctionDefinition] (node cursor') = true ->
    unparse (node (findBlock cursor')) = body ->
    insertsAccessor contractName edits1 =
    negb (JS.includes (unparse (node (findBlock cursor))) (expectedLine contractName)) &&
    fst (replaceVariables (findBlock cursor) variables edits0) /\
    (insertsAccessor contractName edits1 = true ->
     exists rewrites,
       editFunction contractName variables' cursor' edits' = Ok (edits' ++ rewrites) /\
       Forall isRewrite rewrites /\
       insertsAccessor contractName rewrites = false) /\
    (JS.includes body (expectedLine contractName) = true ->
     exists rewrites,
       editFunction contractName variables' cursor' edits' = Ok (edits' ++ rewrites) /\
       Forall isRewrite rewrites /\
       insertsAccessor contractName rewrites = false).
Proof.
  intros contractName variables cursor edits0 edits1 body variables' cursor' edits'
         Hkind1 Hfirst Happlied Hkind Hbody.
  split; [now apply accessor_inserted_when |].
  assert (JS.includes body (expectedLine contractName) = true ->
          exists rewrites,
            editFunction contractName variables' cursor' edits' = Ok (edits' ++ rewrites) /\
            Forall isRewrite rewrites /\
            insertsAccessor contractName rewrites = false) as Hguard.
  { intros Hline. rewrite <- Hbody in Hline.
    destruct (editFunction_with_accessor_line contractName variables' cursor' edits'
                Hkind Hline) as [rewrites [Hsecond Hall]].
    exists rewrites. split; [exact Hsecond |]. split; [exact Hall |].
    now apply rewrites_insert_no_accessor. }
  split; [| exact Hguard].
  intros Hinserted. apply Hguard.
  unfold insertsAccessor in Hinserted. apply existsb_exists in Hinserted.
  destruct Hinserted as [e [Hin He]]. apply String.eqb_eq in He.
  unfold applyEdits in Happlied.
  destruct (applySorted_keeps _ _ _ _ _ e Happlied (sortEdits_In _ _ Hin)) as [b [a Heq]].
  rewrite Heq, He. unfold accessorText.
  replace (b ++ ("{" ++ nl ++ indent ++ indent ++ expectedLine contractName ++ nl) ++ a)%string
    with ((b ++ "{" ++ nl ++ indent ++ indent) ++ expectedLine contractName ++ (nl ++ a))%string
    by (rewrite !append_associative; reflexivity).
  apply includes_inside.
Qed.

Section Twice.
Import Examples Contracts.

(** The function [set] of the contract Bar before the quick fix and after
    it. *)
Example function_before_and_after_the_fix :
  editFunction "Bar" [variableOfSet] (functionCursorSet bodyBefore) []
  = Ok [ {| edit_range := {| range_start := 83; range_end := 84 |}; newText := "$.b" |};
         {| edit_range := {| range_start := 73; range_end := 74 |};
            newText := accessorText "Bar" |} ] /\
  editFunction "Bar" [variableOfSet] (functionCursorSet bodyAfter) []
  = Ok [ {| edit_range := {| range_start := 135; range_end := 136 |}; newText := "$.b" |} ].
Proof. split; vm_compute; reflexivity. Qed.

Lemma accessor_line_is_inserted_once_witness :
  exists rewrites,
    editFunction "Bar" [variableOfSet] (functionCursorSet bodyAfter) [] = Ok ([] ++ rewrites) /\
    Forall isRewrite rewrites /\
    insertsAccessor "Bar" rewrites = false.
Proof.
  refine (proj1 (proj2 (accessor_line_is_inserted_once "Bar" [variableOfSet]
                   (functionCursorSet bodyBefore) []
                   [ {| edit_range := {| range_start := 83; range_end := 84 |};
                        newText := "$.b" |};
                     {| edit_range := {| range_start := 73; range_end := 74 |};
                        newText := accessorText "Bar" |} ]
                   (unparse (node (findBlock (functionCursorSet bodyAfter))))
                   [variableOfSet] (functionCursorSet bodyAfter) [] _ _ _ _ _)) _).
  - vm_compute. reflexivity.
  - vm_compute. reflexivity.
  - vm_compute. reflexivity.
  - vm_compute. reflexivity.
  - reflexivity.
  - vm_compute. reflexivity.
Defined.
End Twice.
